(** * TDLM utilities: permutation sampler and event injector

    A shallow embedding of [tdlm/utils.py] and the properties of its two
    algorithms, [unique_permutations] and [insert_events].

    Conventions of the embedding.
    - Python integers are [Z]; the NumPy [int64] arithmetic that overflows
      on small inputs (the products inside [nPerms]) is wrapped explicitly.
    - NumPy floats are exact rationals [Q]; a NaN is [None] in [option Q].
    - An exception is a value [Raise e]; a [while] loop that may spin
      forever takes a fuel bound and answers [Diverge] when it is used up.
    - The global NumPy generator, SHA-1 and the iteration order of a
      Python [set] are the fields of the class [Runtime]. *)

From Stdlib Require Import ZArith QArith Qround Qabs Lia.
From stdpp Require Import base option list gmap strings pretty.

Local Open Scope Z_scope.

(** ** Exceptions and outcomes *)

Inductive exn : Type :=
| AssertionError
| ValueError
| IndexError
| TypeError
| OverflowError
| NotImplementedError
| Exception (msg : string).

Inductive outcome (A : Type) : Type :=
| Ok (a : A)
| Raise (e : exn)
| Diverge.

Arguments Ok {A} a.
Arguments Raise {A} e.
Arguments Diverge {A}.

Definition obind {A B : Type} (m : outcome A) (k : A → outcome B) : outcome B :=
  match m with
  | Ok a => k a
  | Raise e => Raise e
  | Diverge => Diverge
  end.

Notation "'do' x <- m ; k" := (obind m (fun x => k))
  (at level 10, x pattern, m at level 100, k at level 200).

Definition py_assert (b : bool) : outcome unit :=
  if b then Ok tt else Raise AssertionError.

Definition from_option {A : Type} (e : exn) (o : option A) : outcome A :=
  match o with Some a => Ok a | None => Raise e end.

(** ** Python indexing and slicing *)

(** [l[i]] for a sequence of length [len]: negative indices count from the
    end, anything else out of range raises [IndexError]. *)
Definition py_index (len i : Z) : option nat :=
  if (0 <=? i) && (i <? len) then Some (Z.to_nat i)
  else if (- len <=? i) && (i <? 0) then Some (Z.to_nat (i + len))
  else None.

(** One bound of a slice, clamped the way [slice.indices] does. *)
Definition py_clamp (len i : Z) : Z :=
  if i <? 0 then Z.max (i + len) 0 else Z.min i len.

(** [l[start:stop]] selects the positions [lo <= j < hi]. *)
Definition py_slice (len start stop : Z) : nat * nat :=
  (Z.to_nat (py_clamp len start), Z.to_nat (py_clamp len stop)).

(** [a[idx]] with an integer index array. *)
Definition fancy_index {B : Type} (a : list B) (idx : list Z)
    : option (list B) :=
  mapM (fun i => j ← py_index (Z.of_nat (length a)) i; a !! j) idx.

(** [np.arange(lo, hi)] *)
Definition arange (lo hi : Z) : list Z :=
  map (fun i => lo + Z.of_nat i) (seq 0 (Z.to_nat (hi - lo))).

Definition zsum (l : list Z) : Z := foldr Z.add 0 l.

(** ** The runtime the module runs on *)

Class Runtime : Type := {
  (** state of the global generator [np.random] *)
  rng : Type;
  (** [np.random.seed(s)] for [0 <= s < 2**32] *)
  mt19937_seed : Z → rng;
  (** [np.random.random_sample()] *)
  random_sample : rng → Q * rng;
  (** [np.random.randint(lo, hi)] for [lo < hi] *)
  randint : Z → Z → rng → Z * rng;
  (** [np.random.permutation(n)] *)
  permutation : nat → rng → list Z * rng;
  (** [hashlib.sha1(buf).hexdigest()] of a buffer of [int64] words *)
  sha1_hexdigest : list Z → string;
  (** the order in which [set(labels)] is iterated *)
  set_iter : list Z → list Z;
}.

(** ** Order on the elements of [X], as used by [np.unique] *)

Class Ord (A : Type) : Type := cmp : A → A → comparison.

(** [cmp] answers [Eq] exactly on equal elements. *)
Class OrdSpec (A : Type) `{Ord A} : Prop :=
  cmp_eq : ∀ a b : A, cmp a b = Eq ↔ a = b.

#[export] Instance Ord_Z : Ord Z := Z.compare.

Fixpoint lex_compare (r s : list Z) : comparison :=
  match r, s with
  | [], [] => Eq
  | [], _ :: _ => Lt
  | _ :: _, [] => Gt
  | a :: r', b :: s' =>
      match Z.compare a b with
      | Eq => lex_compare r' s'
      | c => c
      end
  end.

#[export] Instance Ord_row : Ord (list Z) := lex_compare.

(** ** [unique_permutations] *)

Definition int64_wrap (z : Z) : Z := (z + 2 ^ 63) mod 2 ^ 64 - 2 ^ 63.

(** [np.prod] of an [int64] array: the running product wraps around. *)
Definition np_prod_int64 (l : list Z) : Z :=
  fold_left (fun acc v => int64_wrap (acc * v)) l 1.

(** [math.factorial] *)
Definition factorial (n : Z) : Z := fold_left Z.mul (arange 1 (n + 1)) 1.

Fixpoint sorted_insert (v : Z) (l : list Z) : list Z :=
  match l with
  | [] => [v]
  | w :: l' => if v <=? w then v :: l else w :: sorted_insert v l'
  end.

(** [sorted(c)] *)
Definition sorted (c : list Z) : list Z := foldr sorted_insert [] c.

(** Line 107: [np.prod(np.arange(c[-1] + 1, np.sum(c) + 1)) /
    np.prod([math.factorial(x) for x in c[:-1]])], then [int(...)].
    The numerator is an [int64] product and wraps; so does the denominator
    (an [int64] array as long as every multiplicity but the largest is at
    most 20).  The quotient of the two is a float; [int] truncates it, and a
    division by zero gives [inf] or [nan], which [int] refuses. *)
Definition n_perms (c : list Z) : outcome Z :=
  do cmax <- from_option IndexError (last c);
  let num := np_prod_int64 (arange (cmax + 1) (zsum c + 1)) in
  let den := np_prod_int64 (map factorial (removelast c)) in
  if den =? 0 then Raise (if num =? 0 then ValueError else OverflowError)
  else Ok (Z.quot num den).

Section Uperms.
Context `{RT : Runtime} {A : Type} `{OA : Ord A}.

Definition eqb_ord (a b : A) : bool :=
  match cmp a b with Eq => true | _ => false end.

Fixpoint unique_insert (a : A) (us : list A) : list A :=
  match us with
  | [] => [a]
  | u :: us' =>
      match cmp a u with
      | Lt => a :: us
      | Eq => us
      | Gt => u :: unique_insert a us'
      end
  end.

(** [np.unique(X, return_counts=True)]: the sorted distinct elements and
    how often each occurs. *)
Definition np_unique (X : list A) : list A * list Z :=
  let uniques := foldr unique_insert [] X in
  (uniques,
   map (fun u => Z.of_nat (length (List.filter (eqb_ord u) X))) uniques).

(** [uniques.index(i)] *)
Fixpoint list_index (a : A) (l : list A) : option nat :=
  match l with
  | [] => None
  | b :: l' => if eqb_ord b a then Some 0%nat else S <$> list_index a l'
  end.

(** [row not in Perms.tolist()] *)
Definition row_in (row : list Z) (Perms : list (list Z)) : bool :=
  existsb (fun r => bool_decide (r = row)) Perms.

(** Lines 122-129, the rejection loop.  [u] is the last row filled. *)
Fixpoint sample_loop (fuel n : nat) (x : list Z) (k : Z) (u : nat)
    (pInds Perms : list (list Z)) (g : rng)
    : outcome (list (list Z) * list (list Z) * rng) :=
  if Z.of_nat u <? k - 1 then
    match fuel with
    | O => Diverge
    | S fuel' =>
        let '(pInd, g') := permutation n g in
        do row <- from_option IndexError (fancy_index x pInd);
        if row_in row Perms then sample_loop fuel' n x k u pInds Perms g'
        else sample_loop fuel' n x k (S u)
               (<[S u := pInd]> pInds) (<[S u := row]> Perms) g'
    end
  else Ok (pInds, Perms, g).

(** Lines 132-139: every row (or slice) starts as a copy of [X]; rows
    [1 .. k-1] are then overwritten with [X[pInds[j, :]]]. *)
Fixpoint materialise (X : list A) (pInds : list (list Z)) (js : list nat)
    (out : list (list A)) : outcome (list (list A)) :=
  match js with
  | [] => Ok out
  | j :: js' =>
      do pInd <- from_option IndexError (pInds !! j);
      do sel <- from_option IndexError (fancy_index X pInd);
      materialise X pInds js' (<[j := sel]> out)
  end.

(** Everything the function computes: the count, the index matrix, the
    matrix of coded rows the loop accepted, and the permuted input.
    [pInds] and the coded [Perms] are [uint32] matrices; what is stored in
    them is an index below [n] or a code below the number of distinct
    elements, so the entries are kept as plain integers (no array of
    [2^32] rows is considered). *)
Record uperms_run : Type := {
  run_nPerms : Z;
  run_pInds : list (list Z);
  run_codes : list (list Z);
  run_Perms : list (list A);
}.

Definition uperms_trace (X : list A) (k : option Z) (fuel : nat) (g : rng)
    : outcome (uperms_run * rng) :=
  do _ <- py_assert (1 <? Z.of_nat (length X));
  let '(uniques, c) := np_unique X in
  do x <- from_option ValueError
            (mapM (fun i => Z.of_nat <$> list_index i uniques) X);
  do nPerms <- n_perms (sorted c);
  let n := length X in
  let k := match k with
           | None => nPerms
           | Some k => if k >? nPerms then nPerms else k
           end in
  (* np.zeros([int(k), n]) refuses a negative dimension *)
  if k <? 0 then Raise ValueError else
  let pInds := replicate (Z.to_nat k) (replicate n 0) in
  let Perms := pInds in
  (* pInds[0, :] = ... needs a row 0 *)
  if k =? 0 then Raise IndexError else
  let pInds := <[0%nat := arange 0 (Z.of_nat n)]> pInds in
  let Perms := <[0%nat := x]> Perms in
  do (pInds, codes, g') <- sample_loop fuel n x k 0 pInds Perms g;
  do out <- materialise X pInds (seq 1 (Z.to_nat k - 1))
              (replicate (Z.to_nat k) X);
  Ok ({| run_nPerms := nPerms; run_pInds := pInds;
         run_codes := codes; run_Perms := out |}, g').

End Uperms.

Arguments uperms_run A : clear implicits.

(** The squeezed input [X] is a vector or a matrix read as a list of rows;
    the permuted output is [k] rows, or [k] matrices [Perms[:, :, j]]. *)
Inductive ndarray : Type :=
| Vec (v : list Z)
| Mat (rows : list (list Z)).

Inductive perms_out : Type :=
| PermsVec (rows : list (list Z))
| PermsMat (slices : list (list (list Z))).

Definition ndarray_len (X : ndarray) : nat :=
  match X with Vec v => length v | Mat rows => length rows end.

Definition unique_permutations `{RT : Runtime} (X : ndarray) (k : option Z)
    (fuel : nat) (g : rng) : outcome (Z * list (list Z) * perms_out * rng) :=
  match X with
  | Vec v =>
      do (r, g') <- uperms_trace v k fuel g;
      Ok (run_nPerms r, run_pInds r, PermsVec (run_Perms r), g')
  | Mat rows =>
      do (r, g') <- uperms_trace rows k fuel g;
      Ok (run_nPerms r, run_pInds r, PermsMat (run_Perms r), g')
  end.

(** The coded rows accepted by the same call (the local [Perms] before it
    is rebuilt from [X]). *)
Definition unique_permutations_codes `{RT : Runtime} (X : ndarray)
    (k : option Z) (fuel : nat) (g : rng) : outcome (list (list Z)) :=
  match X with
  | Vec v => do (r, _) <- uperms_trace v k fuel g; Ok (run_codes r)
  | Mat rows => do (r, _) <- uperms_trace rows k fuel g; Ok (run_codes r)
  end.


(** ** The stubs *)

Definition tf2seq (TF : list (list Q)) : outcome string :=
  Raise NotImplementedError.

Definition simulate_eeg_resting_state (n_samples : Z)
    (alpha_freq alpha_strength noise : Q) (n_channels : Z)
    : outcome (list (list Q)) :=
  Raise NotImplementedError.

Definition simulate_eeg_localizer (n_samples n_classes : Z) (noise : Q)
    (n_channels : Z) : outcome (list (list Q)) :=
  Raise NotImplementedError.

(** ** Float arrays *)

(** A rank-2 array: [a2_rows] holds [shape[0]] rows of [a2_cols] cells. *)
Record array2 : Type := {
  a2_rows : list (list Q);
  a2_cols : nat;
}.

(** A rank-3 array of shape [(len, a3_dim1, a3_dim2)]. *)
Record array3 : Type := {
  a3_items : list (list (list Q));
  a3_dim1 : nat;
  a3_dim2 : nat;
}.

(** [insert_data] has rank 2 or 3 (line 271 holds by typing, as do the
    rank assertions on [insert_labels] and [data]). *)
Inductive insert_array : Type :=
| Ins2 (a : array2)
| Ins3 (a : array3).

Definition a2_len (a : array2) : Z := Z.of_nat (length (a2_rows a)).

Definition ins_len (a : insert_array) : Z :=
  match a with
  | Ins2 a => Z.of_nat (length (a2_rows a))
  | Ins3 a => Z.of_nat (length (a3_items a))
  end.

Definition ins_shape1 (a : insert_array) : nat :=
  match a with Ins2 a => a2_cols a | Ins3 a => a3_dim1 a end.

(** Lines 282-283: a rank-2 [insert_data] gets a trailing axis of size 1. *)
Definition to_3d (a : insert_array) : array3 :=
  match a with
  | Ins2 a =>
      {| a3_items := map (map (fun v => [v])) (a2_rows a);
         a3_dim1 := a2_cols a;
         a3_dim2 := 1 |}
  | Ins3 a => a
  end.

Definition Qlt_bool (a b : Q) : bool := negb (Qle_bool b a).

Definition qsum (l : list Q) : Q := foldr Qplus 0%Q l.

(** ** [hash_array] and the seed *)

(** [astype(np.int64)] drops the fractional part. *)
Definition Qtrunc (q : Q) : Z :=
  if Qle_bool 0 q then Qfloor q else Qceiling q.

Definition astype_int64 (arr : array2) : list Z :=
  map (fun v => int64_wrap (Qtrunc v)) (concat (a2_rows arr)).

Definition hash_array `{RT : Runtime} (arr : array2) : string :=
  String.substring 0 8 (sha1_hexdigest (astype_int64 arr)).

Definition is_digit (c : Ascii.ascii) : bool :=
  (48 <=? Ascii.nat_of_ascii c)%nat && (Ascii.nat_of_ascii c <=? 57)%nat.

(** [''.join(str(x) if x.isdigit() else str(ord(x)) for x in h)] *)
Fixpoint seed_text (h : string) : string :=
  match h with
  | EmptyString => EmptyString
  | String c h' =>
      (if is_digit c then String c EmptyString
       else pretty (Ascii.nat_of_ascii c))
      +:+ seed_text h'
  end.

Fixpoint int_of_digits (acc : Z) (s : string) : option Z :=
  match s with
  | EmptyString => Some acc
  | String c s' =>
      if is_digit c
      then int_of_digits (10 * acc + (Z.of_nat (Ascii.nat_of_ascii c) - 48)) s'
      else None
  end.

(** [int(s)] for a string of decimal digits *)
Definition py_int (s : string) : outcome Z :=
  match s with
  | EmptyString => Raise ValueError
  | _ => from_option ValueError (int_of_digits 0 s)
  end.

(** [np.random.seed(seed)]: the legacy seeding accepts [0 .. 2**32 - 1]. *)
Definition np_random_seed `{RT : Runtime} (seed : Z) : outcome rng :=
  if (0 <=? seed) && (seed <=? 2 ^ 32 - 1) then Ok (mt19937_seed seed)
  else Raise ValueError.

(** ** Class templates *)

Definition cell (m : list (list Q)) (i j : nat) : Q :=
  nth j (nth i m []) 0%Q.

(** [insert_data[insert_labels == label, :, :]] *)
Definition select_label (items : list (list (list Q))) (labels : list Z)
    (label : Z) : list (list (list Q)) :=
  map fst (List.filter (fun il => snd il =? label) (zip items labels)).

(** [.mean(0)] *)
Definition mean0 (items : list (list (list Q))) (d1 d2 : nat) : list (list Q) :=
  map (fun i =>
         map (fun j =>
                (qsum (map (fun it => cell it i j) items)
                 / inject_Z (Z.of_nat (length items)))%Q)
             (seq 0 d2))
      (seq 0 d1).

(** Lines 302-305; [np.stack] refuses an empty list. *)
Definition class_means `{RT : Runtime} (ins : array3) (labels : list Z)
    : outcome (list (list (list Q))) :=
  let class_mean :=
    map (fun label =>
           mean0 (select_label (a3_items ins) labels label)
                 (a3_dim1 ins) (a3_dim2 ins))
        (set_iter labels) in
  match class_mean with
  | [] => Raise ValueError
  | _ => Ok class_mean
  end.

(** ** The shaping vector [p] *)

Inductive distribution : Type :=
| DistStr (s : string)
| DistArr (shape : list nat) (vals : list Q).

(** Lines 276-279.  [np.isclose(s, 1)] is [|s - 1| <= 1e-8 + 1e-5 * 1]. *)
Definition check_distribution (d : distribution) (data_len : Z)
    : outcome unit :=
  match d with
  | DistStr _ => Ok tt
  | DistArr shape vals =>
      do len <- from_option TypeError (head shape);
      do _ <- py_assert (Z.of_nat len =? data_len);
      do _ <- py_assert (length shape =? 1)%nat;
      py_assert (Qle_bool (Qabs (qsum vals - 1)) (1001 # 100000000))
  end.

(** [p.sum()], which is NaN as soon as one entry is *)
Definition fsum (p : list (option Q)) : option Q :=
  foldr (fun x acc =>
           match x, acc with
           | Some a, Some b => Some (a + b)%Q
           | _, _ => None
           end) (Some 0%Q) p.

(** [p / p.sum()].  A zero sum turns every entry into NaN: the entries of
    [p] are never negative, so they are all zero then and each is [0/0]. *)
Definition normalise (p : list (option Q)) : list (option Q) :=
  match fsum p with
  | Some s =>
      if Qeq_bool s 0 then map (fun _ => None) p
      else map (fun x => match x with
                         | Some a => Some (a / s)%Q
                         | None => None
                         end) p
  | None => map (fun _ => None) p
  end.

(** [np.linspace(a, b, n)] *)
Definition linspace (a b : Q) (n : nat) : list Q :=
  match n with
  | 0%nat => []
  | 1%nat => [a]
  | _ => map (fun i =>
                (a + inject_Z (Z.of_nat i)
                     * ((b - a) / inject_Z (Z.of_nat n - 1)))%Q)
             (seq 0 n)
  end.

(** Lines 308-318.  With an array, [distribution == 'constant'] is an array
    of [False] of the same shape; its truth value is an error when it has
    more than one element and [False] otherwise, so control reaches the
    final [else]. *)
Definition initial_p (d : distribution) (data_len : nat)
    : outcome (list (option Q)) :=
  match d with
  | DistStr s =>
      if String.eqb s "constant" then
        Ok (normalise (map Some (replicate data_len 1%Q)))
      else if String.eqb s "decreasing" then
        Ok (normalise (map (fun v => Some (v * v)%Q) (linspace 1 0 data_len)))
      else if String.eqb s "increasing" then
        Ok (normalise (map (fun v => Some (v * v)%Q) (linspace 0 1 data_len)))
      else Raise (Exception ("unknown distribution " +:+ s))
  | DistArr shape vals =>
      if (1 <? length vals)%nat then Raise ValueError
      else Raise (Exception "unknown distribution")
  end.

(** [p[lo:hi] = 0] *)
Definition zero_slice (p : list (option Q)) (lo hi : nat) : list (option Q) :=
  imap (fun j x => if (lo <=? j)%nat && (j <? hi)%nat then Some 0%Q else x) p.

(** [np.cumsum] *)
Fixpoint cumsum (acc : Q) (l : list Q) : list Q :=
  match l with
  | [] => []
  | v :: l' => (acc + v)%Q :: cumsum (acc + v)%Q l'
  end.

(** [np.random.choice(np.arange(len(p)), p=p)]: the argument checks of the
    legacy generator (a non-empty population, no NaN, no negative entry, a
    sum within [sqrt(eps) = 2**-26] of 1), then one uniform sample looked up
    in the normalised cumulative sums with [searchsorted(side='right')]. *)
Definition np_choice_p `{RT : Runtime} (p : list (option Q)) (g : rng)
    : outcome (Z * rng) :=
  match p with
  | [] => Raise ValueError
  | _ =>
      do q <- from_option ValueError (mapM id p);
      if existsb (fun v => Qlt_bool v 0) q then Raise ValueError else
      if Qlt_bool (1 # 67108864) (Qabs (qsum q - 1)) then Raise ValueError else
      let cdf := cumsum 0 q in
      let total := List.last cdf 0%Q in
      let cdf := map (fun c => (c / total)%Q) cdf in
      let '(u, g') := random_sample g in
      let idx := length (List.filter (fun c => Qle_bool c u) cdf) in
      if (idx <? length p)%nat then Ok (Z.of_nat idx, g')
      else Raise IndexError
  end.

(** [np.where(p > 0)[0]], counted *)
Definition available_indices (p : list (option Q)) : Z :=
  Z.of_nat (length (List.filter
                      (fun x => match x with
                                | Some v => Qlt_bool 0 v
                                | None => false
                                end) p)).

(** Lines 330-355, one iteration per [i] of [range(n_events)]. *)
Fixpoint schedule_loop `{RT : Runtime} (iter : list Z)
    (n_events lag n_steps span : Z) (p : list (option Q)) (starts : list Z)
    (g : rng) : outcome (list Z * rng) :=
  match iter with
  | [] => Ok (starts, g)
  | i :: iter' =>
      do (_, g) <- np_choice_p p g;
      if available_indices p <? n_events - i then Raise ValueError else
      do (start_idx, g) <- np_choice_p p g;
      let end_idx := start_idx + lag * n_steps + span in
      do _ <- py_assert (end_idx <? Z.of_nat (length p));
      let '(lo, hi) := py_slice (Z.of_nat (length p)) start_idx end_idx in
      let p := normalise (zero_slice p lo hi) in
      schedule_loop iter' n_events lag n_steps span p (starts ++ [start_idx]) g
  end.

(** Lines 320-355: mask the tail of [p], then draw the start offsets. *)
Definition schedule `{RT : Runtime} (data : array2) (span : Z)
    (n_events lag n_steps : Z) (p : list (option Q)) (g : rng)
    : outcome (list Z * rng) :=
  let padding := n_steps * lag + Z.of_nat (a2_cols data) in
  let len := Z.of_nat (length p) in
  let p := zero_slice p (Z.to_nat (py_clamp len (- padding))) (length p) in
  let p := normalise p in
  schedule_loop (arange 0 n_events) n_events lag n_steps span p [] g.

(** ** The injector *)

(** Arrays live in a store; a variable holds the address of its array, so
    that writing through one name is seen through every alias. *)
Record state `{RT : Runtime} : Type := {
  heap : gmap nat array2;
  gen : rng;
}.

(** One row of the onset table (the six lists of [events], appended in
    lock-step, read row by row). *)
Record event : Type := {
  ev_idx : Z;
  ev_pos : Z;
  ev_step : Z;
  ev_class_idx : Z;
  ev_span : Z;
  ev_jitter : Z;
}.

(** [a[pos:pos+span, :] += tpl.T] for a template [tpl] of shape
    [(a2_cols a, span)]: the transposed operand has [span] rows and must
    broadcast onto the rows the slice selects. *)
Definition add_template (a : array2) (pos : Z) (span : nat)
    (tpl : list (list Q)) : outcome array2 :=
  let '(lo, hi) := py_slice (a2_len a) pos (pos + Z.of_nat span) in
  if (span =? hi - lo)%nat || (span =? 1)%nat then
    Ok {| a2_rows :=
            imap (fun j row =>
                    if (lo <=? j)%nat && (j <? hi)%nat then
                      imap (fun c v =>
                              (v + cell tpl c
                                     (if (span =? 1)%nat then 0 else j - lo))%Q)
                           row
                    else row)
                 (a2_rows a);
          a2_cols := a2_cols a |}
  else Raise ValueError.

Section Injector.
Context `{RT : Runtime}.

(** Lines 374-390, one iteration per [step]. *)
Fixpoint inject_steps (steps : list Z) (data_sim : nat) (idx : Z)
    (sequence : list Z) (class_mean : list (list (list Q))) (span : nat)
    (lag jitter : Z) (pos seq_i smp_jitter : Z) (events : list event)
    (σ : state) : outcome (list event * state) :=
  match steps with
  | [] => Ok (events, σ)
  | step :: steps' =>
      do j <- from_option IndexError
                (py_index (Z.of_nat (length sequence)) seq_i);
      do class_idx <- from_option IndexError (sequence !! j);
      do c <- from_option IndexError
                (py_index (Z.of_nat (length class_mean)) class_idx);
      do tpl <- from_option IndexError (class_mean !! c);
      do a <- from_option TypeError (heap σ !! data_sim);
      do a' <- add_template a pos span tpl;
      let hp := <[data_sim := a']> (heap σ) in
      let events :=
        events ++ [{| ev_idx := idx; ev_pos := pos; ev_step := step;
                      ev_class_idx := class_idx;
                      ev_span := Z.of_nat span;
                      ev_jitter := smp_jitter |}] in
      do (smp_jitter, g) <-
           (if jitter =? 0 then Ok (0, gen σ)
            else if - jitter <? jitter + 1
                 then Ok (randint (- jitter) (jitter + 1) (gen σ))
                 else Raise ValueError);
      inject_steps steps' data_sim idx sequence class_mean span lag jitter
        (pos + (lag + smp_jitter)) (seq_i + 1) smp_jitter events
        {| heap := hp; gen := g |}
  end.

(** Lines 367-390, one iteration per event train. *)
Fixpoint inject_trains (starts : list Z) (idx : Z) (data_sim : nat)
    (sequence : list Z) (class_mean : list (list (list Q))) (span : nat)
    (lag jitter n_steps : Z) (events : list event) (σ : state)
    : outcome (list event * state) :=
  match starts with
  | [] => Ok (events, σ)
  | start_idx :: starts' =>
      (* np.random.choice(np.arange(len(sequence) - n_steps)) *)
      let m := Z.of_nat (length sequence) - n_steps in
      if m <=? 0 then Raise ValueError else
      let '(r, g) := randint 0 m (gen σ) in
      do j <- from_option IndexError (py_index m r);
      do (events, σ) <-
        inject_steps (arange 0 (n_steps + 1)) data_sim idx sequence
          class_mean span lag jitter start_idx (Z.of_nat j) 0 events
          {| heap := heap σ; gen := g |};
      inject_trains starts' (idx + 1) data_sim sequence class_mean span
        lag jitter n_steps events σ
  end.

(** What lines 269-355 leave for the injection: the class templates,
    their span and the scheduled start offsets. *)
Record plan : Type := {
  plan_data : array2;
  plan_class_mean : list (list (list Q));
  plan_span : nat;
  replay_start_idxs : list Z;
}.

Definition insert_events_plan (data : nat) (insert_data : insert_array)
    (insert_labels : list Z) (n_events lag n_steps : Z)
    (dist : distribution) (σ : state) : outcome (plan * rng) :=
  do d <- from_option TypeError (heap σ !! data);
  do _ <- py_assert (ins_len insert_data =? Z.of_nat (length insert_labels));
  do _ <- py_assert (a2_cols d =? ins_shape1 insert_data)%nat;
  do _ <- check_distribution dist (a2_len d);
  let ins := to_3d insert_data in
  do seed <- py_int (seed_text (hash_array d));
  do g <- np_random_seed seed;
  do class_mean <- class_means ins insert_labels;
  do p <- initial_p dist (length (a2_rows d));
  do (starts, g) <-
    schedule d (Z.of_nat (a3_dim2 ins)) n_events lag n_steps p g;
  Ok ({| plan_data := d; plan_class_mean := class_mean;
         plan_span := a3_dim2 ins; replay_start_idxs := starts |}, g).

(** [insert_events]: [data] is the address of the input array; the result
    is the address of [data_sim] and, when asked for, the onset table. *)
Definition insert_events (data : nat) (insert_data : insert_array)
    (insert_labels : list Z) (sequence : list Z) (n_events : Z)
    (lag jitter n_steps : Z) (dist : distribution) (return_onsets : bool)
    (σ : state) : outcome (nat * option (list event) * state) :=
  do (pl, g) <-
    insert_events_plan data insert_data insert_labels n_events lag n_steps
      dist σ;
  (* data_sim = data.copy() *)
  let data_sim := fresh (dom (heap σ)) in
  let σ := {| heap := <[data_sim := plan_data pl]> (heap σ); gen := g |} in
  do (events, σ) <-
    inject_trains (replay_start_idxs pl) 0 data_sim sequence
      (plan_class_mean pl) (plan_span pl) lag jitter n_steps [] σ;
  Ok (data_sim, if return_onsets then Some events else None, σ).

End Injector.

Section Views.
Context `{RT : Runtime}.

(** What the store and the generator look like from [data_sim]. *)
Definition view (l : nat) (σ : state) : option array2 * rng :=
  (heap σ !! l, gen σ).

Definition view_outcome {B : Type} (l : nat) (o : outcome (B * state))
    : outcome (B * (option array2 * rng)) :=
  match o with
  | Ok (b, σ) => Ok (b, view l σ)
  | Raise e => Raise e
  | Diverge => Diverge
  end.

End Views.

(** The footprint of one event train and the non-overlap of trains. *)
Definition footprint (n_steps lag : Z) (span : nat) : Z :=
  n_steps * lag + Z.of_nat span.

Definition disjoint_intervals (fp : Z) (s t : Z) : Prop :=
  s + fp <= t ∨ t + fp <= s.

Definition pairwise_disjoint (fp : Z) (starts : list Z) : Prop :=
  ∀ i j s t, i ≠ j → starts !! i = Some s → starts !! j = Some t →
             disjoint_intervals fp s t.

(** Offset [j] can still be drawn: [p[j] > 0]. *)
Definition positive_at (p : list (option Q)) (j : nat) : Prop :=
  ∃ v, p !! j = Some (Some v) ∧ (0 < v)%Q.

(** No entry of [p] is negative. *)
Definition nonneg (p : list (option Q)) : Prop :=
  Forall (fun x => match x with Some v => (0 <= v)%Q | None => True end) p.

(** No train starts inside the interval of a train scheduled before it. *)
Definition later_outside (fp : Z) (starts : list Z) : Prop :=
  ∀ i j s t, (i < j)%nat → starts !! i = Some s → starts !! j = Some t →
             ¬ (s <= t < s + fp).

(** ** A scripted runtime, to run the model on concrete inputs

    The generator replays a fixed script of draws: uniform samples, integers
    (reduced into the requested range) and permutations (a script entry that
    is not a permutation of [0 .. n-1] is replaced by the identity). *)

Record script : Type := {
  uniforms : list Q;
  ints : list Z;
  perms : list (list Z);
}.

Definition scripted_sample (s : script) : Q * script :=
  match uniforms s with
  | [] => (0%Q, s)
  | u :: us => (u, {| uniforms := us; ints := ints s; perms := perms s |})
  end.

Definition scripted_randint (lo hi : Z) (s : script) : Z * script :=
  match ints s with
  | [] => (lo, s)
  | i :: is' =>
      (lo + i mod (hi - lo),
       {| uniforms := uniforms s; ints := is'; perms := perms s |})
  end.

Definition scripted_permutation (n : nat) (s : script) : list Z * script :=
  match perms s with
  | [] => (arange 0 (Z.of_nat n), s)
  | p :: ps =>
      (if bool_decide (sorted p = arange 0 (Z.of_nat n)) then p
       else arange 0 (Z.of_nat n),
       {| uniforms := uniforms s; ints := ints s; perms := ps |})
  end.

Definition scripted (digest : string) (s : script) : Runtime := {|
  rng := script;
  mt19937_seed := fun _ => s;
  random_sample := scripted_sample;
  randint := scripted_randint;
  permutation := scripted_permutation;
  sha1_hexdigest := fun _ => digest;
  set_iter := fun labels => foldr (unique_insert (A := Z)) [] labels;
|}.

Definition perm_script (ps : list (list Z)) : script :=
  {| uniforms := []; ints := []; perms := ps |}.

(** ** Reading the results *)

(** Row 0 of the permuted output: [Perms[0, :]], or [Perms[:, :, 0]]. *)
Definition perms_row0 (P : perms_out) : option ndarray :=
  match P with
  | PermsVec rows => Vec <$> rows !! 0%nat
  | PermsMat slices => Mat <$> slices !! 0%nat
  end.

(** How many permuted outputs there are. *)
Definition perms_count (P : perms_out) : nat :=
  match P with
  | PermsVec rows => length rows
  | PermsMat slices => length slices
  end.

(** The shape of a rank-2 array, row by row. *)
Definition same_shape (a b : array2) : Prop :=
  a2_cols a = a2_cols b ∧ map length (a2_rows a) = map length (a2_rows b).

(** ** Concrete inputs *)

(** A runtime for the sampler: only the permutation script matters. *)
Definition sampler_rt : Runtime := scripted "" (perm_script []).

(** [X = [1, 1, 2]] and five draws of [np.random.permutation(3)]. *)
Definition X112 : ndarray := Vec [1; 1; 2].

Definition draws112 : script :=
  perm_script [[0; 1; 2]; [1; 0; 2]; [2; 1; 0]; [0; 2; 1]; [1; 2; 0]].

(** A design matrix with a repeated row. *)
Definition Xmat : ndarray := Mat [[1; 0]; [0; 1]; [1; 0]].

(** Twenty-five distinct values and one draw that swaps the first two. *)
Definition X25 : ndarray := Vec (arange 0 25).

Definition draws25 : script := perm_script [1 :: 0 :: arange 2 25].

(** [np.zeros((n, m))] *)
Definition zeros (n m : nat) : array2 :=
  {| a2_rows := replicate n (replicate m 0%Q); a2_cols := m |}.

(** Two calls agree: the same exception, or the same onset table, the
    same content of the returned array and the same generator state. *)
Definition same_result `{RT : Runtime}
    (o1 o2 : outcome (nat * option (list event) * state)) : Prop :=
  match o1, o2 with
  | Ok (s1, onsets1, σ1), Ok (s2, onsets2, σ2) =>
      onsets1 = onsets2
      ∧ is_Some (heap σ1 !! s1)
      ∧ heap σ1 !! s1 = heap σ2 !! s2
      ∧ gen σ1 = gen σ2
  | Raise e1, Raise e2 => e1 = e2
  | Diverge, Diverge => True
  | _, _ => False
  end.

(** [data = np.array([[1.], [0.], [0.], [0.], [0.], [0.]])].  The SHA-1 of
    its [int64] buffer starts with [6c554479], so the seed is [699554479];
    the script holds the first four doubles MT19937 produces from it. *)
Definition data6 : array2 :=
  {| a2_rows := [[1%Q]; [0%Q]; [0%Q]; [0%Q]; [0%Q]; [0%Q]]; a2_cols := 1 |}.

Definition draws6 : script :=
  {| uniforms := [6363232552191239 # 9007199254740992;
                  2878986107694877 # 9007199254740992;
                  2612351060729133 # 9007199254740992;
                  5233217108684913 # 9007199254740992];
     ints := [];
     perms := [] |}.

Definition rt6 : Runtime :=
  scripted "6c5544797a91115dc3330ebd003851d239a706ff" draws6.

(** Two exemplars of one channel and two samples, labelled 0 and 1. *)
Definition insert6 : insert_array :=
  Ins3 {| a3_items := [[[1%Q; 2%Q]]; [[3%Q; 4%Q]]];
          a3_dim1 := 1; a3_dim2 := 2 |}.

(** [data] at address 0, the generator in some earlier state. *)
Definition state6 : state (RT := rt6) :=
  Build_state rt6 {[ 0%nat := data6 ]} (perm_script []).

(** The same array at address 3 of another store, the generator elsewhere. *)
Definition state6' : state (RT := rt6) :=
  Build_state rt6 {[ 0%nat := zeros 2 2; 3%nat := data6 ]}
    {| uniforms := [1 # 3]; ints := [5]; perms := [] |}.

(** The same run with integer draws for the jitter samples. *)
Definition draws6j : script :=
  {| uniforms := uniforms draws6; ints := [0; 2; 1; 0; 0; 2]; perms := [] |}.

Definition rt6j : Runtime :=
  scripted "6c5544797a91115dc3330ebd003851d239a706ff" draws6j.

Definition state6j : state (RT := rt6j) :=
  Build_state rt6j {[ 0%nat := data6 ]} (perm_script []).

(** A probability vector for [data6]: six entries of [1/6]. *)
Definition uniform6 : distribution := DistArr [6%nat] (replicate 6 (1 # 6)).

(** ** The symbol codec and the transition matrix

    A Python [str] is the list of its code points.  [str.upper] is written
    out for Latin-1; the rest of the Unicode table is a parameter. *)

Class Unicode : Type := upper_beyond_latin1 : Z → list Z.

(** [c.upper()] for one character: the code points of the result. *)
Definition py_upper_char `{UC : Unicode} (c : Z) : list Z :=
  if 256 <=? c then upper_beyond_latin1 c
  else if (97 <=? c) && (c <=? 122) then [c - 32]
  else if c =? 181 then [924]
  else if c =? 223 then [83; 83]
  else if (224 <=? c) && (c <=? 254) && negb (c =? 247) then [c - 32]
  else if c =? 255 then [376]
  else [c].

(** [s.upper()] *)
Definition py_upper `{UC : Unicode} (s : list Z) : list Z :=
  concat (map py_upper_char s).

(** [ord(s)] wants exactly one character. *)
Definition py_ord (s : list Z) : outcome Z :=
  match s with
  | [c] => Ok c
  | _ => Raise TypeError
  end.

(** [chr(n)]: the argument has to fit a C [int], then to be a code point. *)
Definition py_chr (n : Z) : outcome Z :=
  if (n <? - 2 ^ 31) || (2 ^ 31 <=? n) then Raise OverflowError
  else if (0 <=? n) && (n <? 1114112) then Ok n
  else Raise ValueError.

(** A list comprehension whose body may raise. *)
Fixpoint omapM {A B : Type} (f : A → outcome B) (l : list A)
    : outcome (list B) :=
  match l with
  | [] => Ok []
  | a :: l' => do b <- f a; do bs <- omapM f l'; Ok (b :: bs)
  end.

(** The argument of [char2num]: a [str], or a sequence of [str]s. *)
Inductive char_seq : Type :=
| SeqStr (s : list Z)
| SeqList (items : list (list Z)).

(** [list(seq)] for a [str]; a sequence is iterated as it is. *)
Definition seq_items (seq : char_seq) : list (list Z) :=
  match seq with
  | SeqStr s => map (fun c => [c]) s
  | SeqList items => items
  end.

(** Lines 143-150.  The assertion of line 147 compares two constants. *)
Definition char2num `{UC : Unicode} (seq : char_seq) : outcome (list Z) :=
  do nums <- omapM (fun c => do o <- py_ord (py_upper c); Ok (o - 65))
               (seq_items seq);
  do _ <- py_assert (forallb (fun n => (0 <=? n) && (n <=? 90)) nums);
  Ok nums.

(** Line 156, an [int] argument. *)
Definition num2char_int (arr : Z) : outcome (list Z) :=
  do c <- py_chr (arr + 65); Ok [c].

(** An item of a NumPy array of strings: trailing NULs are not stored. *)
Definition np_str_item (c : Z) : list Z := if c =? 0 then [] else [c].

(** Lines 157-158, a one-dimensional argument.  [np.array(arr, dtype=int)]
    refuses an integer outside [int64]. *)
Definition num2char (arr : list Z) : outcome (list (list Z)) :=
  do arr <- omapM (fun x => if (- 2 ^ 63 <=? x) && (x <? 2 ^ 63) then Ok x
                            else Raise OverflowError) arr;
  do chars <- omapM (fun x => py_chr (x + 65)) arr;
  Ok (map np_str_item chars).

(** [max(seq)] *)
Definition py_max (l : list Z) : outcome Z :=
  match l with
  | [] => Raise ValueError
  | v :: l' => Ok (foldl Z.max v l')
  end.

(** [TF[p1, p2] = 1] *)
Definition set_cell (TF : list (list Z)) (p1 p2 : Z) : outcome (list (list Z)) :=
  do r <- from_option IndexError (py_index (Z.of_nat (length TF)) p1);
  do row <- from_option IndexError (TF !! r);
  do c <- from_option IndexError (py_index (Z.of_nat (length row)) p2);
  Ok (<[r := <[c := 1]> row]> TF).

(** Lines 190-193, from index [i] on. *)
Fixpoint seq2tf_loop (seq : list Z) (i : nat) (rest : list Z)
    (TF : list (list Z)) : outcome (list (list Z)) :=
  match rest with
  | [] => Ok TF
  | p1 :: rest' =>
      if Z.of_nat (length seq) <=? Z.of_nat i + 1
      then seq2tf_loop seq (S i) rest' TF
      else
        do p2 <- from_option IndexError
                   (seq !! Z.to_nat ((Z.of_nat i + 1)
                                     mod Z.of_nat (length seq)));
        do TF <- set_cell TF p1 p2;
        seq2tf_loop seq (S i) rest' TF
  end.

(** Lines 170-194. *)
Definition seq2tf `{UC : Unicode} (sequence : char_seq) (n_states : option Z)
    : outcome (list (list Q)) :=
  do seq <- char2num sequence;
  do n_states <- match n_states with
                 | None => do m <- py_max seq; Ok (m + 1)
                 | Some n => Ok n
                 end;
  (* np.zeros refuses a negative dimension *)
  if n_states <? 0 then Raise ValueError else
  let TF := replicate (Z.to_nat n_states) (replicate (Z.to_nat n_states) 0) in
  do TF <- seq2tf_loop seq 0 seq TF;
  Ok (map (map inject_Z) TF).

(** The code points of a literal. *)
Definition str (s : string) : list Z :=
  map (fun c => Z.of_nat (Ascii.nat_of_ascii c)) (String.list_ascii_of_string s).

(** Nothing beyond Latin-1 changes case. *)
Definition plain_unicode : Unicode := fun c => [c].

(** Is [b] the successor of [a] somewhere in [seq]? *)
Definition adjacent (seq : list Z) (a b : Z) : Prop :=
  ∃ i : nat, seq !! i = Some a ∧ seq !! S i = Some b.

(** ** The two-step transition table
    Of the [DataFrame] that [seq2TF_2step] returns, the model keeps the
    column labels and, row by row, the index label and the cells.  Arrays
    are as large as they are asked to be: memory is not modelled. *)

Record frame : Type := {
  df_columns : list (list Z);
  df_rows : list (list Z * list Z);
}.

(** [char2num(triplet[k])[0]] *)
Definition triplet_code `{UC : Unicode} (triplet : list Z) (k : nat)
    : outcome Z :=
  do t <- from_option IndexError (triplet !! k);
  do nums <- char2num (SeqStr [t]);
  from_option IndexError (nums !! 0%nat).

(** [TF2[i, j] = 1] for an integer [i] and a list [j] of column indices. *)
Definition set_cells (TF : list (list Z)) (i : Z) (j : list Z)
    : outcome (list (list Z)) :=
  do _ <- from_option IndexError (py_index (Z.of_nat (length TF)) i);
  foldl (fun acc c => do TF <- acc; set_cell TF i c) (Ok TF) j.

(** Lines 204-210, from index [i] on. *)
Fixpoint seq2TF_2step_loop `{UC : Unicode} (seq : list (list Z))
    (n_states : Z) (i : nat) (rest : list (list Z)) (TF2 : list (list Z))
    : outcome (list (list Z)) :=
  match rest with
  | [] => Ok TF2
  | p1 :: rest' =>
      let len := Z.of_nat (length seq) in
      if len <=? Z.of_nat i + 2
      then seq2TF_2step_loop seq n_states (S i) rest' TF2
      else
        do s0 <- from_option IndexError (seq !! i);
        do s1 <- from_option IndexError
                   (seq !! Z.to_nat ((Z.of_nat i + 1) mod len));
        do s2 <- from_option IndexError
                   (seq !! Z.to_nat ((Z.of_nat i + 2) mod len));
        let triplet := s0 ++ s1 ++ s2 in
        do n0 <- triplet_code triplet 0;
        do n1 <- triplet_code triplet 1;
        do t2 <- from_option IndexError (triplet !! 2%nat);
        do j <- char2num (SeqStr [t2]);
        do TF2 <- set_cells TF2 (n0 * n_states + n1) j;
        seq2TF_2step_loop seq n_states (S i) rest' TF2
  end.

(** [[f'{y}{x}' for y in seq_set for x in seq_set]] *)
Definition pair_labels (seq_set : list (list Z)) : list (list Z) :=
  concat (map (fun y => map (fun x => y ++ x) seq_set) seq_set).

(** Lines 196-218.  The keys of the dict of columns are pairwise distinct
    ([chr] is injective), so the frame has one column per state; rows that
    hold zeros only are dropped. *)
Definition seq2TF_2step `{UC : Unicode} (seq : char_seq)
    (n_states : option Z) : outcome frame :=
  do n_states <- match n_states with
                 | None => do nums <- char2num seq;
                           do m <- py_max nums; Ok (m + 1)
                 | Some n => Ok n
                 end;
  (* np.zeros refuses a negative dimension *)
  if n_states <? 0 then Raise ValueError else
  let TF2 := replicate (Z.to_nat (n_states * n_states))
               (replicate (Z.to_nat n_states) 0) in
  do TF2 <- seq2TF_2step_loop (seq_items seq) n_states 0 (seq_items seq) TF2;
  do seq_set <- num2char (arange 0 n_states);
  Ok {| df_columns := seq_set;
        df_rows := List.filter
                     (fun r => existsb (fun v => negb (v =? 0)) r.2)
                     (zip (pair_labels seq_set) TF2) |}.

(** ** Notions the properties are stated with *)

(** An ASCII letter, by its code point. *)
Definition is_letter (c : Z) : Prop := 65 <= c <= 90 ∨ 97 <= c <= 122.

(** The position of a letter in the alphabet. *)
Definition letter_index (c : Z) : Z := if c <? 97 then c - 65 else c - 97.

(** An [n] by [n] matrix. *)
Definition square (n : nat) (TF : list (list Z)) : Prop :=
  length TF = n ∧ Forall (fun row => length row = n) TF.

(** [TF[a, b]] *)
Definition mcell {B : Type} (TF : list (list B)) (a b : Z) : option B :=
  row ← TF !! Z.to_nat a; row !! Z.to_nat b.

(** [b] follows [a] at one of the first [k] positions of [seq]. *)
Definition adjacent_upto (k : nat) (seq : list Z) (a b : Z) : Prop :=
  ∃ i : nat, (i < k)%nat ∧ seq !! i = Some a ∧ seq !! S i = Some b.

(** The state of the matrix after the first [k] positions. *)
Definition marks (n : nat) (k : nat) (seq : list Z) (TF : list (list Z)) : Prop :=
  square n TF
  ∧ (∀ a b, adjacent_upto k seq a b → a < Z.of_nat n ∧ b < Z.of_nat n)
  ∧ ∀ a b, 0 <= a < Z.of_nat n → 0 <= b < Z.of_nat n →
      (mcell TF a b = Some 1 ∧ adjacent_upto k seq a b)
      ∨ (mcell TF a b = Some 0 ∧ ¬ adjacent_upto k seq a b).

(** Rows [0 .. u] of the two matrices belong together: the coded row is
    the coding [x] taken at the index row. *)
Definition rows_linked (x : list Z) (u : nat) (pInds Perms : list (list Z))
    : Prop :=
  ∀ j, (j <= u)%nat → (j < length pInds)%nat →
       ∃ p row, pInds !! j = Some p ∧ Perms !! j = Some row
                ∧ fancy_index x p = Some row.

(** The permuted outputs are pairwise distinct. *)
Definition perms_distinct (P : perms_out) : Prop :=
  match P with
  | PermsVec rows => NoDup rows
  | PermsMat slices => NoDup slices
  end.

(** Every permuted output rearranges the elements (rows) of [X]. *)
Definition perms_rearrange (X : ndarray) (P : perms_out) : Prop :=
  match X, P with
  | Vec v, PermsVec rows => Forall (fun row => row ≡ₚ v) rows
  | Mat m, PermsMat slices => Forall (fun slice => slice ≡ₚ m) slices
  | _, _ => False
  end.

(** The elements (rows) of [X] are pairwise distinct. *)
Definition elements_distinct (X : ndarray) : Prop :=
  match X with
  | Vec v => NoDup v
  | Mat rows => NoDup rows
  end.

(** [np.random.randint(lo, hi)] draws from [[lo, hi)]. *)
Definition randint_in_range `{RT : Runtime} : Prop :=
  ∀ lo hi g, lo < hi → lo <= (randint lo hi g).1 < hi.

(** The rows one event train leaves in the onset table. *)
Definition train_rows (sequence : list Z) (span : nat)
    (lag jitter n_steps : Z) (idx start : Z) (rows : list event) : Prop :=
  map ev_step rows = arange 0 (n_steps + 1)
  ∧ Forall (fun e => ev_idx e = idx ∧ ev_span e = Z.of_nat span) rows
  ∧ (∀ e, head rows = Some e → ev_pos e = start ∧ ev_jitter e = 0)
  ∧ (∀ i e e', rows !! i = Some e → rows !! S i = Some e' →
       ev_pos e' = ev_pos e + lag + ev_jitter e')
  ∧ (∃ seq_i : nat,
       Z.of_nat seq_i < Z.of_nat (length sequence) - n_steps
       ∧ ∀ i e, rows !! i = Some e →
           sequence !! (seq_i + i)%nat = Some (ev_class_idx e))
  ∧ (rows ≠ [] → 0 <= jitter)
  ∧ (jitter = 0 → Forall (fun e => ev_jitter e = 0) rows).

(** Row [r] lies in the window [[pos : pos + span]] of the row [e] of the
    onset table, for an array of [len] rows. *)
Definition touched (len : Z) (e : event) (r : nat) : Prop :=
  ((py_slice len (ev_pos e) (ev_pos e + ev_span e)).1 <= r
   < (py_slice len (ev_pos e) (ev_pos e + ev_span e)).2)%nat.

(** Two calls agree on everything but the samples of the returned array:
    the same exception, or the same onset table and generator state. *)
Definition same_onsets `{RT : Runtime}
    (o1 o2 : outcome (nat * option (list event) * state)) : Prop :=
  match o1, o2 with
  | Ok (_, onsets1, σ1), Ok (_, onsets2, σ2) =>
      onsets1 = onsets2 ∧ gen σ1 = gen σ2
  | Raise e1, Raise e2 => e1 = e2
  | Diverge, Diverge => True
  | _, _ => False
  end.

(** Two runs of the injection loops on arrays of one shape. *)
Definition same_events `{RT : Runtime} (s1 s2 : nat)
    (o1 o2 : outcome (list event * state)) : Prop :=
  match o1, o2 with
  | Ok (ev1, σ1), Ok (ev2, σ2) =>
      ev1 = ev2 ∧ gen σ1 = gen σ2
      ∧ ∃ c1 c2, heap σ1 !! s1 = Some c1 ∧ heap σ2 !! s2 = Some c2
                 ∧ same_shape c1 c2
  | Raise e1, Raise e2 => e1 = e2
  | Diverge, Diverge => True
  | _, _ => False
  end.

(** Two plans that differ in the array they hold at most. *)
Definition same_plan `{RT : Runtime} (a1 a2 : array2)
    (o1 o2 : outcome (plan * rng)) : Prop :=
  match o1, o2 with
  | Ok (pl1, g1), Ok (pl2, g2) =>
      plan_data pl1 = a1 ∧ plan_data pl2 = a2
      ∧ plan_class_mean pl1 = plan_class_mean pl2
      ∧ plan_span pl1 = plan_span pl2
      ∧ replay_start_idxs pl1 = replay_start_idxs pl2
      ∧ g1 = g2
  | Raise e1, Raise e2 => e1 = e2
  | Diverge, Diverge => True
  | _, _ => False
  end.

(** [c] follows [a], [b] in [seq]. *)
Definition triple (seq : list Z) (a b c : Z) : Prop :=
  ∃ i : nat, seq !! i = Some a ∧ seq !! S i = Some b
             ∧ seq !! S (S i) = Some c.

(** The same, with [a] at one of the first [k] positions. *)
Definition triple_upto (k : nat) (seq : list Z) (a b c : Z) : Prop :=
  ∃ i : nat, (i < k)%nat ∧ seq !! i = Some a ∧ seq !! S i = Some b
             ∧ seq !! S (S i) = Some c.

(** A matrix of [rows] rows and [cols] columns. *)
Definition rect (rows cols : nat) (TF : list (list Z)) : Prop :=
  length TF = rows ∧ Forall (fun row => length row = cols) TF.

(** The state of the table after the first [k] positions: row [a * n + b]
    holds 1 in column [c] exactly for the triples met so far. *)
Definition marks2 (n k : nat) (seq : list Z) (TF : list (list Z)) : Prop :=
  rect (n * n) n TF
  ∧ ∀ a b c, 0 <= a < Z.of_nat n → 0 <= b < Z.of_nat n →
      0 <= c < Z.of_nat n →
      (mcell TF (a * Z.of_nat n + b) c = Some 1 ∧ triple_upto k seq a b c)
      ∨ (mcell TF (a * Z.of_nat n + b) c = Some 0
         ∧ ¬ triple_upto k seq a b c).

(** The letters of the states [0 .. n-1]. *)
Definition state_letters (n : Z) : list (list Z) :=
  map (fun x => [x + 65]) (arange 0 n).

(** ** More concrete inputs *)

(** The matrix of the cycle [A -> B -> C -> A]. *)
Definition cycle3 : list (list Q) :=
  [[0; 1; 0]; [0; 0; 1]; [1; 0; 0]]%Q.

(** What the sampler returns for [X112] under [draws112]. *)
Definition out112 : list (list Z) * perms_out :=
  ([[0; 1; 2]; [2; 1; 0]; [0; 2; 1]],
   PermsVec [[1; 1; 2]; [2; 1; 1]; [1; 2; 1]]).

(** The index rows for [X112] and [k = 2]. *)
Definition pInds112 : list (list Z) := [[0; 1; 2]; [2; 1; 0]].

(** Three distinct values. *)
Definition X012 : ndarray := Vec [0; 1; 2].

(** A scripted runtime whose uniform samples are forced into [[0, 1)]. *)
Definition unit_sample (s : script) : Q * script :=
  let '(u, s') := scripted_sample s in
  (if Qle_bool 0 u && Qlt_bool u 1 then u else 0%Q, s').

(** [scripted], with these samples. *)
Definition scripted_unit (digest : string) (s : script) : Runtime := {|
  rng := script;
  mt19937_seed := fun _ => s;
  random_sample := unit_sample;
  randint := scripted_randint;
  permutation := scripted_permutation;
  sha1_hexdigest := fun _ => digest;
  set_iter := fun labels => foldr (unique_insert (A := Z)) [] labels;
|}.

(** The runtime of [data6] again, with samples known to lie in [[0, 1)]. *)
Definition rt6u : Runtime :=
  scripted_unit "6c5544797a91115dc3330ebd003851d239a706ff" draws6.

Definition state6u : state (RT := rt6u) :=
  Build_state rt6u {[ 0%nat := data6 ]} (perm_script []).

(** The same integer parts as [data6], other samples. *)
Definition data6h : array2 :=
  {| a2_rows := [[3 # 2]; [1 # 4]; [- 1 # 2]; [0]; [9 # 10]; [- 9 # 10]]%Q;
     a2_cols := 1 |}.

(** [data6h] at address 3 of another store. *)
Definition state6h : state (RT := rt6) :=
  Build_state rt6 {[ 0%nat := zeros 2 2; 3%nat := data6h ]}
    {| uniforms := [1 # 3]; ints := [5]; perms := [] |}.

(** [np.zeros((6, 1))]: the SHA-1 of its [int64] buffer starts with
    [c17fd926], which gives the text [9917102100926]. *)
Definition rt0 : Runtime :=
  scripted "c17fd92682ca5b304ac71074b558dda9e8eb4d66" (perm_script []).

(** The array of zeros at address 0. *)
Definition state0 : state (RT := rt0) :=
  Build_state rt0 {[ 0%nat := zeros 6 1 ]} (perm_script []).

(** * Properties *)

(** ** Outcomes *)

Lemma obind_Ok {A B : Type} (m : outcome A) (k : A → outcome B) (b : B) :
  obind m k = Ok b → ∃ a, m = Ok a ∧ k a = Ok b.
Proof. destruct m as [a| |]; simpl; [eauto|discriminate..]. Qed.

Lemma from_option_Ok {A : Type} (e : exn) (o : option A) (a : A) :
  from_option e o = Ok a → o = Some a.
Proof. destruct o; simpl; congruence. Qed.

Lemma py_assert_Ok (b : bool) (u : unit) : py_assert b = Ok u → b = true.
Proof. destruct b; simpl; [done|discriminate]. Qed.

(** Break an equation [... = Ok _] along the binds it went through. *)
Ltac ok_inv H :=
  repeat match type of H with
  | obind _ _ = Ok _ =>
      let a := fresh "a" in
      let Ha := fresh "Ha" in
      apply obind_Ok in H as (a & Ha & H)
  | (let '(_, _) := ?p in _) = Ok _ =>
      let E := fresh "E" in destruct p eqn:E
  | (if ?b then _ else _) = Ok _ =>
      let E := fresh "E" in
      destruct b eqn:E; [try discriminate H|try discriminate H]
  end.

(** ** The permutation sampler *)

Lemma arange_length (lo hi : Z) : length (arange lo hi) = Z.to_nat (hi - lo).
Proof. unfold arange. by rewrite length_map, length_seq. Qed.

Section UpermsFacts.
Context `{RT : Runtime} {A : Type} `{OA : Ord A}.

Lemma row_in_spec (row : list Z) (Perms : list (list Z)) :
  row_in row Perms = true ↔ row ∈ Perms.
Proof.
  unfold row_in. rewrite existsb_exists. split.
  - intros (r & Hr & Heq). apply bool_decide_eq_true in Heq as ->.
    by apply list_elem_of_In.
  - intros Hin. exists row. split; [by apply list_elem_of_In|].
    by apply bool_decide_eq_true.
Qed.

(** The loop keeps the size of both matrices and never touches row 0. *)
Lemma sample_loop_frame fuel n x k u pInds Perms g pInds' Perms' g' :
  sample_loop fuel n x k u pInds Perms g = Ok (pInds', Perms', g') →
  length pInds' = length pInds ∧ length Perms' = length Perms ∧
  pInds' !! 0%nat = pInds !! 0%nat ∧ Perms' !! 0%nat = Perms !! 0%nat.
Proof.
  revert u pInds Perms g.
  induction fuel as [|fuel IH]; intros u pInds Perms g; simpl.
  - destruct (Z.of_nat u <? k - 1); [discriminate|].
    intros [= -> -> ->]. done.
  - destruct (Z.of_nat u <? k - 1); [|intros [= -> -> ->]; done].
    destruct (permutation n g) as [pInd g1]. intros H.
    apply obind_Ok in H as (row & _ & H).
    destruct (row_in row Perms).
    + by apply IH in H.
    + apply IH in H as (H1 & H2 & H3 & H4).
      rewrite !length_insert in *.
      rewrite list_lookup_insert_ne in H3, H4 by done. done.
Qed.

(** Rows [0 .. u] are the accepted ones; they stay pairwise distinct, and
    at the exit they are the whole matrix. *)
Lemma sample_loop_NoDup fuel n x k u pInds Perms g pInds' Perms' g' :
  sample_loop fuel n x k u pInds Perms g = Ok (pInds', Perms', g') →
  Z.of_nat u <= k - 1 →
  length Perms = Z.to_nat k →
  NoDup (take (S u) Perms) →
  NoDup Perms'.
Proof.
  revert u pInds Perms g.
  assert (Hexit : ∀ u (Perms : list (list Z)),
    (Z.of_nat u <? k - 1) = false → Z.of_nat u <= k - 1 →
    length Perms = Z.to_nat k → NoDup (take (S u) Perms) → NoDup Perms).
  { intros u Perms Hlt Hle Hlen Hnd. apply Z.ltb_ge in Hlt.
    rewrite take_ge in Hnd by lia. done. }
  induction fuel as [|fuel IH]; intros u pInds Perms g; simpl.
  - destruct (Z.of_nat u <? k - 1) eqn:Hlt; [discriminate|].
    intros [= -> -> ->]. by apply Hexit.
  - destruct (Z.of_nat u <? k - 1) eqn:Hlt;
      [|intros [= -> -> ->]; by apply Hexit].
    apply Z.ltb_lt in Hlt.
    destruct (permutation n g) as [pInd g1]. intros H Hle Hlen Hnd.
    apply obind_Ok in H as (row & _ & H).
    destruct (row_in row Perms) eqn:Hin.
    + by apply IH in H.
    + apply IH in H; [done|lia|by rewrite length_insert|].
      assert (Hnot : row ∉ Perms).
      { intros Hel. apply row_in_spec in Hel. congruence. }
      assert (Hu : (S u < length Perms)%nat) by lia.
      rewrite (take_S_r _ _ row) by (by apply list_lookup_insert_eq).
      rewrite take_insert_ge by lia.
      apply NoDup_app. split; [done|]. split; [|apply NoDup_singleton].
      intros r Hr Hr'. apply list_elem_of_singleton in Hr' as ->.
      apply Hnot. apply elem_of_take in Hr as (i & Hi & _).
      by eapply list_elem_of_lookup_2.
Qed.

Lemma materialise_frame (X : list A) pInds js out out' :
  materialise X pInds js out = Ok out' →
  Forall (fun j => j ≠ 0%nat) js →
  length out' = length out ∧ out' !! 0%nat = out !! 0%nat.
Proof.
  revert out. induction js as [|j js IH]; intros out; simpl.
  - intros [= ->]. done.
  - intros H Hjs. apply Forall_cons in Hjs as [Hj Hjs].
    ok_inv H. apply IH in H as [H1 H2]; [|done].
    rewrite length_insert in H1.
    rewrite list_lookup_insert_ne in H2 by done. done.
Qed.

(** What a returning call of the sampler has fixed. *)
Lemma uperms_trace_Ok (X : list A) k fuel g r g' :
  uperms_trace X k fuel g = Ok (r, g') →
  let kk := match k with
            | None => run_nPerms r
            | Some k => if k >? run_nPerms r then run_nPerms r else k
            end in
  0 < kk ∧
  length (run_pInds r) = Z.to_nat kk ∧
  length (run_Perms r) = Z.to_nat kk ∧
  run_pInds r !! 0%nat = Some (arange 0 (Z.of_nat (length X))) ∧
  run_Perms r !! 0%nat = Some X ∧
  NoDup (run_codes r).
Proof.
  unfold uperms_trace. intros H.
  apply obind_Ok in H as (_ & _ & H).
  destruct (np_unique X) as [uniques c].
  apply obind_Ok in H as (x & _ & H).
  apply obind_Ok in H as (nPerms & _ & H).
  set (kk := match k with
             | None => nPerms
             | Some k => if k >? nPerms then nPerms else k
             end) in *.
  destruct (kk <? 0) eqn:Hneg; [discriminate|].
  destruct (kk =? 0) eqn:Hzero; [discriminate|].
  apply Z.ltb_ge in Hneg. apply Z.eqb_neq in Hzero.
  apply obind_Ok in H as ([[pInds codes] g1] & Hloop & H).
  apply obind_Ok in H as (out & Hmat & H).
  injection H as <- <-. simpl.
  pose proof (sample_loop_frame _ _ _ _ _ _ _ _ _ _ _ Hloop)
    as (Hl1 & Hl2 & Hp0 & Hc0).
  rewrite length_insert, length_replicate in Hl1, Hl2.
  apply materialise_frame in Hmat as [Hm1 Hm2].
  2:{ apply Forall_forall. intros j Hj. apply elem_of_seq in Hj. lia. }
  rewrite length_replicate in Hm1.
  split; [lia|]. split; [done|]. split; [done|]. split; [|split].
  - rewrite Hp0. apply list_lookup_insert_eq.
    rewrite length_replicate. lia.
  - rewrite Hm2. apply lookup_replicate_2. lia.
  - eapply sample_loop_NoDup; [exact Hloop|lia| |].
    + by rewrite length_insert, length_replicate.
    + destruct (Z.to_nat kk) as [|m] eqn:Hk; [lia|]. simpl.
      rewrite take_0. apply NoDup_singleton.
Qed.

End UpermsFacts.

(** C3. Whenever [unique_permutations] returns, the coded rows it accepted
    (row 0 is the coding of [X] itself) are pairwise distinct, also when
    [X] repeats values. *)
Theorem unique_permutations_codes_distinct `{RT : Runtime} (X : ndarray)
    (k : option Z) (fuel : nat) (g : rng) (codes : list (list Z)) :
  unique_permutations_codes X k fuel g = Ok codes → NoDup codes.
Proof.
  intros H. destruct X as [v|rows]; simpl in H;
    apply obind_Ok in H as ([r g'] & Hrun & [= <-]);
    by apply uperms_trace_Ok in Hrun as (_ & _ & _ & _ & _ & Hnd).
Qed.

Lemma unique_permutations_codes_distinct_witness :
  unique_permutations_codes (RT := sampler_rt) X112 None 10 draws112
    = Ok [[0; 0; 1]; [1; 0; 0]; [0; 1; 0]]
  ∧ NoDup [[0; 0; 1]; [1; 0; 0]; [0; 1; 0]].
Proof.
  split; [vm_compute; reflexivity|].
  apply (unique_permutations_codes_distinct (RT := sampler_rt)
           X112 None 10 draws112).
  vm_compute; reflexivity.
Defined.

(** C5. Whenever [unique_permutations] returns, row 0 of the index matrix
    is the identity [0, 1, ..., n-1] and row 0 of the permuted output (the
    slice [[:, :, 0]] for a matrix) is [X] itself. *)
Theorem unique_permutations_row0 `{RT : Runtime} (X : ndarray) (k : option Z)
    (fuel : nat) (g : rng) (nPerms : Z) (pInds : list (list Z))
    (Perms : perms_out) (g' : rng) :
  unique_permutations X k fuel g = Ok (nPerms, pInds, Perms, g') →
  pInds !! 0%nat = Some (arange 0 (Z.of_nat (ndarray_len X)))
  ∧ perms_row0 Perms = Some X.
Proof.
  intros H. destruct X as [v|rows]; simpl in H;
    apply obind_Ok in H as ([r g1] & Hrun & [= <- <- <- <-]);
    apply uperms_trace_Ok in Hrun as (_ & _ & _ & Hp & Hx & _);
    simpl; by rewrite Hp, Hx.
Qed.

Lemma unique_permutations_row0_witness :
  unique_permutations (RT := sampler_rt) Xmat (Some 2) 10 draws112
    = Ok (3, [[0; 1; 2]; [1; 0; 2]],
          PermsMat [[[1; 0]; [0; 1]; [1; 0]]; [[0; 1]; [1; 0]; [1; 0]]],
          perm_script [[2; 1; 0]; [0; 2; 1]; [1; 2; 0]])
  ∧ [[0; 1; 2]; [1; 0; 2]] !! 0%nat = Some (arange 0 3)
  ∧ perms_row0 (PermsMat [[[1; 0]; [0; 1]; [1; 0]]; [[0; 1]; [1; 0]; [1; 0]]])
    = Some Xmat.
Proof.
  split; [vm_compute; reflexivity|].
  apply (unique_permutations_row0 (RT := sampler_rt) Xmat (Some 2) 10 draws112
           3 _ _ (perm_script [[2; 1; 0]; [0; 2; 1]; [1; 2; 0]])).
  vm_compute; reflexivity.
Defined.

(** C6. When [k] is omitted or exceeds [nPerms], a returning call yields
    exactly [nPerms] index rows and [nPerms] permuted outputs. *)
Theorem unique_permutations_all_rows `{RT : Runtime} (X : ndarray)
    (k : option Z) (fuel : nat) (g : rng) (nPerms : Z)
    (pInds : list (list Z)) (Perms : perms_out) (g' : rng) :
  unique_permutations X k fuel g = Ok (nPerms, pInds, Perms, g') →
  (k = None ∨ ∃ k', k = Some k' ∧ nPerms < k') →
  Z.of_nat (length pInds) = nPerms ∧ Z.of_nat (perms_count Perms) = nPerms.
Proof.
  intros H Hk.
  assert (Hkk : match k with
                | None => nPerms
                | Some k => if k >? nPerms then nPerms else k
                end = nPerms).
  { destruct Hk as [->|(k' & -> & Hlt)]; [done|].
    destruct (Z.gtb_spec k' nPerms); [done|lia]. }
  destruct X as [v|rows]; simpl in H;
    apply obind_Ok in H as ([r g1] & Hrun & [= <- <- <- <-]);
    apply uperms_trace_Ok in Hrun as (Hpos & Hl1 & Hl2 & _);
    simpl in *; rewrite Hkk in *; lia.
Qed.

Lemma unique_permutations_all_rows_witness :
  unique_permutations (RT := sampler_rt) X112 (Some 7) 10 draws112
    = Ok (3, [[0; 1; 2]; [2; 1; 0]; [0; 2; 1]],
          PermsVec [[1; 1; 2]; [2; 1; 1]; [1; 2; 1]],
          perm_script [[1; 2; 0]])
  ∧ (Some 7 = None ∨ ∃ k', Some 7 = Some k' ∧ 3 < k')
  ∧ Z.of_nat (length [[0; 1; 2]; [2; 1; 0]; [0; 2; 1]]) = 3
  ∧ Z.of_nat (perms_count (PermsVec [[1; 1; 2]; [2; 1; 1]; [1; 2; 1]])) = 3.
Proof.
  assert (Hk : Some 7 = None ∨ ∃ k', Some 7 = Some k' ∧ 3 < k').
  { right. exists 7. split; [reflexivity|lia]. }
  split; [vm_compute; reflexivity|]. split; [exact Hk|].
  apply (unique_permutations_all_rows (RT := sampler_rt) X112 (Some 7) 10
           draws112 3 _ _ (perm_script [[1; 2; 0]])); [|exact Hk].
  vm_compute; reflexivity.
Defined.

(** C9. The three stubs raise [NotImplementedError] whatever they are
    given; none of them returns a value. *)
Theorem stubs_not_implemented :
  (∀ TF, tf2seq TF = Raise NotImplementedError)
  ∧ (∀ n_samples alpha_freq alpha_strength noise n_channels,
       simulate_eeg_resting_state n_samples alpha_freq alpha_strength noise
         n_channels = Raise NotImplementedError)
  ∧ (∀ n_samples n_classes noise n_channels,
       simulate_eeg_localizer n_samples n_classes noise n_channels
       = Raise NotImplementedError).
Proof. repeat split. Qed.

(** ** The count [nPerms] *)

Lemma lex_compare_eq (r s : list Z) : lex_compare r s = Eq ↔ r = s.
Proof.
  revert s; induction r as [|a r IH]; intros [|b s]; simpl; try done.
  destruct (Z.compare_spec a b) as [->| |].
  - rewrite IH. split; congruence.
  - split; [discriminate|intros [=]; lia].
  - split; [discriminate|intros [=]; lia].
Qed.

#[export] Instance OrdSpec_Z : OrdSpec Z.
Proof. intros a b. apply Z.compare_eq_iff. Qed.

#[export] Instance OrdSpec_row : OrdSpec (list Z).
Proof. intros a b. apply lex_compare_eq. Qed.

Lemma sorted_replicate (n : nat) (v : Z) :
  sorted (replicate n v) = replicate n v.
Proof.
  induction n as [|n IH]; [done|].
  unfold sorted in *. simpl. rewrite IH.
  destruct n as [|n]; simpl; [done|]. by rewrite Z.leb_refl.
Qed.

(** Up to 20 distinct elements the product [2 * 3 * ... * n] fits. *)
Lemma n_perms_ones (n : nat) :
  (1 <= n <= 20)%nat →
  n_perms (replicate n 1) = Ok (factorial (Z.of_nat n)).
Proof.
  intros Hn.
  do 21 (destruct n as [|n]; [first [lia | vm_compute; reflexivity]|]).
  lia.
Qed.

Lemma n_perms_single (n : Z) : n_perms [n] = Ok 1.
Proof.
  unfold n_perms. simpl. unfold arange.
  replace (n + 0 + 1 - (n + 1)) with 0 by lia. reflexivity.
Qed.

Section CountFacts.
Context `{RT : Runtime} {A : Type} `{OA : Ord A} `{OS : !OrdSpec A}.

Lemma eqb_ord_true (a b : A) : eqb_ord a b = true ↔ a = b.
Proof.
  unfold eqb_ord. rewrite <- cmp_eq.
  destruct (cmp a b); split; congruence.
Qed.

Lemma elem_of_unique_insert (a b : A) (us : list A) :
  b ∈ unique_insert a us ↔ b = a ∨ b ∈ us.
Proof.
  induction us as [|u us IH]; simpl.
  - rewrite list_elem_of_singleton, elem_of_nil. tauto.
  - destruct (cmp a u) eqn:E.
    + apply cmp_eq in E as ->. rewrite elem_of_cons. tauto.
    + rewrite !elem_of_cons. tauto.
    + rewrite !elem_of_cons, IH. tauto.
Qed.

Lemma length_unique_insert (a : A) (us : list A) :
  a ∉ us → length (unique_insert a us) = S (length us).
Proof.
  induction us as [|u us IH]; simpl; [done|]. intros Hn.
  apply not_elem_of_cons in Hn as [Hne Hn].
  destruct (cmp a u) eqn:E; simpl.
  - by apply cmp_eq in E.
  - done.
  - by rewrite IH.
Qed.

Lemma elem_of_uniques (b : A) (X : list A) :
  b ∈ foldr unique_insert [] X ↔ b ∈ X.
Proof.
  induction X as [|a X IH]; simpl; [done|].
  by rewrite elem_of_unique_insert, IH, elem_of_cons.
Qed.

Lemma length_uniques (X : list A) :
  NoDup X → length (foldr unique_insert [] X) = length X.
Proof.
  induction 1 as [|a X Hn _ IH]; simpl; [done|].
  rewrite length_unique_insert, IH; [done|]. by rewrite elem_of_uniques.
Qed.

Lemma count_absent (u : A) (X : list A) :
  u ∉ X → List.filter (eqb_ord u) X = [].
Proof.
  induction X as [|a X IH]; simpl; [done|]. intros Hn.
  apply not_elem_of_cons in Hn as [Hne Hn].
  destruct (eqb_ord u a) eqn:E.
  - by apply eqb_ord_true in E.
  - by apply IH.
Qed.

Lemma count_NoDup (u : A) (X : list A) :
  NoDup X → u ∈ X → length (List.filter (eqb_ord u) X) = 1%nat.
Proof.
  induction 1 as [|a X Hn Hnd IH]; simpl; [by intros ?%elem_of_nil|].
  intros Hin.
  destruct (eqb_ord u a) eqn:E.
  - apply eqb_ord_true in E as ->. simpl. by rewrite count_absent.
  - apply IH. apply elem_of_cons in Hin as [->|Hin]; [|done].
    assert (eqb_ord a a = true) by by apply eqb_ord_true. congruence.
Qed.

(** Distinct elements: every multiplicity is 1. *)
Lemma np_unique_NoDup (X : list A) :
  NoDup X → (np_unique X).2 = replicate (length X) 1.
Proof.
  intros Hnd. unfold np_unique. simpl.
  rewrite <- (length_uniques X Hnd).
  assert (Hsub : ∀ u, u ∈ foldr unique_insert [] X → u ∈ X)
    by (intros u; apply elem_of_uniques).
  induction (foldr unique_insert [] X) as [|u us IH]; simpl; [done|].
  rewrite count_NoDup by (done || apply Hsub, list_elem_of_here).
  f_equal. apply IH. intros v Hv. by apply Hsub, list_elem_of_further.
Qed.

(** One value repeated: a single multiplicity, the length. *)
Lemma np_unique_replicate (n : nat) (a : A) :
  (0 < n)%nat → (np_unique (replicate n a)).2 = [Z.of_nat n].
Proof.
  intros Hn. unfold np_unique. simpl.
  assert (Hu : foldr unique_insert [] (replicate n a) = [a]).
  { destruct n as [|n]; [lia|]. clear Hn.
    induction n as [|n IH]; simpl in *; [done|]. rewrite IH. simpl.
    assert (cmp a a = Eq) as -> by by apply cmp_eq. done. }
  rewrite Hu. simpl. do 2 f_equal.
  clear Hn Hu. induction n as [|n IH]; simpl; [done|].
  assert (eqb_ord a a = true) as -> by by apply eqb_ord_true.
  simpl. by rewrite IH.
Qed.

Lemma uperms_trace_nPerms (X : list A) k fuel g r g' :
  uperms_trace X k fuel g = Ok (r, g') →
  (1 < length X)%nat ∧ n_perms (sorted (np_unique X).2) = Ok (run_nPerms r).
Proof.
  unfold uperms_trace. intros H.
  apply obind_Ok in H as ([] & Hlen & H).
  apply py_assert_Ok, Z.ltb_lt in Hlen.
  destruct (np_unique X) as [uniques c]. simpl.
  apply obind_Ok in H as (x & _ & H).
  apply obind_Ok in H as (nPerms & HnP & H).
  destruct (_ <? 0); [discriminate|]. destruct (_ =? 0); [discriminate|].
  apply obind_Ok in H as ([[pInds codes] g1] & _ & H).
  apply obind_Ok in H as (out & _ & H).
  injection H as <- <-. simpl. split; [lia|done].
Qed.

(** With at most 20 pairwise distinct elements, [nPerms] is [n!]. *)
Lemma nPerms_distinct_small (X : list A) k fuel g r g' :
  uperms_trace X k fuel g = Ok (r, g') →
  NoDup X → (length X <= 20)%nat →
  run_nPerms r = factorial (Z.of_nat (length X)).
Proof.
  intros H Hnd Hle. apply uperms_trace_nPerms in H as [Hlen H].
  rewrite np_unique_NoDup, sorted_replicate, n_perms_ones in H by (done || lia).
  congruence.
Qed.

(** With one value repeated, [nPerms] is 1, whatever the length. *)
Lemma nPerms_identical (n : nat) (a : A) k fuel g r g' :
  uperms_trace (replicate n a) k fuel g = Ok (r, g') →
  run_nPerms r = 1.
Proof.
  intros H. apply uperms_trace_nPerms in H as [Hlen H].
  rewrite length_replicate in Hlen.
  rewrite np_unique_replicate in H by lia.
  unfold sorted in H. simpl in H. rewrite n_perms_single in H. congruence.
Qed.

End CountFacts.

(** C4. With 25 distinct elements the call returns, and the count it
    returns is [25! mod 2^64], not [25!]: the [int64] product of line 107
    has wrapped around. *)
Theorem unique_permutations_nPerms_overflow :
  NoDup (arange 0 25)
  ∧ (∃ pInds Perms g',
       unique_permutations (RT := sampler_rt) X25 (Some 2) 1 draws25
       = Ok (7034535277573963776, pInds, Perms, g'))
  ∧ factorial 25 = 15511210043330985984000000
  ∧ 7034535277573963776 ≠ factorial 25.
Proof.
  split; [|split; [|split]].
  - apply (bool_decide_unpack _). vm_compute. reflexivity.
  - do 3 eexists. vm_compute. reflexivity.
  - vm_compute. reflexivity.
  - vm_compute. discriminate.
Qed.

(** ** The injector: what a run writes and records *)

Lemma same_shape_refl (a : array2) : same_shape a a.
Proof. by split. Qed.

Lemma same_shape_trans (a b c : array2) :
  same_shape a b → same_shape b c → same_shape a c.
Proof. intros [H1 H2] [H3 H4]. split; congruence. Qed.

Lemma map_length_imap {B : Type} (f : nat → list B → list B)
    (l : list (list B)) :
  (∀ j row, length (f j row) = length row) →
  map length (imap f l) = map length l.
Proof.
  revert f. induction l as [|row l IH]; intros f Hf; simpl; [done|].
  rewrite Hf. f_equal. apply IH. intros j r. apply Hf.
Qed.

(** The in-place addition changes cells, never the shape. *)
Lemma add_template_shape (a a' : array2) pos span tpl :
  add_template a pos span tpl = Ok a' → same_shape a' a.
Proof.
  unfold add_template. destruct (py_slice _ _ _) as [lo hi].
  destruct (_ || _); [|discriminate]. intros [= <-].
  split; simpl; [done|].
  apply map_length_imap. intros j row.
  destruct (_ && _); [|done]. apply length_imap.
Qed.

Lemma arange_lookup (lo hi : Z) (i : nat) (v : Z) :
  arange lo hi !! i = Some v → v = lo + Z.of_nat i.
Proof.
  unfold arange. rewrite list_lookup_fmap. intros H.
  destruct (seq 0 _ !! i) as [j|] eqn:Hj; [|discriminate].
  apply lookup_seq in Hj as [-> _]. simpl in H. congruence.
Qed.

Section InjectorFacts.
Context `{RT : Runtime}.

(** One train writes to [data_sim] only, keeps its shape, and appends one
    row per step; the first row carries the incoming position and jitter. *)
Lemma inject_steps_Ok steps data_sim idx sequence class_mean span lag jitter
    pos seq_i smp_jitter events σ events' σ' :
  inject_steps steps data_sim idx sequence class_mean span lag jitter
    pos seq_i smp_jitter events σ = Ok (events', σ') →
  (∀ l, l ≠ data_sim → heap σ' !! l = heap σ !! l)
  ∧ (∀ a, heap σ !! data_sim = Some a →
          ∃ a', heap σ' !! data_sim = Some a' ∧ same_shape a' a)
  ∧ ∃ new, events' = events ++ new
           ∧ map ev_step new = steps
           ∧ Forall (fun e => ev_idx e = idx) new
           ∧ (∀ e, head new = Some e →
                   ev_pos e = pos ∧ ev_jitter e = smp_jitter).
Proof.
  revert pos seq_i smp_jitter events σ.
  induction steps as [|step steps IH];
    intros pos seq_i smp_jitter events σ H; simpl in H.
  - injection H as <- <-. split; [done|]. split.
    + intros a Ha. exists a. split; [done|apply same_shape_refl].
    + exists []. rewrite app_nil_r. split; [done|]. split; [done|].
      split; [by apply Forall_nil|]. intros e [=].
  - apply obind_Ok in H as (j & _ & H).
    apply obind_Ok in H as (class_idx & _ & H).
    apply obind_Ok in H as (c & _ & H).
    apply obind_Ok in H as (tpl & _ & H).
    apply obind_Ok in H as (a0 & Ha0 & H). apply from_option_Ok in Ha0.
    apply obind_Ok in H as (a1 & Ha1 & H). apply add_template_shape in Ha1.
    apply obind_Ok in H as ([j' g] & _ & H).
    apply IH in H as (Hfr & Hsh & new & -> & Hst & Hidx & Hhd).
    simpl in *. split; [|split].
    + intros l Hl. rewrite Hfr by done. by rewrite lookup_insert_ne.
    + intros a Ha. rewrite Ha0 in Ha. injection Ha as <-.
      destruct (Hsh a1) as (a' & Ha' & Hs'); [by rewrite lookup_insert_eq|].
      exists a'. split; [done|]. by eapply same_shape_trans.
    + eexists (_ :: new). rewrite <- app_assoc. simpl.
      split; [reflexivity|]. split; [by rewrite Hst|].
      split; [by constructor|]. by intros e [= <-].
Qed.

(** All trains together: the frame, the shape, and the rows of step 0. *)
Lemma inject_trains_Ok starts idx data_sim sequence class_mean span lag
    jitter n_steps events σ events' σ' :
  inject_trains starts idx data_sim sequence class_mean span lag jitter
    n_steps events σ = Ok (events', σ') →
  (∀ l, l ≠ data_sim → heap σ' !! l = heap σ !! l)
  ∧ (∀ a, heap σ !! data_sim = Some a →
          ∃ a', heap σ' !! data_sim = Some a' ∧ same_shape a' a)
  ∧ ∃ new, events' = events ++ new
           ∧ ∀ e, e ∈ new → ev_step e = 0 →
                  ev_jitter e = 0
                  ∧ ∃ i, ev_idx e = idx + Z.of_nat i
                         ∧ starts !! i = Some (ev_pos e).
Proof.
  revert idx events σ.
  induction starts as [|start_idx starts IH]; intros idx events σ H;
    simpl in H.
  - injection H as <- <-. split; [done|]. split.
    + intros a Ha. exists a. split; [done|apply same_shape_refl].
    + exists []. rewrite app_nil_r. split; [done|].
      by intros e ?%elem_of_nil.
  - destruct (_ <=? 0); [discriminate|].
    destruct (randint _ _ _) as [r g].
    apply obind_Ok in H as (j & _ & H).
    apply obind_Ok in H as ([ev1 σ1] & Hsteps & H).
    apply inject_steps_Ok in Hsteps
      as (Hfr1 & Hsh1 & new1 & -> & Hst1 & Hidx1 & Hhd1).
    apply IH in H as (Hfr2 & Hsh2 & new2 & -> & Hnew2).
    simpl in *. split; [|split].
    + intros l Hl. by rewrite Hfr2, Hfr1.
    + intros a Ha. destruct (Hsh1 a Ha) as (a1 & Ha1 & Hs1).
      destruct (Hsh2 a1 Ha1) as (a2 & Ha2 & Hs2).
      exists a2. split; [done|]. by eapply same_shape_trans.
    + exists (new1 ++ new2). rewrite app_assoc. split; [done|].
      intros e He Hzero. apply elem_of_app in He as [He|He].
      * apply list_elem_of_lookup_1 in He as (i & Hi).
        assert (Hs : arange 0 (n_steps + 1) !! i = Some 0).
        { rewrite <- Hst1, list_lookup_fmap, Hi. simpl. by rewrite Hzero. }
        apply arange_lookup in Hs.
        assert (i = 0%nat) as -> by lia.
        destruct (Hhd1 e) as [Hpos Hjit];
          [by destruct new1; simplify_eq|].
        split; [done|]. exists 0%nat.
        rewrite Forall_forall in Hidx1. rewrite Hidx1, Hpos.
        -- split; [lia|done].
        -- by eapply list_elem_of_lookup_2.
      * destruct (Hnew2 e He Hzero) as (Hjit & i & Hi & Hlk).
        split; [done|]. exists (S i). split; [lia|done].
Qed.

(** The runs of two injections that start from the same array and the
    same generator state stay in step. *)
Lemma inject_steps_view steps s1 s2 idx sequence class_mean span lag jitter
    pos seq_i smp_jitter events σ1 σ2 :
  view s1 σ1 = view s2 σ2 →
  view_outcome s1
    (inject_steps steps s1 idx sequence class_mean span lag jitter
       pos seq_i smp_jitter events σ1)
  = view_outcome s2
      (inject_steps steps s2 idx sequence class_mean span lag jitter
         pos seq_i smp_jitter events σ2).
Proof.
  revert pos seq_i smp_jitter events σ1 σ2.
  induction steps as [|step steps IH];
    intros pos seq_i smp_jitter events σ1 σ2 Hv; simpl.
  - by rewrite Hv.
  - injection Hv as Hh Hg.
    destruct (from_option _ (py_index _ seq_i)) as [j| |]; simpl; [|done..].
    destruct (from_option _ (sequence !! j)) as [class_idx| |];
      simpl; [|done..].
    destruct (from_option _ (py_index _ class_idx)) as [c| |];
      simpl; [|done..].
    destruct (from_option _ (class_mean !! c)) as [tpl| |]; simpl; [|done..].
    rewrite Hh.
    destruct (heap σ2 !! s2) as [a|]; simpl; [|done].
    destruct (add_template a pos span tpl) as [a'| |]; simpl; [|done..].
    rewrite Hg.
    destruct (jitter =? 0); simpl.
    + apply IH. unfold view. simpl. by rewrite !lookup_insert_eq.
    + destruct (- jitter <? jitter + 1); simpl; [|done].
      destruct (randint _ _ _) as [j' g]. simpl.
      apply IH. unfold view. simpl. by rewrite !lookup_insert_eq.
Qed.

Lemma inject_trains_view starts idx s1 s2 sequence class_mean span lag
    jitter n_steps events σ1 σ2 :
  view s1 σ1 = view s2 σ2 →
  view_outcome s1
    (inject_trains starts idx s1 sequence class_mean span lag jitter
       n_steps events σ1)
  = view_outcome s2
      (inject_trains starts idx s2 sequence class_mean span lag jitter
         n_steps events σ2).
Proof.
  revert idx events σ1 σ2.
  induction starts as [|start_idx starts IH]; intros idx events σ1 σ2 Hv;
    simpl.
  - by rewrite Hv.
  - injection Hv as Hh Hg. destruct (_ <=? 0); [done|]. rewrite Hg.
    destruct (randint _ _ _) as [r g].
    destruct (from_option _ (py_index _ r)) as [j| |]; simpl; [|done..].
    set (τ1 := {| heap := heap σ1; gen := g |}).
    set (τ2 := {| heap := heap σ2; gen := g |}).
    assert (Hτ : view s1 τ1 = view s2 τ2)
      by (unfold view; simpl; by rewrite Hh).
    pose proof (inject_steps_view (arange 0 (n_steps + 1)) s1 s2 idx
                  sequence class_mean span lag jitter start_idx
                  (Z.of_nat j) 0 events τ1 τ2 Hτ) as Hst.
    destruct (inject_steps _ s1 _ _ _ _ _ _ _ _ _ _ τ1) as [[ev1 ρ1]| |],
             (inject_steps _ s2 _ _ _ _ _ _ _ _ _ _ τ2) as [[ev2 ρ2]| |];
      simpl in *; try discriminate; try done.
    injection Hst as -> Hρ Hρg. apply IH. unfold view. by rewrite Hρ, Hρg.
Qed.

(** Up to the copy, the call depends on the content of [data] only. *)
Lemma insert_events_plan_content d1 d2 a insert_data insert_labels n_events
    lag n_steps dist σ1 σ2 :
  heap σ1 !! d1 = Some a → heap σ2 !! d2 = Some a →
  insert_events_plan d1 insert_data insert_labels n_events lag n_steps
    dist σ1
  = insert_events_plan d2 insert_data insert_labels n_events lag n_steps
      dist σ2.
Proof. intros H1 H2. unfold insert_events_plan. by rewrite H1, H2. Qed.

(** The plan of a successful call holds the content of [data]. *)
Lemma insert_events_plan_Ok data insert_data insert_labels n_events lag
    n_steps dist σ pl g :
  insert_events_plan data insert_data insert_labels n_events lag n_steps
    dist σ = Ok (pl, g) →
  heap σ !! data = Some (plan_data pl).
Proof.
  unfold insert_events_plan. intros H.
  apply obind_Ok in H as (d & Hd & H). apply from_option_Ok in Hd.
  apply obind_Ok in H as ([] & _ & H).
  apply obind_Ok in H as ([] & _ & H).
  apply obind_Ok in H as ([] & _ & H).
  apply obind_Ok in H as (seed & _ & H).
  apply obind_Ok in H as (g0 & _ & H).
  apply obind_Ok in H as (class_mean & _ & H).
  apply obind_Ok in H as (p & _ & H).
  apply obind_Ok in H as ([starts g1] & _ & H).
  by injection H as <- _.
Qed.

End InjectorFacts.

(** ** The injector: the claims *)

(** C8. A successful call returns a fresh array of the shape of [data], and
    leaves [data] (and every other array of the store) as it was. *)
Theorem insert_events_frame `{RT : Runtime} data insert_data insert_labels
    sequence n_events lag jitter n_steps dist return_onsets σ data_sim
    onsets σ' :
  insert_events data insert_data insert_labels sequence n_events lag jitter
    n_steps dist return_onsets σ = Ok (data_sim, onsets, σ') →
  ∃ d d', heap σ !! data = Some d
          ∧ heap σ' !! data = Some d
          ∧ data_sim ≠ data
          ∧ heap σ' !! data_sim = Some d'
          ∧ same_shape d' d
          ∧ ∀ l a, heap σ !! l = Some a → heap σ' !! l = Some a.
Proof.
  unfold insert_events. intros H.
  apply obind_Ok in H as ([pl g] & Hplan & H).
  apply obind_Ok in H as ([events σ1] & Htrains & H).
  injection H as <- _ <-.
  pose proof (insert_events_plan_Ok _ _ _ _ _ _ _ _ _ _ Hplan) as Hd.
  set (sim := fresh (dom (heap σ))) in *.
  assert (Hfresh : heap σ !! sim = None).
  { apply not_elem_of_dom. apply is_fresh. }
  assert (Hne : ∀ l a, heap σ !! l = Some a → l ≠ sim)
    by (intros l a Hl ->; congruence).
  apply inject_trains_Ok in Htrains as (Hfr & Hsh & _). simpl in *.
  destruct (Hsh (plan_data pl)) as (d' & Hd' & Hs);
    [by rewrite lookup_insert_eq|].
  assert (Hkeep : ∀ l a, heap σ !! l = Some a → heap σ1 !! l = Some a).
  { intros l a Hl. rewrite Hfr by by eapply Hne.
    rewrite lookup_insert_ne; [done|]. intros ->. by eapply Hne. }
  exists (plan_data pl), d'. split; [done|]. split; [by apply Hkeep|].
  split; [intros ->; by eapply Hne|]. done.
Qed.

Lemma insert_events_frame_witness :
  (∃ σ', insert_events (RT := rt6) 0 insert6 [0; 1] [0; 1] 2 1 0 1
           (DistStr "constant") false state6 = Ok (1%nat, None, σ'))
  ∧ ∃ σ' d d',
      insert_events (RT := rt6) 0 insert6 [0; 1] [0; 1] 2 1 0 1
        (DistStr "constant") false state6 = Ok (1%nat, None, σ')
      ∧ heap state6 !! 0%nat = Some d
      ∧ heap σ' !! 0%nat = Some d
      ∧ 1%nat ≠ 0%nat
      ∧ heap σ' !! 1%nat = Some d'
      ∧ same_shape d' d
      ∧ ∀ l a, heap state6 !! l = Some a → heap σ' !! l = Some a.
Proof.
  assert (Hrun : ∃ σ', insert_events (RT := rt6) 0 insert6 [0; 1] [0; 1] 2 1
                         0 1 (DistStr "constant") false state6
                       = Ok (1%nat, None, σ')).
  { eexists. vm_compute. reflexivity. }
  split; [exact Hrun|]. destruct Hrun as [σ' Hrun]. exists σ'.
  destruct (insert_events_frame (RT := rt6) 0 insert6 [0; 1] [0; 1] 2 1 0 1
              (DistStr "constant") false state6 1%nat None σ' Hrun)
    as (d & d' & H).
  exists d, d'. split; [exact Hrun|exact H].
Defined.

(** C7. Two calls with the same arguments on arrays of identical content
    agree on everything they return, whatever the state of the generator
    and of the rest of the store at either call: the generator is reseeded
    from the content of [data]. *)
Theorem insert_events_deterministic `{RT : Runtime} d1 d2 a insert_data
    insert_labels sequence n_events lag jitter n_steps dist return_onsets
    (σ1 σ2 : state) :
  heap σ1 !! d1 = Some a → heap σ2 !! d2 = Some a →
  same_result
    (insert_events d1 insert_data insert_labels sequence n_events lag jitter
       n_steps dist return_onsets σ1)
    (insert_events d2 insert_data insert_labels sequence n_events lag jitter
       n_steps dist return_onsets σ2).
Proof.
  intros H1 H2. unfold insert_events.
  rewrite (insert_events_plan_content d1 d2 a _ _ _ _ _ _ σ1 σ2 H1 H2).
  destruct (insert_events_plan d2 _ _ _ _ _ _ σ2) as [[pl g]| |];
    simpl; [|done..].
  set (s1 := fresh (dom (heap σ1))). set (s2 := fresh (dom (heap σ2))).
  set (τ1 := {| heap := <[s1 := plan_data pl]> (heap σ1); gen := g |}).
  set (τ2 := {| heap := <[s2 := plan_data pl]> (heap σ2); gen := g |}).
  assert (Hτ : view s1 τ1 = view s2 τ2).
  { unfold view. simpl. by rewrite !lookup_insert_eq. }
  pose proof (inject_trains_view (replay_start_idxs pl) 0 s1 s2 sequence
                (plan_class_mean pl) (plan_span pl) lag jitter n_steps []
                τ1 τ2 Hτ) as Hv.
  destruct (inject_trains _ _ s1 _ _ _ _ _ _ _ τ1) as [[ev1 ρ1]| |] eqn:E1,
           (inject_trains _ _ s2 _ _ _ _ _ _ _ τ2) as [[ev2 ρ2]| |] eqn:E2;
    simpl in *; try discriminate; try done.
  - injection Hv as -> Hh Hg.
    apply inject_trains_Ok in E1 as (_ & Hsh & _).
    destruct (Hsh (plan_data pl)) as (a' & Ha' & _);
      [subst τ1; simpl; by rewrite lookup_insert_eq|].
    split; [done|]. split; [by rewrite Ha'|]. done.
  - by injection Hv.
Qed.

Lemma insert_events_deterministic_witness :
  heap state6 !! 0%nat = Some data6
  ∧ heap state6' !! 3%nat = Some data6
  ∧ same_result
      (insert_events (RT := rt6) 0 insert6 [0; 1] [0; 1] 2 1 0 1
         (DistStr "constant") true state6)
      (insert_events (RT := rt6) 3 insert6 [0; 1] [0; 1] 2 1 0 1
         (DistStr "constant") true state6').
Proof.
  assert (H1 : heap state6 !! 0%nat = Some data6) by (vm_compute; reflexivity).
  assert (H2 : heap state6' !! 3%nat = Some data6) by (vm_compute; reflexivity).
  split; [exact H1|]. split; [exact H2|].
  exact (insert_events_deterministic (RT := rt6) 0%nat 3%nat data6 insert6
           [0; 1] [0; 1] 2 1 0 1 (DistStr "constant") true state6 state6'
           H1 H2).
Defined.

(** C10. In the onset table of a successful call, every row of step 0 has
    jitter 0 and sits at the start offset scheduled for its train, whatever
    [jitter] is: a jitter sample is drawn only after a template is placed. *)
Theorem insert_events_step0_unjittered `{RT : Runtime} data insert_data
    insert_labels sequence n_events lag jitter n_steps dist σ data_sim
    onsets σ' :
  insert_events data insert_data insert_labels sequence n_events lag jitter
    n_steps dist true σ = Ok (data_sim, Some onsets, σ') →
  ∃ pl g,
    insert_events_plan data insert_data insert_labels n_events lag n_steps
      dist σ = Ok (pl, g)
    ∧ ∀ e, e ∈ onsets → ev_step e = 0 →
           ev_jitter e = 0
           ∧ 0 <= ev_idx e
           ∧ replay_start_idxs pl !! Z.to_nat (ev_idx e) = Some (ev_pos e).
Proof.
  unfold insert_events. intros H.
  apply obind_Ok in H as ([pl g] & Hplan & H).
  apply obind_Ok in H as ([events σ1] & Htrains & H).
  injection H as _ <- _. exists pl, g. split; [done|].
  apply inject_trains_Ok in Htrains as (_ & _ & new & Hnew & Hrows).
  simpl in Hnew. subst new. intros e He Hzero.
  destruct (Hrows e He Hzero) as (Hjit & i & Hi & Hlk).
  split; [done|]. split; [lia|].
  replace (Z.to_nat (ev_idx e)) with i by lia. done.
Qed.

Lemma insert_events_step0_unjittered_witness :
  (∃ onsets σ',
     insert_events (RT := rt6j) 0 insert6 [0; 1] [0; 1] 2 1 1 1
       (DistStr "constant") true state6j = Ok (1%nat, Some onsets, σ')
     ∧ map ev_jitter onsets = [0; 1; 0; -1])
  ∧ ∃ (onsets : list event) pl g,
      insert_events_plan (RT := rt6j) 0 insert6 [0; 1] 2 1 1
        (DistStr "constant") state6j = Ok (pl, g)
      ∧ ∀ e, e ∈ onsets → ev_step e = 0 →
             ev_jitter e = 0
             ∧ 0 <= ev_idx e
             ∧ replay_start_idxs pl !! Z.to_nat (ev_idx e) = Some (ev_pos e).
Proof.
  assert (Hrun : ∃ onsets σ',
     insert_events (RT := rt6j) 0 insert6 [0; 1] [0; 1] 2 1 1 1
       (DistStr "constant") true state6j = Ok (1%nat, Some onsets, σ')
     ∧ map ev_jitter onsets = [0; 1; 0; -1]).
  { do 2 eexists. split; vm_compute; reflexivity. }
  split; [exact Hrun|]. destruct Hrun as (onsets & σ' & Hrun & _).
  exists onsets.
  exact (insert_events_step0_unjittered (RT := rt6j) 0 insert6 [0; 1] [0; 1]
           2 1 1 1 (DistStr "constant") state6j 1%nat onsets σ' Hrun).
Defined.

(** ** The scheduler *)

Lemma Qdiv_le_iff (a b t : Q) : (0 < t)%Q → (a / t <= b)%Q ↔ (a <= b * t)%Q.
Proof.
  intros Ht. split; intros H.
  - assert (E : (a == a / t * t)%Q).
    { field. intros E. rewrite E in Ht. by apply Qlt_irrefl in Ht. }
    rewrite E. apply Qmult_le_compat_r; [done|by apply Qlt_le_weak].
  - by apply Qle_shift_div_r.
Qed.

Lemma cumsum_above (u total acc : Q) (q : list Q) :
  (0 < total)%Q → (u * total < acc)%Q → Forall (fun v => (0 <= v)%Q) q →
  List.filter (fun c => Qle_bool c u)
    (map (fun c => (c / total)%Q) (cumsum acc q)) = [].
Proof.
  intros Ht. revert acc.
  induction q as [|v q IH]; intros acc Hacc Hq; simpl; [done|].
  apply Forall_cons in Hq as [Hv Hq].
  assert (Hacc' : (u * total < acc + v)%Q).
  { eapply Qlt_le_trans; [exact Hacc|]. rewrite <- (Qplus_0_r acc) at 1.
    by apply Qplus_le_r. }
  destruct (Qle_bool ((acc + v) / total) u) eqn:E.
  - apply Qle_bool_iff, Qdiv_le_iff in E; [|done].
    exfalso. eapply Qlt_irrefl, Qlt_le_trans; [exact Hacc'|exact E].
  - by apply IH.
Qed.

Lemma cumsum_choice (u total acc : Q) (q : list Q) (v : Q) :
  (0 < total)%Q → (acc <= u * total)%Q → Forall (fun v => (0 <= v)%Q) q →
  q !! length (List.filter (fun c => Qle_bool c u)
                 (map (fun c => (c / total)%Q) (cumsum acc q))) = Some v →
  (0 < v)%Q.
Proof.
  intros Ht. revert acc.
  induction q as [|v0 q IH]; intros acc Hacc Hq; simpl; [done|].
  apply Forall_cons in Hq as [Hv Hq].
  destruct (Qle_bool ((acc + v0) / total) u) eqn:E; simpl.
  - apply Qle_bool_iff, Qdiv_le_iff in E; [|done]. by apply IH.
  - assert (Hlt : (u * total < acc + v0)%Q).
    { apply Qnot_le_lt. intros Hle.
      assert (Qle_bool ((acc + v0) / total) u = true); [|congruence].
      apply Qle_bool_iff, Qdiv_le_iff; done. }
    rewrite cumsum_above by done. simpl. intros [= <-].
    apply Qnot_le_lt. intros Hle.
    eapply Qlt_irrefl, Qlt_le_trans; [exact Hlt|].
    eapply Qle_trans; [|exact Hacc].
    rewrite <- (Qplus_0_r acc) at 2. by apply Qplus_le_r.
Qed.

Lemma cumsum_last (acc d : Q) (q : list Q) :
  q ≠ [] → (List.last (cumsum acc q) d == acc + qsum q)%Q.
Proof.
  revert acc. induction q as [|v q IH]; intros acc Hne; [done|].
  destruct q as [|w q].
  - simpl. ring.
  - change (List.last (cumsum acc (v :: w :: q)) d)
      with (List.last (cumsum (acc + v) (w :: q)) d).
    rewrite IH by done. simpl. ring.
Qed.

Lemma existsb_neg_false (q : list Q) :
  existsb (fun v => Qlt_bool v 0) q = false → Forall (fun v => (0 <= v)%Q) q.
Proof.
  induction q as [|v q IH]; simpl; [by constructor|].
  intros H. apply orb_false_iff in H as [Hv Hq].
  constructor; [|by apply IH].
  unfold Qlt_bool in Hv. apply negb_false_iff, Qle_bool_iff in Hv. done.
Qed.

Lemma mapM_id_Some (p : list (option Q)) (q : list Q) :
  mapM id p = Some q → p = Some <$> q.
Proof.
  revert q. induction p as [|x p IH]; intros q H; simpl in H.
  - by injection H as <-.
  - destruct x as [v|]; simpl in H; [|done].
    destruct (mapM id p) as [q'|] eqn:E; simpl in H; [|done].
    injection H as <-. simpl. f_equal. by apply IH.
Qed.

Lemma fsum_nonneg (p : list (option Q)) (s : Q) :
  nonneg p → fsum p = Some s → (0 <= s)%Q.
Proof.
  revert s. induction p as [|x p IH]; intros s Hp; simpl.
  - intros [= <-]. apply Qle_refl.
  - apply Forall_cons in Hp as [Hx Hp].
    destruct x as [a|]; [|done]. destruct (fsum p) as [b|]; [|done].
    intros [= <-]. rewrite <- (Qplus_0_r 0).
    apply Qplus_le_compat; [done|by apply IH].
Qed.

Lemma normalise_lookup (p : list (option Q)) (j : nat) (v : Q) :
  nonneg p → normalise p !! j = Some (Some v) →
  ∃ a s, p !! j = Some (Some a) ∧ (0 < s)%Q ∧ v = (a / s)%Q.
Proof.
  intros Hp. unfold normalise. destruct (fsum p) as [s|] eqn:Hs.
  - destruct (Qeq_bool s 0) eqn:Hz.
    + rewrite list_lookup_fmap. destruct (p !! j); simpl; congruence.
    + rewrite list_lookup_fmap. destruct (p !! j) as [[a|]|]; simpl; [|done..].
      intros [= <-]. exists a, s. split; [done|]. split; [|done].
      apply Qeq_bool_neq in Hz. apply fsum_nonneg in Hs; [|done].
      apply Qle_lteq in Hs as [Hs|Hs]; [done|]. exfalso. apply Hz. by symmetry.
  - rewrite list_lookup_fmap. destruct (p !! j); simpl; congruence.
Qed.

Lemma normalise_nonneg (p : list (option Q)) : nonneg p → nonneg (normalise p).
Proof.
  intros Hp. apply Forall_lookup_2. intros j [v|] Hj; [|done].
  apply normalise_lookup in Hj as (a & s & Ha & Hs & ->); [|done].
  pose proof (Forall_lookup_1 _ _ _ _ Hp Ha) as Ha'. simpl in Ha'.
  apply Qle_shift_div_l; [done|]. by rewrite Qmult_0_l.
Qed.

Lemma normalise_positive (p : list (option Q)) (j : nat) :
  nonneg p → positive_at (normalise p) j → positive_at p j.
Proof.
  intros Hp (v & Hv & Hpos).
  apply normalise_lookup in Hv as (a & s & Ha & Hs & ->); [|done].
  exists a. split; [done|].
  apply Qnot_le_lt. intros Hle.
  eapply Qlt_irrefl, Qlt_le_trans; [exact Hpos|].
  apply Qle_shift_div_r; [done|]. by rewrite Qmult_0_l.
Qed.

Lemma zero_slice_lookup (p : list (option Q)) (lo hi j : nat) :
  zero_slice p lo hi !! j
  = (fun x => if (lo <=? j)%nat && (j <? hi)%nat then Some 0%Q else x)
      <$> p !! j.
Proof. unfold zero_slice. by rewrite list_lookup_imap. Qed.

Lemma zero_slice_nonneg (p : list (option Q)) (lo hi : nat) :
  nonneg p → nonneg (zero_slice p lo hi).
Proof.
  intros Hp. apply Forall_lookup_2. intros j x Hj.
  rewrite zero_slice_lookup in Hj.
  destruct (p !! j) as [y|] eqn:Hy; [|done]. simpl in Hj.
  destruct (_ && _); injection Hj as <-; [apply Qle_refl|].
  exact (Forall_lookup_1 _ _ _ _ Hp Hy).
Qed.

Lemma zero_slice_positive (p : list (option Q)) (lo hi j : nat) :
  positive_at (zero_slice p lo hi) j →
  positive_at p j ∧ ¬ (lo <= j < hi)%nat.
Proof.
  intros (v & Hv & Hpos). rewrite zero_slice_lookup in Hv.
  destruct (p !! j) as [y|] eqn:Hy; [|done]. simpl in Hv.
  destruct (_ && _) eqn:E.
  - injection Hv as [= <-]. by apply Qlt_irrefl in Hpos.
  - injection Hv as ->. split; [by exists v|].
    apply andb_false_iff in E as [E|E];
      [apply Nat.leb_gt in E|apply Nat.ltb_ge in E]; lia.
Qed.

Lemma Qsquare_nonneg (v : Q) : (0 <= v * v)%Q.
Proof. unfold Qle, Qmult. simpl. nia. Qed.

Lemma initial_p_nonneg (d : distribution) (n : nat) (p : list (option Q)) :
  initial_p d n = Ok p → nonneg p.
Proof.
  destruct d as [s|shape vals]; simpl.
  - destruct (String.eqb s "constant").
    { intros [= <-]. apply normalise_nonneg, Forall_fmap, Forall_forall.
      by intros v ->%elem_of_replicate_inv. }
    destruct (String.eqb s "decreasing").
    { intros [= <-]. apply normalise_nonneg, Forall_fmap, Forall_forall.
      intros v _. apply Qsquare_nonneg. }
    destruct (String.eqb s "increasing"); [|done].
    intros [= <-]. apply normalise_nonneg, Forall_fmap, Forall_forall.
    intros v _. apply Qsquare_nonneg.
  - by destruct (_ <? _)%nat.
Qed.

(** From here on the uniform samples are taken to lie in [[0, 1)], as those
    of [random_sample] do. *)
Section Scheduler.
Context `{RT : Runtime}.
Hypothesis sample_range : ∀ g, (0 <= (random_sample g).1 < 1)%Q.

(** The weighted choice returns an offset whose weight is positive. *)
Lemma np_choice_p_support (p : list (option Q)) g idx g' :
  np_choice_p p g = Ok (idx, g') →
  0 <= idx ∧ positive_at p (Z.to_nat idx).
Proof.
  unfold np_choice_p. destruct p as [|x p0]; [done|].
  set (p := x :: p0). intros H.
  apply obind_Ok in H as (q & Hq & H). apply from_option_Ok, mapM_id_Some in Hq.
  destruct (existsb _ q) eqn:Hneg; [done|]. apply existsb_neg_false in Hneg.
  destruct (Qlt_bool _ _) eqn:Hsum; [done|].
  unfold Qlt_bool in Hsum. apply negb_false_iff, Qle_bool_iff in Hsum.
  pose proof (sample_range g) as [Hu0 Hu1].
  destruct (random_sample g) as [u g1]. simpl in Hu0, Hu1.
  destruct (_ <? _)%nat eqn:Hlt; [|done]. injection H as <- <-.
  apply Nat.ltb_lt in Hlt. split; [lia|]. rewrite Nat2Z.id.
  assert (Hne : q ≠ []) by (intros ->; subst p; discriminate Hq).
  set (total := List.last (cumsum 0 q) 0%Q) in *.
  assert (Ht : (0 < total)%Q).
  { unfold total. rewrite cumsum_last by done. rewrite Qplus_0_l.
    apply Qabs_Qle_condition in Hsum as [Hlo _].
    apply (Qplus_le_l _ _ 1) in Hlo. ring_simplify in Hlo.
    eapply Qlt_le_trans; [|exact Hlo]. reflexivity. }
  rewrite Hq in Hlt. rewrite length_fmap in Hlt.
  destruct (lookup_lt_is_Some_2 q _ Hlt) as [v Hv].
  exists v. split; [by rewrite Hq, list_lookup_fmap, Hv|].
  eapply (cumsum_choice u total 0 q v); [done| |done|done].
  apply Qmult_le_0_compat; [done|by apply Qlt_le_weak].
Qed.

(** Inside the loop: the offsets covered by the trains placed so far have
    no weight left, so the next start avoids all of them. *)
Lemma schedule_loop_outside iter n_events lag n_steps span p starts g
    starts' g' :
  schedule_loop iter n_events lag n_steps span p starts g = Ok (starts', g') →
  nonneg p →
  (∀ s, s ∈ starts → ∀ j : nat, s <= Z.of_nat j < s + (lag * n_steps + span) →
                     ¬ positive_at p j) →
  later_outside (lag * n_steps + span) starts →
  later_outside (lag * n_steps + span) starts'.
Proof.
  set (fp := lag * n_steps + span).
  revert p starts g.
  induction iter as [|i iter IH]; intros p starts g H Hp Hz Hout; simpl in H.
  - by injection H as <- _.
  - apply obind_Ok in H as ([? g1] & _ & H).
    destruct (_ <? _); [done|].
    apply obind_Ok in H as ([start_idx g2] & Hchoice & H).
    apply np_choice_p_support in Hchoice as [H0 Hpos].
    apply obind_Ok in H as ([] & Hend & H).
    apply py_assert_Ok, Z.ltb_lt in Hend.
    assert (Hlt : start_idx < Z.of_nat (length p)).
    { destruct Hpos as (v & Hv & _). apply lookup_lt_Some in Hv. lia. }
    apply IH in H; [done| | |].
    + by apply normalise_nonneg, zero_slice_nonneg.
    + intros s Hs j Hj Hposj.
      apply normalise_positive in Hposj; [|by apply zero_slice_nonneg].
      apply zero_slice_positive in Hposj as [Hposj Hnot].
      apply elem_of_app in Hs as [Hs|Hs]; [by eapply Hz|].
      apply list_elem_of_singleton in Hs as ->.
      apply Hnot. unfold py_clamp.
      replace (start_idx + lag * n_steps + span) with (start_idx + fp) in *
        by (unfold fp; lia).
      destruct (Z.ltb_spec start_idx 0); [lia|].
      destruct (Z.ltb_spec (start_idx + fp) 0); lia.
    + intros a b s t Hab Ha Hb Hin.
      destruct (decide (b < length starts)%nat) as [Hb'|Hb'].
      * rewrite lookup_app_l in Ha, Hb by lia.
        exact (Hout a b s t Hab Ha Hb Hin).
      * rewrite lookup_app_r in Hb by lia.
        destruct (b - length starts)%nat as [|m] eqn:Hm;
          [|destruct m; discriminate Hb].
        injection Hb as <-.
        rewrite lookup_app_l in Ha by lia.
        apply (Hz s (list_elem_of_lookup_2 _ _ _ Ha) (Z.to_nat start_idx));
          [lia|done].
Qed.

(** A train never starts inside the interval of a train scheduled before
    it; it may still start less than a footprint ahead of one. *)
Lemma insert_events_later_start_outside data insert_data insert_labels
    n_events lag n_steps dist σ pl g :
  insert_events_plan data insert_data insert_labels n_events lag n_steps
    dist σ = Ok (pl, g) →
  later_outside (footprint n_steps lag (plan_span pl)) (replay_start_idxs pl).
Proof.
  unfold insert_events_plan. intros H.
  apply obind_Ok in H as (d & _ & H).
  apply obind_Ok in H as ([] & _ & H).
  apply obind_Ok in H as ([] & _ & H).
  apply obind_Ok in H as ([] & _ & H).
  apply obind_Ok in H as (seed & _ & H).
  apply obind_Ok in H as (g0 & _ & H).
  apply obind_Ok in H as (class_mean & _ & H).
  apply obind_Ok in H as (p & Hp & H). apply initial_p_nonneg in Hp.
  apply obind_Ok in H as ([starts g1] & Hs & H).
  injection H as <- _. simpl. unfold schedule in Hs.
  replace (footprint n_steps lag (a3_dim2 (to_3d insert_data)))
    with (lag * n_steps + Z.of_nat (a3_dim2 (to_3d insert_data)))
    by (unfold footprint; lia).
  eapply schedule_loop_outside; [exact Hs| | |].
  - by apply normalise_nonneg, zero_slice_nonneg.
  - by intros s ?%elem_of_nil.
  - by intros i j s t _ ?.
Qed.

End Scheduler.

Lemma overlap_not_disjoint : ¬ pairwise_disjoint 3 [1; 0].
Proof.
  intros H. specialize (H 0%nat 1%nat 1 0).
  unfold disjoint_intervals in H. simpl in H.
  destruct H as [H|H]; [done..|lia|lia].
Qed.

(** C1. On [data6] with two events of footprint [1 * 1 + 2 = 3] the call
    succeeds with the start offsets 1 and 0: the intervals [[1, 4)] and
    [[0, 3)] overlap.  Only [p[start:end]] is zeroed, so a later train may
    start less than a footprint before an earlier one. *)
Theorem insert_events_overlapping_trains :
  ∃ pl g onsets σ',
    insert_events_plan (RT := rt6) 0 insert6 [0; 1] 2 1 1
      (DistStr "constant") state6 = Ok (pl, g)
    ∧ insert_events (RT := rt6) 0 insert6 [0; 1] [0; 1] 2 1 0 1
        (DistStr "constant") true state6 = Ok (1%nat, Some onsets, σ')
    ∧ map (fun e => (ev_idx e, ev_step e, ev_pos e)) onsets
      = [(0, 0, 1); (0, 1, 2); (1, 0, 0); (1, 1, 1)]
    ∧ replay_start_idxs pl = [1; 0]
    ∧ footprint 1 1 (plan_span pl) = 3
    ∧ ¬ pairwise_disjoint (footprint 1 1 (plan_span pl))
          (replay_start_idxs pl).
Proof.
  do 4 eexists.
  split; [vm_compute; reflexivity|].
  split; [vm_compute; reflexivity|].
  split; [vm_compute; reflexivity|].
  split; [vm_compute; reflexivity|].
  split; [vm_compute; reflexivity|].
  exact overlap_not_disjoint.
Qed.

(** ** The distribution argument *)

(** No array gets past lines 308-318. *)
Lemma initial_p_array (shape : list nat) (vals : list Q) (n : nat) :
  initial_p (DistArr shape vals) n = Raise ValueError
  ∨ initial_p (DistArr shape vals) n = Raise (Exception "unknown distribution").
Proof. simpl. destruct (1 <? length vals)%nat; auto. Qed.

Lemma insert_events_array_fails `{RT : Runtime} data insert_data
    insert_labels sequence n_events lag jitter n_steps shape vals
    return_onsets σ :
  ∀ r, insert_events data insert_data insert_labels sequence n_events lag
         jitter n_steps (DistArr shape vals) return_onsets σ ≠ Ok r.
Proof.
  intros r H. unfold insert_events in H.
  apply obind_Ok in H as ([pl g] & H & _).
  unfold insert_events_plan in H.
  apply obind_Ok in H as (d & _ & H).
  apply obind_Ok in H as ([] & _ & H).
  apply obind_Ok in H as ([] & _ & H).
  apply obind_Ok in H as ([] & _ & H).
  apply obind_Ok in H as (seed & _ & H).
  apply obind_Ok in H as (g0 & _ & H).
  apply obind_Ok in H as (class_mean & _ & H).
  apply obind_Ok in H as (p & Hp & _).
  destruct (initial_p_array shape vals (length (a2_rows d))) as [E|E];
    rewrite E in Hp; discriminate.
Qed.

(** C2. [uniform6] is one-dimensional, as long as [data6] and sums to 1,
    and it passes the checks of lines 276-279; the call still fails, with
    the [ValueError] of taking the truth value of [distribution ==
    'constant'], while the same call with ['constant'] succeeds. *)
Theorem insert_events_rejects_probability_vector :
  check_distribution uniform6 (a2_len data6) = Ok tt
  ∧ insert_events (RT := rt6) 0 insert6 [0; 1] [0; 1] 2 1 0 1 uniform6
      true state6 = Raise ValueError
  ∧ ∃ onsets σ',
      insert_events (RT := rt6) 0 insert6 [0; 1] [0; 1] 2 1 0 1
        (DistStr "constant") true state6 = Ok (1%nat, Some onsets, σ').
Proof.
  split; [vm_compute; reflexivity|].
  split; [vm_compute; reflexivity|].
  do 2 eexists. vm_compute. reflexivity.
Qed.

(** ** The symbol codec *)

Lemma omapM_Ok {A B : Type} (f : A → outcome B) (l : list A) (bs : list B) :
  omapM f l = Ok bs ↔ Forall2 (fun a b => f a = Ok b) l bs.
Proof.
  revert bs. induction l as [|a l IH]; intros bs; simpl.
  - split; [intros [= <-]; constructor|by intros ->%Forall2_nil_inv_l].
  - split.
    + intros H. apply obind_Ok in H as (b & Hb & H).
      apply obind_Ok in H as (bs' & Hbs & [= <-]).
      constructor; [done|by apply IH].
    + intros (b & bs' & Hb & Hbs & ->)%Forall2_cons_inv_l.
      rewrite Hb. simpl. apply IH in Hbs. by rewrite Hbs.
Qed.

Lemma omapM_ext_Ok {A B : Type} (f : A → outcome B) (g : A → B) (l : list A) :
  Forall (fun a => f a = Ok (g a)) l → omapM f l = Ok (map g l).
Proof.
  induction 1 as [|a l Ha _ IH]; simpl; [done|]. by rewrite Ha, IH.
Qed.

Section Codec.
Context `{UC : Unicode}.

Lemma py_upper_char_letter (c : Z) :
  is_letter c → py_upper_char c = [65 + letter_index c].
Proof.
  intros Hc. unfold py_upper_char, letter_index.
  destruct (Z.leb_spec 256 c); [unfold is_letter in Hc; lia|].
  destruct (Z.leb_spec 97 c), (Z.leb_spec c 122), (Z.ltb_spec c 97);
    simpl; try (unfold is_letter in Hc; lia); try (f_equal; lia).
  - destruct (Z.eqb_spec c 181); [unfold is_letter in Hc; lia|].
    destruct (Z.eqb_spec c 223); [unfold is_letter in Hc; lia|].
    destruct (Z.leb_spec 224 c); [unfold is_letter in Hc; lia|]. simpl.
    destruct (Z.eqb_spec c 255); [unfold is_letter in Hc; lia|].
    f_equal. lia.
Qed.

Lemma char2num_nums_letters (s : list Z) :
  Forall is_letter s →
  omapM (fun c => do o <- py_ord (py_upper c); Ok (o - 65))
    (map (fun c => [c]) s) = Ok (map letter_index s).
Proof.
  induction 1 as [|c s Hc _ IH]; simpl; [done|].
  unfold py_upper at 1. simpl. rewrite py_upper_char_letter by done.
  simpl. rewrite IH. simpl. do 3 f_equal. lia.
Qed.

Lemma letter_index_range (c : Z) : is_letter c → 0 <= letter_index c <= 25.
Proof. unfold is_letter, letter_index. destruct (Z.ltb_spec c 97); lia. Qed.

Lemma char2num_letters_Ok (s : list Z) :
  Forall is_letter s →
  char2num (SeqStr s) = Ok (map letter_index s).
Proof.
  intros Hs. unfold char2num. simpl.
  rewrite char2num_nums_letters by done. simpl.
  assert (Hrange : forallb (fun n => (0 <=? n) && (n <=? 90))
                     (map letter_index s) = true).
  { apply forallb_forall. intros n Hn. apply in_map_iff in Hn as (c & <- & Hc).
    apply list_elem_of_In in Hc.
    rewrite Forall_forall in Hs. pose proof (letter_index_range c (Hs c Hc)).
    apply andb_true_iff; split; apply Z.leb_le; lia. }
  by rewrite Hrange.
Qed.

(** X1. Letters map to their position in the alphabet, whatever their
    case, for a string as for a list of one-letter strings. *)
Theorem char2num_letters (s : list Z) :
  Forall is_letter s →
  char2num (SeqStr s) = Ok (map letter_index s)
  ∧ char2num (SeqList (map (fun c => [c]) s)) = Ok (map letter_index s)
  ∧ Forall (fun n => 0 <= n <= 25) (map letter_index s).
Proof.
  intros Hs. split; [by apply char2num_letters_Ok|]. split.
  - rewrite <- (char2num_letters_Ok s Hs). done.
  - apply Forall_fmap. eapply Forall_impl; [exact Hs|].
    intros c Hc. by apply letter_index_range.
Qed.

End Codec.

Lemma char2num_letters_witness :
  Forall is_letter (str "ABCabc")
  ∧ char2num (UC := plain_unicode) (SeqStr (str "ABCabc"))
    = Ok [0; 1; 2; 0; 1; 2].
Proof.
  assert (H : Forall is_letter (str "ABCabc")).
  { change (str "ABCabc") with [65; 66; 67; 97; 98; 99].
    repeat (apply List.Forall_cons; [unfold is_letter; lia|]).
    apply List.Forall_nil. }
  split; [exact H|].
  exact (proj1 (char2num_letters (UC := plain_unicode) (str "ABCabc") H)).
Defined.

Section Codec2.
Context `{UC : Unicode}.

Lemma py_upper_char_ascii (c : Z) :
  0 <= c < 128 →
  py_upper_char c = [if (97 <=? c) && (c <=? 122) then c - 32 else c].
Proof.
  intros Hc. unfold py_upper_char.
  destruct (Z.leb_spec 256 c); [lia|].
  destruct ((97 <=? c) && (c <=? 122)); [done|].
  destruct (Z.eqb_spec c 181); [lia|]. destruct (Z.eqb_spec c 223); [lia|].
  destruct (Z.leb_spec 224 c); [lia|]. simpl.
  destruct (Z.eqb_spec c 255); [lia|]. done.
Qed.

(** What [char2num] returns has one number per item, each in 0..90. *)
Lemma char2num_range (seq : char_seq) (nums : list Z) :
  char2num seq = Ok nums →
  length nums = length (seq_items seq) ∧ Forall (fun n => 0 <= n <= 90) nums.
Proof.
  unfold char2num. intros H.
  apply obind_Ok in H as (ns & Hns & H).
  apply obind_Ok in H as ([] & Hr & [= <-]).
  apply py_assert_Ok in Hr. apply omapM_Ok, Forall2_length in Hns.
  split; [done|]. apply Forall_forall. intros n Hn.
  rewrite forallb_forall in Hr. apply list_elem_of_In, Hr in Hn.
  apply andb_true_iff in Hn as [H1 H2]. apply Z.leb_le in H1, H2. lia.
Qed.

(** X2. An ASCII string that holds a character below ['A'] (a digit, a
    space, punctuation) is refused with [AssertionError]. *)
Theorem char2num_below_A (s : list Z) :
  Forall (fun c => 0 <= c < 128) s → Exists (fun c => c < 65) s →
  char2num (SeqStr s) = Raise AssertionError.
Proof.
  intros Hs Hex. unfold char2num. simpl.
  set (f := fun c : Z => (if (97 <=? c) && (c <=? 122) then c - 32 else c) - 65).
  assert (Hnums : omapM (fun c => do o <- py_ord (py_upper c); Ok (o - 65))
                    (map (fun c => [c]) s) = Ok (map f s)).
  { clear Hex. induction Hs as [|c s Hc _ IH]; simpl; [done|].
    unfold py_upper at 1. simpl. rewrite py_upper_char_ascii by done.
    simpl. by rewrite IH. }
  rewrite Hnums. simpl.
  assert (Hbad : forallb (fun n => (0 <=? n) && (n <=? 90)) (map f s) = false).
  { apply not_true_iff_false. intros Hall. rewrite forallb_forall in Hall.
    apply Exists_exists in Hex as (c & Hc & Hlt).
    assert (Hin : In (f c) (map f s)) by (apply in_map; by apply list_elem_of_In).
    apply Hall, andb_true_iff in Hin as [H0 _].
    apply Z.leb_le in H0. unfold f in H0.
    destruct (Z.leb_spec 97 c); simpl in H0; lia. }
  by rewrite Hbad.
Qed.

Lemma py_chr_Ok (n : Z) : 0 <= n < 1114112 → py_chr n = Ok n.
Proof.
  intros Hn. unfold py_chr. change (2 ^ 31) with 2147483648.
  rewrite (proj2 (Z.ltb_ge _ _)), (proj2 (Z.leb_gt _ _)) by lia. simpl.
  rewrite (proj2 (Z.leb_le _ _)), (proj2 (Z.ltb_lt _ _)) by lia. done.
Qed.

(** Below the end of the code space, [num2char] shifts by 65. *)
Lemma num2char_nonneg (ns : list Z) :
  Forall (fun n => 0 <= n < 1114047) ns →
  num2char ns = Ok (map (fun n => [n + 65]) ns).
Proof.
  intros Hns. unfold num2char.
  rewrite (omapM_ext_Ok _ id).
  2:{ eapply Forall_impl; [exact Hns|]. intros n Hn. simpl in *.
      change (2 ^ 63) with 9223372036854775808.
      rewrite (proj2 (Z.leb_le _ _)), (proj2 (Z.ltb_lt _ _)) by lia. done. }
  simpl. rewrite list_fmap_id.
  rewrite (omapM_ext_Ok _ (fun n => n + 65)).
  2:{ eapply Forall_impl; [exact Hns|]. intros n Hn. simpl in *.
      apply py_chr_Ok. lia. }
  simpl. rewrite <- list_fmap_compose. f_equal.
  apply list_fmap_ext. intros i n Hn. simpl. unfold np_str_item.
  apply (Forall_lookup_1 _ _ _ _ Hns) in Hn. simpl in Hn.
  destruct (Z.eqb_spec (n + 65) 0); [lia|done].
Qed.

Lemma num2char_small (ns : list Z) :
  Forall (fun n => 0 <= n <= 25) ns →
  num2char ns = Ok (map (fun n => [n + 65]) ns).
Proof.
  intros Hns. apply num2char_nonneg.
  eapply Forall_impl; [exact Hns|]. intros n Hn. simpl in *. lia.
Qed.

(** X3. Numbers 0..25 decode to the upper-case letters, and these encode
    back to the numbers. *)
Theorem num2char_char2num (ns : list Z) :
  Forall (fun n => 0 <= n <= 25) ns →
  num2char ns = Ok (map (fun n => [n + 65]) ns)
  ∧ char2num (SeqList (map (fun n => [n + 65]) ns)) = Ok ns.
Proof.
  intros Hns. split; [by apply num2char_small|].
  - transitivity (char2num (SeqStr (map (fun n => n + 65) ns))).
    { unfold char2num. simpl. by rewrite <- list_fmap_compose. }
    rewrite char2num_letters_Ok.
    + f_equal. rewrite <- list_fmap_compose.
      rewrite <- (list_fmap_id ns) at 2. apply list_fmap_ext.
      intros i n Hn. apply (Forall_lookup_1 _ _ _ _ Hns) in Hn. simpl in *.
      unfold letter_index. destruct (Z.ltb_spec (n + 65) 97); lia.
    + apply Forall_fmap. eapply Forall_impl; [exact Hns|].
      intros n Hn. simpl in *. unfold is_letter. lia.
Qed.

(** X4. Encoding a string of letters and decoding the numbers gives the
    string in upper case. *)
Theorem char2num_num2char (s : list Z) :
  Forall is_letter s →
  ∃ ns, char2num (SeqStr s) = Ok ns
        ∧ num2char ns = Ok (map (fun c => [c]) (py_upper s)).
Proof.
  intros Hs. exists (map letter_index s).
  split; [by apply char2num_letters_Ok|].
  rewrite num2char_small.
  2:{ apply Forall_fmap. eapply Forall_impl; [exact Hs|].
    intros c Hc. by apply letter_index_range. }
  f_equal. rewrite <- list_fmap_compose. unfold py_upper.
  induction Hs as [|c s Hc _ IH]; simpl; [done|].
  rewrite py_upper_char_letter by done. simpl. f_equal; [f_equal; lia|done].
Qed.

End Codec2.

Lemma char2num_below_A_witness :
  char2num (UC := plain_unicode) (SeqStr (str "AB1")) = Raise AssertionError.
Proof.
  apply (char2num_below_A (UC := plain_unicode) (str "AB1")).
  - change (str "AB1") with [65; 66; 49].
    repeat (apply List.Forall_cons; [lia|]). apply List.Forall_nil.
  - change (str "AB1") with [65; 66; 49].
    apply Exists_cons_tl, Exists_cons_tl, Exists_cons_hd. lia.
Defined.

Lemma num2char_char2num_witness :
  num2char [0; 1; 25] = Ok [str "A"; str "B"; str "Z"]
  ∧ char2num (UC := plain_unicode) (SeqList [str "A"; str "B"; str "Z"])
    = Ok [0; 1; 25].
Proof.
  apply (num2char_char2num (UC := plain_unicode) [0; 1; 25]).
  repeat (apply List.Forall_cons; [lia|]). apply List.Forall_nil.
Defined.

Lemma char2num_num2char_witness :
  ∃ ns, char2num (UC := plain_unicode) (SeqStr (str "Cab")) = Ok ns
        ∧ num2char ns = Ok [str "C"; str "A"; str "B"].
Proof.
  apply (char2num_num2char (UC := plain_unicode) (str "Cab")).
  change (str "Cab") with [67; 97; 98].
  repeat (apply List.Forall_cons; [unfold is_letter; lia|]).
  apply List.Forall_nil.
Defined.


(** ** The transition matrix *)

Lemma py_index_nonneg (len i : Z) (j : nat) :
  0 <= i → py_index len i = Some j → j = Z.to_nat i ∧ i < len.
Proof.
  unfold py_index. intros Hi.
  destruct (Z.leb_spec 0 i), (Z.ltb_spec i len); simpl; try lia.
  - intros [= <-]. done.
  - destruct (Z.leb_spec (- len) i), (Z.ltb_spec i 0); simpl; try done; lia.
Qed.

Lemma py_index_nonneg_None (len i : Z) :
  0 <= i → py_index len i = None ↔ len <= i.
Proof.
  unfold py_index. intros Hi.
  destruct (Z.leb_spec 0 i), (Z.ltb_spec i len); simpl; try lia.
  - split; [done|lia].
  - destruct (Z.leb_spec (- len) i), (Z.ltb_spec i 0); simpl; try lia.
    all: split; [lia|done].
Qed.

Lemma set_cell_Ok (n : nat) (TF TF' : list (list Z)) (p1 p2 : Z) :
  square n TF → 0 <= p1 → 0 <= p2 →
  set_cell TF p1 p2 = Ok TF' →
  p1 < Z.of_nat n ∧ p2 < Z.of_nat n ∧ square n TF'
  ∧ ∀ a b, 0 <= a → 0 <= b →
      mcell TF' a b = if decide (a = p1 ∧ b = p2) then Some 1 else mcell TF a b.
Proof.
  intros [Hlen Hrows] H1 H2 H. unfold set_cell in H.
  apply obind_Ok in H as (r & Hr & H). apply from_option_Ok in Hr.
  apply py_index_nonneg in Hr as [-> Hp1]; [|done].
  apply obind_Ok in H as (row & Hrow & H). apply from_option_Ok in Hrow.
  apply obind_Ok in H as (c & Hc & [= <-]). apply from_option_Ok in Hc.
  apply py_index_nonneg in Hc as [-> Hp2]; [|done].
  pose proof (Forall_lookup_1 _ _ _ _ Hrows Hrow) as Hrl. simpl in Hrl.
  split; [lia|]. split; [lia|]. split.
  - split; [by rewrite length_insert|].
    apply Forall_insert; [done|]. by rewrite length_insert.
  - intros a b Ha Hb. unfold mcell.
    destruct (decide (Z.to_nat a = Z.to_nat p1)) as [Ea|Ea].
    + assert (a = p1) as -> by lia.
      rewrite list_lookup_insert_eq by lia. simpl.
      destruct (decide (Z.to_nat b = Z.to_nat p2)) as [Eb|Eb].
      * assert (b = p2) as -> by lia.
        rewrite list_lookup_insert_eq by lia. by rewrite decide_True.
      * rewrite list_lookup_insert_ne by done.
        rewrite decide_False by (intros [_ ->]; done). by rewrite Hrow.
    + rewrite list_lookup_insert_ne by done.
      rewrite decide_False by (intros [-> _]; done). done.
Qed.

Lemma set_cell_Raise (n : nat) (TF : list (list Z)) (p1 p2 : Z) :
  square n TF → 0 <= p1 → 0 <= p2 →
  Z.of_nat n <= p1 ∨ Z.of_nat n <= p2 →
  set_cell TF p1 p2 = Raise IndexError.
Proof.
  intros [Hlen Hrows] H1 H2 Hbig. unfold set_cell.
  destruct (py_index (Z.of_nat (length TF)) p1) as [r|] eqn:Hr; simpl; [|done].
  apply py_index_nonneg in Hr as [-> Hp1]; [|done].
  destruct (TF !! Z.to_nat p1) as [row|] eqn:Hrow; simpl; [|done].
  pose proof (Forall_lookup_1 _ _ _ _ Hrows Hrow) as Hrl. simpl in Hrl.
  destruct (py_index (Z.of_nat (length row)) p2) as [c|] eqn:Hc; simpl; [|done].
  apply py_index_nonneg in Hc as [-> Hp2]; [|done]. lia.
Qed.

Lemma set_cell_total (n : nat) (TF : list (list Z)) (p1 p2 : Z) :
  square n TF → 0 <= p1 < Z.of_nat n → 0 <= p2 < Z.of_nat n →
  ∃ TF', set_cell TF p1 p2 = Ok TF'.
Proof.
  intros [Hlen Hrows] H1 H2. unfold set_cell, py_index. rewrite Hlen.
  rewrite (proj2 (Z.leb_le _ _)), (proj2 (Z.ltb_lt _ _)) by lia. simpl.
  destruct (lookup_lt_is_Some_2 TF (Z.to_nat p1)) as [row Hrow]; [lia|].
  rewrite Hrow. simpl.
  rewrite (Forall_lookup_1 _ _ _ _ Hrows Hrow).
  rewrite (proj2 (Z.leb_le _ _)), (proj2 (Z.ltb_lt _ _)) by lia. simpl. eauto.
Qed.

Lemma drop_cons_inv {B : Type} (l : list B) (i : nat) (x : B) (rest : list B) :
  x :: rest = drop i l → l !! i = Some x ∧ rest = drop (S i) l.
Proof.
  intros H. split.
  - rewrite <- (Nat.add_0_r i), <- lookup_drop, <- H. done.
  - replace (S i) with (i + 1)%nat by lia. by rewrite <- drop_drop, <- H.
Qed.

Lemma adjacent_upto_all (seq : list Z) (k : nat) (a b : Z) :
  (length seq <= S k)%nat → adjacent_upto k seq a b ↔ adjacent seq a b.
Proof.
  intros Hk. split.
  - intros (i & _ & Ha & Hb). by exists i.
  - intros (i & Ha & Hb). exists i.
    pose proof (lookup_lt_Some _ _ _ Hb). split; [lia|done].
Qed.

Lemma adjacent_upto_change (seq : list Z) (k k' : nat) (a b : Z) :
  (length seq <= S k)%nat → (length seq <= S k')%nat →
  adjacent_upto k seq a b ↔ adjacent_upto k' seq a b.
Proof. intros Hk Hk'. by rewrite !adjacent_upto_all. Qed.

Lemma marks_change n k k' seq TF :
  (length seq <= S k)%nat → (length seq <= S k')%nat →
  marks n k seq TF → marks n k' seq TF.
Proof.
  intros Hk Hk' (Hsq & Hin & Hcells). split; [done|]. split.
  - intros a b H. apply Hin. by apply (adjacent_upto_change seq k k').
  - intros a b Ha Hb.
    rewrite <- (adjacent_upto_change seq k k') by done. by apply Hcells.
Qed.

Lemma adjacent_upto_S k seq a b p1 p2 :
  seq !! k = Some p1 → seq !! S k = Some p2 →
  adjacent_upto (S k) seq a b ↔ adjacent_upto k seq a b ∨ (a = p1 ∧ b = p2).
Proof.
  intros H1 H2. split.
  - intros (i & Hi & Ha & Hb). destruct (decide (i = k)) as [->|Hne].
    + right. split; congruence.
    + left. exists i. split; [lia|done].
  - intros [(i & Hi & Ha & Hb)|[-> ->]].
    + exists i. split; [lia|done].
    + exists k. split; [lia|done].
Qed.

Lemma seq2tf_loop_Ok n seq i rest TF TF' :
  rest = drop i seq → Forall (fun c => 0 <= c) seq → marks n i seq TF →
  seq2tf_loop seq i rest TF = Ok TF' →
  marks n (length seq) seq TF'.
Proof.
  revert i TF. induction rest as [|p1 rest IH]; intros i TF Hrest Hseq Hm H;
    simpl in H.
  - injection H as <-. symmetry in Hrest. apply drop_nil_inv in Hrest.
    apply (marks_change n i); [lia|lia|done].
  - apply drop_cons_inv in Hrest as [Hp1 Hrest].
    pose proof (lookup_lt_Some _ _ _ Hp1) as Hlt.
    destruct (Z.leb_spec (Z.of_nat (length seq)) (Z.of_nat i + 1)).
    + eapply IH; [exact Hrest|done| |exact H].
      apply (marks_change n i); [lia|lia|done].
    + apply obind_Ok in H as (p2 & Hp2 & H). apply from_option_Ok in Hp2.
      rewrite Z.mod_small in Hp2 by lia.
      replace (Z.to_nat (Z.of_nat i + 1)) with (S i) in Hp2 by lia.
      apply obind_Ok in H as (TF1 & Hset & H).
      destruct Hm as (Hsq & Hin & Hcells).
      pose proof (Forall_lookup_1 _ _ _ _ Hseq Hp1) as H01.
      pose proof (Forall_lookup_1 _ _ _ _ Hseq Hp2) as H02. simpl in H01, H02.
      apply (set_cell_Ok n) in Hset as (Hr1 & Hr2 & Hsq1 & Hset); [|done..].
      eapply IH; [exact Hrest|done| |exact H].
      split; [done|]. split.
      * intros a b Hadj. apply (adjacent_upto_S _ _ _ _ p1 p2) in Hadj; [|done..].
        destruct Hadj as [Hadj|[-> ->]]; [by apply Hin|done].
      * intros a b Ha Hb. rewrite Hset by lia.
        rewrite (adjacent_upto_S _ _ _ _ p1 p2) by done.
        destruct (decide (a = p1 ∧ b = p2)) as [E|E]; [left; tauto|].
        destruct (Hcells a b Ha Hb) as [[Hc Hadj]|[Hc Hadj]];
          [left|right]; tauto.
Qed.

Lemma marks_zeros (n : nat) (seq : list Z) :
  marks n 0 seq (replicate n (replicate n 0)).
Proof.
  split; [|split].
  - split; [by rewrite length_replicate|].
    apply Forall_replicate. by rewrite length_replicate.
  - intros a b (i & Hi & _). lia.
  - intros a b Ha Hb. right. split; [|intros (i & Hi & _); lia].
    unfold mcell. rewrite lookup_replicate_2 by lia. simpl.
    by rewrite lookup_replicate_2 by lia.
Qed.

Lemma mcell_inject (TF : list (list Z)) (a b : Z) :
  mcell (map (map inject_Z) TF) a b = inject_Z <$> mcell TF a b.
Proof.
  unfold mcell. rewrite list_lookup_fmap.
  destruct (TF !! Z.to_nat a) as [row|]; simpl; [|done].
  by rewrite list_lookup_fmap.
Qed.

Lemma set_cell_cases (TF : list (list Z)) (p1 p2 : Z) :
  (∃ TF', set_cell TF p1 p2 = Ok TF') ∨ set_cell TF p1 p2 = Raise IndexError.
Proof.
  unfold set_cell.
  destruct (py_index _ p1) as [r|]; simpl; [|by right].
  destruct (TF !! r) as [row|]; simpl; [|by right].
  destruct (py_index _ p2) as [c|]; simpl; [|by right]. left. eauto.
Qed.

Lemma seq2tf_loop_cases seq i rest TF :
  (∃ TF', seq2tf_loop seq i rest TF = Ok TF')
  ∨ seq2tf_loop seq i rest TF = Raise IndexError.
Proof.
  revert i TF. induction rest as [|p1 rest IH]; intros i TF; simpl; [eauto|].
  destruct (_ <=? _); [apply IH|].
  destruct (seq !! _) as [p2|]; simpl; [|by right].
  destruct (set_cell_cases TF p1 p2) as [[TF1 ->]| ->]; simpl; [apply IH|by right].
Qed.

Lemma py_max_bound (l : list Z) (m : Z) :
  py_max l = Ok m → Forall (fun c => c <= m) l.
Proof.
  destruct l as [|v l]; simpl; [done|]. intros [= <-].
  assert (H : ∀ acc, acc <= foldl Z.max acc l
                     ∧ Forall (fun c => c <= foldl Z.max acc l) l).
  { induction l as [|w l IH]; intros acc; simpl; [split; [lia|constructor]|].
    destruct (IH (Z.max acc w)) as [H1 H2]. split; [lia|].
    constructor; [lia|done]. }
  destruct (H v) as [H1 H2]. by constructor.
Qed.

Section TransitionMatrix.
Context `{UC : Unicode}.

(** X5. The matrix is [n_states] square and holds 1 exactly at the pairs
    of neighbours of the sequence and 0 elsewhere; the last symbol is not
    linked to the first. *)
Theorem seq2tf_marks_neighbours (sequence : char_seq) (n_states : option Z)
    (TF : list (list Q)) :
  seq2tf sequence n_states = Ok TF →
  ∃ seq n,
    char2num sequence = Ok seq
    ∧ match n_states with
      | Some m => n = m
      | None => py_max seq = Ok (n - 1)
      end
    ∧ 0 <= n
    ∧ length TF = Z.to_nat n
    ∧ Forall (fun row => length row = Z.to_nat n) TF
    ∧ ∀ a b, 0 <= a < n → 0 <= b < n →
        (adjacent seq a b → mcell TF a b = Some 1%Q)
        ∧ (¬ adjacent seq a b → mcell TF a b = Some 0%Q).
Proof.
  unfold seq2tf. intros H.
  apply obind_Ok in H as (seq & Hseq & H).
  apply obind_Ok in H as (n & Hn & H).
  destruct (Z.ltb_spec n 0) as [|Hn0]; [done|].
  apply obind_Ok in H as (TF0 & Hloop & [= <-]).
  exists seq, n. split; [done|]. split.
  { destruct n_states as [m|]; [by injection Hn|].
    apply obind_Ok in Hn as (m & Hm & [= <-]).
    by replace (m + 1 - 1) with m by lia. }
  split; [done|].
  pose proof (char2num_range _ _ Hseq) as [_ Hrange].
  apply (seq2tf_loop_Ok (Z.to_nat n)) in Hloop as ([Hlen Hrows] & _ & Hcells).
  2:{ by rewrite drop_0. }
  2:{ eapply Forall_impl; [exact Hrange|]. intros c Hc. simpl in Hc. lia. }
  2:{ apply marks_zeros. }
  split; [by rewrite length_fmap|]. split.
  { apply Forall_fmap. eapply Forall_impl; [exact Hrows|].
    intros row Hrow. simpl. by rewrite length_fmap. }
  intros a b Ha Hb. rewrite mcell_inject.
  destruct (Hcells a b) as [[-> Hadj]|[-> Hadj]]; [lia|lia|..].
  - split; [done|]. intros Hno. exfalso. apply Hno.
    apply (adjacent_upto_all seq (length seq)); [lia|done].
  - split; [|done]. intros Hyes. exfalso. apply Hadj.
    apply (adjacent_upto_all seq (length seq)); [lia|done].
Qed.

End TransitionMatrix.

Lemma seq2tf_loop_total n seq i rest TF :
  rest = drop i seq → Forall (fun c => 0 <= c < Z.of_nat n) seq →
  square n TF → ∃ TF', seq2tf_loop seq i rest TF = Ok TF'.
Proof.
  revert i TF. induction rest as [|p1 rest IH]; intros i TF Hrest Hseq Hsq;
    simpl; [eauto|].
  apply drop_cons_inv in Hrest as [Hp1 Hrest].
  pose proof (lookup_lt_Some _ _ _ Hp1) as Hlt.
  destruct (Z.leb_spec (Z.of_nat (length seq)) (Z.of_nat i + 1));
    [by eapply IH|].
  rewrite Z.mod_small by lia.
  replace (Z.to_nat (Z.of_nat i + 1)) with (S i) by lia.
  destruct (lookup_lt_is_Some_2 seq (S i)) as [p2 Hp2]; [lia|].
  rewrite Hp2. simpl.
  pose proof (Forall_lookup_1 _ _ _ _ Hseq Hp1) as H1.
  pose proof (Forall_lookup_1 _ _ _ _ Hseq Hp2) as H2. simpl in H1, H2.
  destruct (set_cell_total n TF p1 p2) as [TF1 Hset]; [done..|].
  rewrite Hset. simpl. eapply IH; [done..|].
  by apply (set_cell_Ok n) in Hset as (_ & _ & Hsq1 & _); [|done|lia|lia].
Qed.

Section TransitionMatrix2.
Context `{UC : Unicode}.

(** X6. Without [n_states] the matrix is always large enough: every
    sequence that [char2num] accepts gives a matrix, except the empty one,
    which ends in [ValueError]. *)
Theorem seq2tf_default_n_states (sequence : char_seq) (seq : list Z) :
  char2num sequence = Ok seq →
  (seq = [] → seq2tf sequence None = Raise ValueError)
  ∧ (seq ≠ [] → ∃ TF, seq2tf sequence None = Ok TF).
Proof.
  intros Hseq. unfold seq2tf. rewrite Hseq. simpl. split.
  - by intros ->.
  - intros Hne. destruct (py_max seq) as [m| |] eqn:Hm; simpl.
    2,3: destruct seq; [done|discriminate].
    pose proof (char2num_range _ _ Hseq) as [_ Hrange].
    pose proof (py_max_bound _ _ Hm) as Hmax.
    assert (Hm0 : 0 <= m).
    { destruct seq as [|c seq]; [done|].
      apply Forall_cons in Hrange as [Hc _]. apply Forall_cons in Hmax as [Hc' _].
      lia. }
    destruct (Z.ltb_spec (m + 1) 0); [lia|].
    destruct (seq2tf_loop_total (Z.to_nat (m + 1)) seq 0 seq
                (replicate (Z.to_nat (m + 1)) (replicate (Z.to_nat (m + 1)) 0)))
      as [TF HTF].
    + by rewrite drop_0.
    + apply Forall_forall. intros c Hc.
      rewrite Forall_forall in Hrange, Hmax.
      specialize (Hrange c Hc). specialize (Hmax c Hc). simpl in *. lia.
    + apply (marks_zeros _ seq).
    + rewrite HTF. simpl. eauto.
Qed.

(** X7. An [n_states] that some symbol of a sequence of two or more
    symbols reaches or exceeds ends in [IndexError]. *)
Theorem seq2tf_n_states_too_small (sequence : char_seq) (seq : list Z) (n : Z) :
  char2num sequence = Ok seq → (2 <= length seq)%nat → 0 <= n →
  Exists (fun c => n <= c) seq →
  seq2tf sequence (Some n) = Raise IndexError.
Proof.
  intros Hseq Hlen Hn Hex. unfold seq2tf. rewrite Hseq. simpl.
  destruct (Z.ltb_spec n 0); [lia|].
  set (TF0 := replicate (Z.to_nat n) (replicate (Z.to_nat n) 0)).
  destruct (seq2tf_loop_cases seq 0 seq TF0) as [[TF HTF]| ->]; [|done].
  exfalso.
  pose proof (char2num_range _ _ Hseq) as [_ Hrange].
  apply (seq2tf_loop_Ok (Z.to_nat n)) in HTF as (_ & Hin & _).
  2:{ by rewrite drop_0. }
  2:{ eapply Forall_impl; [exact Hrange|]. intros c Hc. simpl in Hc. lia. }
  2:{ apply marks_zeros. }
  apply Exists_exists in Hex as (c & Hc & Hbig).
  apply list_elem_of_lookup_1 in Hc as (j & Hj).
  pose proof (lookup_lt_Some _ _ _ Hj) as Hjlt.
  destruct (decide (S j < length seq)%nat) as [Hlast|Hlast].
  - destruct (lookup_lt_is_Some_2 seq (S j) Hlast) as [d Hd].
    destruct (Hin c d) as [Hc' _]; [|lia].
    exists j. split; [lia|done].
  - destruct j as [|j]; [lia|].
    destruct (lookup_lt_is_Some_2 seq j) as [d Hd]; [lia|].
    destruct (Hin d c) as [_ Hc']; [|lia].
    exists j. split; [lia|done].
Qed.

End TransitionMatrix2.

Lemma seq2tf_marks_neighbours_witness :
  seq2tf (UC := plain_unicode) (SeqStr (str "ABCA")) None = Ok cycle3
  ∧ ∃ seq n,
      char2num (UC := plain_unicode) (SeqStr (str "ABCA")) = Ok seq
      ∧ py_max seq = Ok (n - 1)
      ∧ 0 <= n
      ∧ length cycle3 = Z.to_nat n
      ∧ Forall (fun row => length row = Z.to_nat n) cycle3
      ∧ ∀ a b, 0 <= a < n → 0 <= b < n →
          (adjacent seq a b → mcell cycle3 a b = Some 1%Q)
          ∧ (¬ adjacent seq a b → mcell cycle3 a b = Some 0%Q).
Proof.
  assert (H : seq2tf (UC := plain_unicode) (SeqStr (str "ABCA")) None
              = Ok cycle3) by (vm_compute; reflexivity).
  split; [exact H|].
  exact (seq2tf_marks_neighbours (UC := plain_unicode) _ None cycle3 H).
Defined.

Lemma seq2tf_default_n_states_witness :
  char2num (UC := plain_unicode) (SeqStr (str "ACB")) = Ok [0; 2; 1]
  ∧ ∃ TF, seq2tf (UC := plain_unicode) (SeqStr (str "ACB")) None = Ok TF.
Proof.
  assert (H : char2num (UC := plain_unicode) (SeqStr (str "ACB"))
              = Ok [0; 2; 1]) by (vm_compute; reflexivity).
  split; [exact H|].
  apply (seq2tf_default_n_states (UC := plain_unicode) _ [0; 2; 1] H).
  discriminate.
Defined.

Lemma seq2tf_n_states_too_small_witness :
  seq2tf (UC := plain_unicode) (SeqStr (str "ABC")) (Some 2)
  = Raise IndexError.
Proof.
  apply (seq2tf_n_states_too_small (UC := plain_unicode) _ [0; 1; 2] 2).
  - vm_compute; reflexivity.
  - simpl. lia.
  - lia.
  - apply Exists_cons_tl, Exists_cons_tl, Exists_cons_hd. lia.
Defined.


(** ** The sampler: the rows it returns *)

Lemma py_index_Some (len i : Z) (j : nat) :
  py_index len i = Some j → (Z.of_nat j < len).
Proof.
  unfold py_index.
  destruct (Z.leb_spec 0 i), (Z.ltb_spec i len); simpl; try (intros [= <-]; lia).
  all: destruct (Z.leb_spec (- len) i), (Z.ltb_spec i 0); simpl;
    try done; intros [= <-]; lia.
Qed.

Lemma fancy_index_Some {B : Type} (a : list B) (idx : list Z) (sel : list B) :
  fancy_index a idx = Some sel ↔
  Forall2 (fun i b => ∃ j, py_index (Z.of_nat (length a)) i = Some j
                            ∧ a !! j = Some b) idx sel.
Proof.
  unfold fancy_index. rewrite mapM_Some.
  split; intros HF; (eapply Forall2_impl; [exact HF|]); intros i b.
  - simpl. intros H. destruct (py_index _ i) as [j|]; [|discriminate H].
    exists j. split; [done|exact H].
  - simpl. intros (j & -> & Hj). exact Hj.
Qed.

Lemma fancy_index_identity {B : Type} (a : list B) :
  fancy_index a (arange 0 (Z.of_nat (length a))) = Some a.
Proof.
  apply fancy_index_Some. apply Forall2_same_length_lookup_2.
  { rewrite arange_length. lia. }
  intros i v b Hv Hb. apply arange_lookup in Hv as ->.
  pose proof (lookup_lt_Some _ _ _ Hb).
  exists i. split; [|done]. unfold py_index.
  rewrite (proj2 (Z.leb_le _ _)), (proj2 (Z.ltb_lt _ _)) by lia. simpl.
  f_equal. lia.
Qed.

(** Selecting from two lists related item by item gives related rows. *)
Lemma fancy_index_Forall2 {B C : Type} (R : B → C → Prop) (a : list B)
    (x : list C) (idx : list Z) (sel : list B) (row : list C) :
  Forall2 R a x → fancy_index a idx = Some sel → fancy_index x idx = Some row →
  Forall2 R sel row.
Proof.
  intros Hax Hsel Hrow. pose proof (Forall2_length _ _ _ Hax) as Hlen.
  apply fancy_index_Some in Hsel, Hrow. rewrite <- Hlen in Hrow.
  revert row Hrow. induction Hsel as [|i b idx sel (j & Hj & Hb) _ IH];
    intros row Hrow.
  - apply Forall2_nil_inv_l in Hrow as ->. constructor.
  - apply Forall2_cons_inv_l in Hrow as (c & row' & (j' & Hj' & Hc) & Hrow & ->).
    constructor; [|by apply IH].
    rewrite Hj in Hj'. injection Hj' as <-.
    by eapply Forall2_lookup_lr.
Qed.

Section SamplerRows.
Context `{RT : Runtime} {A : Type} `{OA : Ord A}.

Lemma sample_loop_linked fuel n x k u pInds Perms g pInds' Perms' g' :
  sample_loop fuel n x k u pInds Perms g = Ok (pInds', Perms', g') →
  Z.of_nat u <= k - 1 →
  length pInds = Z.to_nat k → length Perms = Z.to_nat k →
  rows_linked x u pInds Perms →
  rows_linked x (Z.to_nat k - 1) pInds' Perms'.
Proof.
  revert u pInds Perms g.
  induction fuel as [|fuel IH]; intros u pInds Perms g; simpl.
  - destruct (Z.ltb_spec (Z.of_nat u) (k - 1)) as [Hlt|Hge]; [done|].
    intros [= <- <- <-] Hu _ _ Hl. by replace (Z.to_nat k - 1)%nat with u by lia.
  - destruct (Z.ltb_spec (Z.of_nat u) (k - 1)) as [Hlt|Hge].
    2:{ intros [= <- <- <-] Hu _ _ Hl.
        by replace (Z.to_nat k - 1)%nat with u by lia. }
    destruct (permutation n g) as [pInd g1]. intros H Hu Hl1 Hl2 Hl.
    apply obind_Ok in H as (row & Hrow & H). apply from_option_Ok in Hrow.
    destruct (row_in row Perms).
    + by eapply IH.
    + eapply IH; [exact H|lia|by rewrite length_insert..|].
      intros j Hj Hjl. rewrite length_insert in Hjl.
      destruct (decide (j = S u)) as [->|Hne].
      * exists pInd, row. rewrite !list_lookup_insert_eq by lia. done.
      * rewrite !list_lookup_insert_ne by done. apply Hl; lia.
Qed.

Lemma materialise_rows (X : list A) pInds js out out' :
  materialise X pInds js out = Ok out' →
  ∀ j, (j < length out)%nat →
       (j ∈ js → ∃ p, pInds !! j = Some p ∧ fancy_index X p = out' !! j)
       ∧ (j ∉ js → out' !! j = out !! j).
Proof.
  revert out. induction js as [|i js IH]; intros out H j Hj; simpl in H.
  - injection H as <-. split; [by intros ?%elem_of_nil|done].
  - apply obind_Ok in H as (p & Hp & H). apply from_option_Ok in Hp.
    apply obind_Ok in H as (sel & Hsel & H). apply from_option_Ok in Hsel.
    specialize (IH _ H j). rewrite length_insert in IH.
    destruct (IH Hj) as [IH1 IH2]. split.
    + intros Hin. destruct (decide (j ∈ js)) as [Hjs|Hjs]; [by apply IH1|].
      apply elem_of_cons in Hin as [->|Hin]; [|done].
      exists p. split; [done|]. rewrite IH2 by done.
      by rewrite list_lookup_insert_eq.
    + intros Hin. apply not_elem_of_cons in Hin as [Hne Hin].
      rewrite IH2 by done. by rewrite list_lookup_insert_ne.
Qed.

(** Codes of the rows of a returning run, row by row. *)
Lemma uperms_trace_rows (X : list A) k fuel g r g' :
  uperms_trace X k fuel g = Ok (r, g') →
  ∃ x, Forall2 (fun a z => Z.of_nat <$> list_index a (np_unique X).1 = Some z) X x
       ∧ ∀ j, (j < length (run_pInds r))%nat →
              ∃ p row sel, run_pInds r !! j = Some p
                           ∧ run_codes r !! j = Some row
                           ∧ run_Perms r !! j = Some sel
                           ∧ fancy_index x p = Some row
                           ∧ fancy_index X p = Some sel.
Proof.
  unfold uperms_trace. intros H.
  apply obind_Ok in H as ([] & _ & H).
  destruct (np_unique X) as [uniques c] eqn:Hun. simpl.
  apply obind_Ok in H as (x & Hx & H). apply from_option_Ok, mapM_Some in Hx.
  apply obind_Ok in H as (nPerms & _ & H).
  set (kk := match k with
             | None => nPerms
             | Some k => if k >? nPerms then nPerms else k
             end) in *.
  destruct (Z.ltb_spec kk 0) as [|Hneg]; [done|].
  destruct (Z.eqb_spec kk 0) as [|Hzero]; [done|].
  apply obind_Ok in H as ([[pInds codes] g1] & Hloop & H).
  apply obind_Ok in H as (out & Hmat & H).
  injection H as <- <-. simpl. exists x. split; [done|].
  pose proof (Forall2_length _ _ _ Hx) as Hxl.
  pose proof (sample_loop_frame _ _ _ _ _ _ _ _ _ _ _ Hloop)
    as (Hl1 & Hl2 & Hp0 & _).
  rewrite length_insert, length_replicate in Hl1, Hl2.
  pose proof (materialise_frame _ _ _ _ _ Hmat) as [Hm1 Hm0].
  { apply Forall_forall. intros j Hj. apply elem_of_seq in Hj. lia. }
  rewrite length_replicate in Hm1.
  apply sample_loop_linked in Hloop; [|lia|by rewrite length_insert, length_replicate..|].
  2:{ intros j Hj _. assert (j = 0%nat) as -> by lia.
      exists (arange 0 (Z.of_nat (length X))), x.
      rewrite !list_lookup_insert_eq by (rewrite length_replicate; lia).
      split; [done|]. split; [done|].
      rewrite Hxl. apply fancy_index_identity. }
  intros j Hj. destruct (Hloop j) as (p & row & Hp & Hrow & Hfi); [lia|lia|].
  pose proof (materialise_rows _ _ _ _ _ Hmat j) as Hrows.
  rewrite length_replicate in Hrows. destruct Hrows as [Hin Hout]; [lia|].
  destruct (decide (j = 0)%nat) as [->|Hj0].
  - exists p, row, X. split; [done|]. split; [done|].
    rewrite Hout by (rewrite elem_of_seq; lia).
    split; [apply lookup_replicate_2; lia|]. split; [done|].
    rewrite Hp0, list_lookup_insert_eq in Hp by (rewrite length_replicate; lia).
    injection Hp as <-. apply fancy_index_identity.
  - destruct Hin as (p' & Hp' & Hsel); [rewrite elem_of_seq; lia|].
    rewrite Hp in Hp'. injection Hp' as <-.
    destruct (lookup_lt_is_Some_2 out j) as [sel Hs]; [lia|].
    exists p, row, sel. rewrite Hs in Hsel. done.
Qed.

(** The index rows and the permuted outputs of a returning run are
    pairwise distinct. *)
Lemma uperms_trace_distinct (X : list A) k fuel g r g' :
  uperms_trace X k fuel g = Ok (r, g') →
  NoDup (run_pInds r) ∧ NoDup (run_Perms r).
Proof.
  intros H. pose proof (uperms_trace_rows _ _ _ _ _ _ H) as (x & Hx & Hrows).
  pose proof (uperms_trace_Ok _ _ _ _ _ _ H) as (_ & Hl1 & Hl2 & _ & _ & Hnd).
  rewrite NoDup_alt in Hnd.
  split; apply NoDup_alt; intros i j v Hi Hj.
  - pose proof (lookup_lt_Some _ _ _ Hi) as Hil.
    pose proof (lookup_lt_Some _ _ _ Hj) as Hjl.
    destruct (Hrows i) as (p & row & _ & Hp & Hrow & _ & Hf & _); [lia|].
    destruct (Hrows j) as (p' & row' & _ & Hp' & Hrow' & _ & Hf' & _); [lia|].
    rewrite Hi in Hp. rewrite Hj in Hp'. simplify_eq.
    eapply Hnd; [exact Hrow|]. by rewrite Hrow'.
  - pose proof (lookup_lt_Some _ _ _ Hi) as Hil.
    pose proof (lookup_lt_Some _ _ _ Hj) as Hjl. rewrite Hl2, <- Hl1 in Hil, Hjl.
    destruct (Hrows i) as (p & row & sel & _ & Hrow & Hsel & Hf & Hg); [lia|].
    destruct (Hrows j) as (p' & row' & sel' & _ & Hrow' & Hsel' & Hf' & Hg'); [lia|].
    rewrite Hi in Hsel. rewrite Hj in Hsel'. simplify_eq.
    pose proof (fancy_index_Forall2 _ _ _ _ _ _ Hx Hg Hf) as H1.
    pose proof (fancy_index_Forall2 _ _ _ _ _ _ Hx Hg' Hf') as H2.
    assert (row = row') as <-.
    { clear -H1 H2. revert row' H2.
      induction H1 as [|a z sel row Haz _ IH]; intros row' H2.
      - by apply Forall2_nil_inv_l in H2.
      - apply Forall2_cons_inv_l in H2 as (z' & row2 & Haz' & H2 & ->).
        f_equal; [congruence|by apply IH]. }
    by eapply Hnd.
Qed.

End SamplerRows.


Lemma sorted_insert_perm (v : Z) (l : list Z) : sorted_insert v l ≡ₚ v :: l.
Proof.
  induction l as [|w l IH]; simpl; [done|].
  destruct (v <=? w); [done|]. rewrite IH. apply Permutation_swap.
Qed.

Lemma sorted_perm (l : list Z) : sorted l ≡ₚ l.
Proof.
  unfold sorted. induction l as [|v l IH]; simpl; [done|].
  by rewrite sorted_insert_perm, IH.
Qed.

(** The scripted generator only ever hands out permutations. *)
Lemma scripted_permutation_perm (n : nat) (s : script) :
  (scripted_permutation n s).1 ≡ₚ arange 0 (Z.of_nat n).
Proof.
  unfold scripted_permutation. destruct (perms s) as [|p ps]; simpl; [done|].
  case_bool_decide as E; [|done]. rewrite <- E. symmetry. apply sorted_perm.
Qed.

Lemma fancy_index_perm {B : Type} (a : list B) (p q : list Z) (sel : list B) :
  p ≡ₚ q → fancy_index a p = Some sel →
  ∃ sel', fancy_index a q = Some sel' ∧ sel ≡ₚ sel'.
Proof.
  unfold fancy_index. generalize (fun i => j ← py_index (Z.of_nat (length a)) i; a !! j).
  intros f Hpq. revert sel.
  induction Hpq as [|i p q _ IH|i i' p|p q r _ IH1 _ IH2]; intros sel H.
  - exists sel. done.
  - simpl in *. destruct (f i) as [b|]; simpl in *; [|done].
    destruct (mapM f p) as [bs|] eqn:E; simpl in *; [|done].
    injection H as <-. destruct (IH bs eq_refl) as (sel' & -> & Hs).
    simpl. eexists. split; [done|]. by constructor.
  - simpl in *. destruct (f i') as [b'|]; simpl in *; [|done].
    destruct (f i) as [b|]; simpl in *; [|done].
    destruct (mapM f p) as [bs|]; simpl in *; [|done].
    injection H as <-. eexists. split; [done|]. apply Permutation_swap.
  - destruct (IH1 _ H) as (s1 & H1 & P1). destruct (IH2 _ H1) as (s2 & H2 & P2).
    exists s2. split; [done|]. by etrans.
Qed.

Section SamplerPermutations.
Context `{RT : Runtime} {A : Type} `{OA : Ord A}.
Hypothesis permutation_perm :
  ∀ n g, (permutation n g).1 ≡ₚ arange 0 (Z.of_nat n).

Lemma sample_loop_perms fuel n x k u pInds Perms g pInds' Perms' g' :
  sample_loop fuel n x k u pInds Perms g = Ok (pInds', Perms', g') →
  Z.of_nat u <= k - 1 → length pInds = Z.to_nat k →
  (∀ j p, (j <= u)%nat → pInds !! j = Some p → p ≡ₚ arange 0 (Z.of_nat n)) →
  ∀ j p, pInds' !! j = Some p → p ≡ₚ arange 0 (Z.of_nat n).
Proof.
  revert u pInds Perms g.
  assert (Hexit : ∀ u (pInds : list (list Z)),
    k - 1 <= Z.of_nat u → Z.of_nat u <= k - 1 → length pInds = Z.to_nat k →
    (∀ j p, (j <= u)%nat → pInds !! j = Some p → p ≡ₚ arange 0 (Z.of_nat n)) →
    ∀ j p, pInds !! j = Some p → p ≡ₚ arange 0 (Z.of_nat n)).
  { intros u pInds H1 H2 Hl Hp j p Hj. eapply Hp; [|exact Hj].
    apply lookup_lt_Some in Hj. lia. }
  induction fuel as [|fuel IH]; intros u pInds Perms g; simpl.
  - destruct (Z.ltb_spec (Z.of_nat u) (k - 1)) as [Hlt|Hge]; [done|].
    intros [= <- <- <-]. by apply Hexit.
  - destruct (Z.ltb_spec (Z.of_nat u) (k - 1)) as [Hlt|Hge];
      [|intros [= <- <- <-]; by apply Hexit].
    pose proof (permutation_perm n g) as Hperm.
    destruct (permutation n g) as [pInd g1]. simpl in Hperm.
    intros H Hu Hl Hp.
    apply obind_Ok in H as (row & _ & H).
    destruct (row_in row Perms).
    + by eapply IH.
    + eapply IH; [exact H|lia|by rewrite length_insert|].
      intros j p Hj Hlk. destruct (decide (j = S u)) as [->|Hne].
      * rewrite list_lookup_insert_eq in Hlk by lia. by injection Hlk as <-.
      * rewrite list_lookup_insert_ne in Hlk by done. eapply Hp; [|done]. lia.
Qed.

(** With a generator that draws permutations, every index row is a
    permutation of [0 .. n-1] and every output a rearrangement of [X]. *)
Lemma uperms_trace_perms (X : list A) k fuel g r g' :
  uperms_trace X k fuel g = Ok (r, g') →
  Forall (fun p => p ≡ₚ arange 0 (Z.of_nat (length X))) (run_pInds r)
  ∧ Forall (fun sel => sel ≡ₚ X) (run_Perms r).
Proof.
  intros H. pose proof (uperms_trace_rows _ _ _ _ _ _ H) as (x & Hx & Hrows).
  pose proof (uperms_trace_Ok _ _ _ _ _ _ H) as (_ & Hl1 & Hl2 & _).
  assert (Hp : ∀ j p, run_pInds r !! j = Some p →
                      p ≡ₚ arange 0 (Z.of_nat (length X))).
  { clear Hrows Hx. unfold uperms_trace in H.
    apply obind_Ok in H as ([] & _ & H).
    destruct (np_unique X) as [uniques c].
    apply obind_Ok in H as (x' & _ & H).
    apply obind_Ok in H as (nPerms & _ & H).
    set (kk := match k with
               | None => nPerms
               | Some k => if k >? nPerms then nPerms else k
               end) in *.
    destruct (Z.ltb_spec kk 0) as [|Hneg]; [done|].
    destruct (Z.eqb_spec kk 0) as [|Hzero]; [done|].
    apply obind_Ok in H as ([[pInds codes] g1] & Hloop & H).
    apply obind_Ok in H as (out & _ & H). injection H as <- <-. simpl.
    eapply sample_loop_perms; [exact Hloop|lia|by rewrite length_insert, length_replicate|].
    intros j p Hj Hlk. assert (j = 0%nat) as -> by lia.
    rewrite list_lookup_insert_eq in Hlk by (rewrite length_replicate; lia).
    by injection Hlk as <-. }
  split; apply Forall_lookup_2; intros j v Hv.
  - by eapply Hp.
  - pose proof (lookup_lt_Some _ _ _ Hv) as Hj.
    destruct (Hrows j) as (p & row & sel & Hpj & _ & Hsel & _ & Hfi); [lia|].
    rewrite Hv in Hsel. injection Hsel as <-.
    destruct (fancy_index_perm X p _ v (Hp j p Hpj) Hfi) as (sel' & Hid & Hperm).
    rewrite fancy_index_identity in Hid. by injection Hid as <-.
Qed.

End SamplerPermutations.


(** X8. Whenever [unique_permutations] returns, the index rows are
    pairwise distinct and so are the permuted outputs. *)
Theorem unique_permutations_outputs_distinct `{RT : Runtime} (X : ndarray)
    (k : option Z) (fuel : nat) (g : rng) (nPerms : Z)
    (pInds : list (list Z)) (Perms : perms_out) (g' : rng) :
  unique_permutations X k fuel g = Ok (nPerms, pInds, Perms, g') →
  NoDup pInds ∧ perms_distinct Perms.
Proof.
  intros H. destruct X as [v|rows]; simpl in H;
    apply obind_Ok in H as ([r g1] & Hrun & [= <- <- <- <-]);
    by apply uperms_trace_distinct in Hrun.
Qed.

(** X9. With a generator that draws permutations, every index row is a
    permutation of [0 .. n-1] and every output has the elements (rows) of
    [X], rearranged. *)
Theorem unique_permutations_rows_permute `{RT : Runtime} (X : ndarray)
    (k : option Z) (fuel : nat) (g : rng) (nPerms : Z)
    (pInds : list (list Z)) (Perms : perms_out) (g' : rng) :
  (∀ n g, (permutation n g).1 ≡ₚ arange 0 (Z.of_nat n)) →
  unique_permutations X k fuel g = Ok (nPerms, pInds, Perms, g') →
  Forall (fun p => p ≡ₚ arange 0 (Z.of_nat (ndarray_len X))) pInds
  ∧ perms_rearrange X Perms.
Proof.
  intros Hperm H. destruct X as [v|rows]; simpl in H;
    apply obind_Ok in H as ([r g1] & Hrun & [= <- <- <- <-]);
    by apply uperms_trace_perms in Hrun.
Qed.

(** X10. A returning call had more than one element to permute and gives
    [min(k, nPerms)] index rows ([nPerms] without [k]), at least one, and
    as many permuted outputs. *)
Theorem unique_permutations_row_count `{RT : Runtime} (X : ndarray)
    (k : option Z) (fuel : nat) (g : rng) (nPerms : Z)
    (pInds : list (list Z)) (Perms : perms_out) (g' : rng) :
  unique_permutations X k fuel g = Ok (nPerms, pInds, Perms, g') →
  (1 < ndarray_len X)%nat
  ∧ (1 <= length pInds)%nat
  ∧ Z.of_nat (length pInds) = match k with
                              | None => nPerms
                              | Some k => Z.min k nPerms
                              end
  ∧ perms_count Perms = length pInds.
Proof.
  intros H.
  assert (Hk : match k with
               | None => nPerms
               | Some k => if k >? nPerms then nPerms else k
               end = match k with
                     | None => nPerms
                     | Some k => Z.min k nPerms
                     end).
  { destruct k as [k|]; [|done]. destruct (Z.gtb_spec k nPerms); lia. }
  destruct X as [v|rows]; simpl in H;
    apply obind_Ok in H as ([r g1] & Hrun & [= <- <- <- <-]);
    pose proof (uperms_trace_nPerms _ _ _ _ _ _ Hrun) as [Hlen _];
    apply uperms_trace_Ok in Hrun as (Hpos & Hl1 & Hl2 & _);
    simpl in *; rewrite Hk in *; (split; [done|]); lia.
Qed.

(** X11. For up to 20 pairwise distinct elements (rows), the count
    [nPerms] a returning call gives is [n!]. *)
Theorem unique_permutations_count_distinct `{RT : Runtime} (X : ndarray)
    (k : option Z) (fuel : nat) (g : rng) (nPerms : Z)
    (pInds : list (list Z)) (Perms : perms_out) (g' : rng) :
  unique_permutations X k fuel g = Ok (nPerms, pInds, Perms, g') →
  elements_distinct X → (ndarray_len X <= 20)%nat →
  nPerms = factorial (Z.of_nat (ndarray_len X)).
Proof.
  intros H Hnd Hlen. destruct X as [v|rows]; simpl in *;
    apply obind_Ok in H as ([r g1] & Hrun & [= <- <- <- <-]);
    by eapply nPerms_distinct_small.
Qed.

Section Constant.
Context `{RT : Runtime} {A : Type} `{OA : Ord A} `{OS : !OrdSpec A}.

Lemma np_unique_replicate_full (n : nat) (a : A) :
  (0 < n)%nat → np_unique (replicate n a) = ([a], [Z.of_nat n]).
Proof.
  intros Hn. rewrite (surjective_pairing (np_unique _)).
  rewrite np_unique_replicate by done. f_equal. unfold np_unique. simpl.
  destruct n as [|n]; [lia|]. clear Hn.
  induction n as [|n IH]; simpl in *; [done|]. rewrite IH. simpl.
  assert (cmp a a = Eq) as -> by by apply cmp_eq. done.
Qed.

(** A constant input: one row, the identity, and no draw. *)
Lemma uperms_trace_constant (n : nat) (a : A) k fuel g :
  (2 <= n)%nat → (k = None ∨ ∃ k', k = Some k' ∧ 1 <= k') →
  uperms_trace (replicate n a) k fuel g
  = Ok ({| run_nPerms := 1;
           run_pInds := [arange 0 (Z.of_nat n)];
           run_codes := [replicate n 0];
           run_Perms := [replicate n a] |}, g).
Proof.
  intros Hn Hk. unfold uperms_trace.
  rewrite np_unique_replicate_full by lia. rewrite length_replicate.
  rewrite (proj2 (Z.ltb_lt _ _)) by lia. cbn [py_assert obind].
  assert (Hx : mapM (fun i => Z.of_nat <$> list_index i [a]) (replicate n a)
               = Some (replicate n 0)).
  { apply mapM_Some. apply Forall2_replicate. simpl.
    assert (eqb_ord a a = true) as -> by by apply eqb_ord_true. done. }
  rewrite Hx. cbn [from_option obind]. unfold sorted. cbn [foldr sorted_insert].
  rewrite n_perms_single. cbn [obind].
  assert (Hkk : match k with
                | None => 1
                | Some k => if k >? 1 then 1 else k
                end = 1).
  { destruct Hk as [->|(k' & -> & Hk')]; [done|].
    destruct (Z.gtb_spec k' 1); lia. }
  rewrite Hkk. simpl. by destruct fuel.
Qed.

End Constant.

(** X12. A constant vector, or a matrix of equal rows, has one
    permutation: the call returns the identity and [X] alone and draws
    nothing from the generator. *)
Theorem unique_permutations_constant `{RT : Runtime} (n : nat) (a : Z)
    (row : list Z) (k : option Z) (fuel : nat) (g : rng) :
  (2 <= n)%nat → (k = None ∨ ∃ k', k = Some k' ∧ 1 <= k') →
  unique_permutations (Vec (replicate n a)) k fuel g
  = Ok (1, [arange 0 (Z.of_nat n)], PermsVec [replicate n a], g)
  ∧ unique_permutations (Mat (replicate n row)) k fuel g
    = Ok (1, [arange 0 (Z.of_nat n)], PermsMat [replicate n row], g).
Proof.
  intros Hn Hk. unfold unique_permutations.
  by rewrite !uperms_trace_constant.
Qed.

Lemma unique_permutations_outputs_distinct_witness :
  unique_permutations (RT := sampler_rt) X112 None 10 draws112
    = Ok (3, out112.1, out112.2, perm_script [[1; 2; 0]])
  ∧ NoDup out112.1 ∧ perms_distinct out112.2.
Proof.
  split; [vm_compute; reflexivity|].
  apply (unique_permutations_outputs_distinct (RT := sampler_rt) X112 None 10
           draws112 3 _ _ (perm_script [[1; 2; 0]])).
  vm_compute; reflexivity.
Defined.

Lemma unique_permutations_rows_permute_witness :
  (∀ n g, (permutation (Runtime := sampler_rt) n g).1
          ≡ₚ arange 0 (Z.of_nat n))
  ∧ unique_permutations (RT := sampler_rt) X112 (Some 2) 10 draws112
    = Ok (3, [[0; 1; 2]; [2; 1; 0]], PermsVec [[1; 1; 2]; [2; 1; 1]],
          perm_script [[0; 2; 1]; [1; 2; 0]])
  ∧ Forall (fun p => p ≡ₚ arange 0 3) [[0; 1; 2]; [2; 1; 0]]
  ∧ perms_rearrange X112 (PermsVec [[1; 1; 2]; [2; 1; 1]]).
Proof.
  assert (Hp : ∀ n g, (permutation (Runtime := sampler_rt) n g).1
                      ≡ₚ arange 0 (Z.of_nat n))
    by exact scripted_permutation_perm.
  split; [exact Hp|]. split; [vm_compute; reflexivity|].
  apply (unique_permutations_rows_permute (RT := sampler_rt) X112 (Some 2) 10
           draws112 3 _ _ (perm_script [[0; 2; 1]; [1; 2; 0]]) Hp).
  vm_compute; reflexivity.
Defined.

Lemma unique_permutations_row_count_witness :
  unique_permutations (RT := sampler_rt) X112 (Some 2) 10 draws112
    = Ok (3, pInds112, PermsVec [[1; 1; 2]; [2; 1; 1]],
          perm_script [[0; 2; 1]; [1; 2; 0]])
  ∧ (1 < ndarray_len X112)%nat
  ∧ (1 <= length pInds112)%nat
  ∧ Z.of_nat (length pInds112) = Z.min 2 3
  ∧ perms_count (PermsVec [[1; 1; 2]; [2; 1; 1]]) = length pInds112.
Proof.
  split; [vm_compute; reflexivity|].
  apply (unique_permutations_row_count (RT := sampler_rt) X112 (Some 2) 10
           draws112 3 _ _ (perm_script [[0; 2; 1]; [1; 2; 0]])).
  vm_compute; reflexivity.
Defined.

Lemma unique_permutations_count_distinct_witness :
  unique_permutations (RT := sampler_rt) X012 (Some 2) 10 draws112
    = Ok (6, [[0; 1; 2]; [1; 0; 2]], PermsVec [[0; 1; 2]; [1; 0; 2]],
          perm_script [[2; 1; 0]; [0; 2; 1]; [1; 2; 0]])
  ∧ elements_distinct X012
  ∧ 6 = factorial (Z.of_nat (ndarray_len X012)).
Proof.
  assert (Hd : elements_distinct X012).
  { unfold elements_distinct, X012.
    apply (bool_decide_unpack (NoDup [0; 1; 2])). vm_compute. exact I. }
  split; [vm_compute; reflexivity|]. split; [exact Hd|].
  apply (unique_permutations_count_distinct (RT := sampler_rt) X012 (Some 2)
           10 draws112 6 [[0; 1; 2]; [1; 0; 2]]
           (PermsVec [[0; 1; 2]; [1; 0; 2]])
           (perm_script [[2; 1; 0]; [0; 2; 1]; [1; 2; 0]])).
  - vm_compute; reflexivity.
  - exact Hd.
  - simpl. lia.
Defined.

Lemma unique_permutations_constant_witness :
  unique_permutations (RT := sampler_rt) (Vec [7; 7; 7]) None 0 draws112
  = Ok (1, [[0; 1; 2]], PermsVec [[7; 7; 7]], draws112)
  ∧ unique_permutations (RT := sampler_rt) (Mat [[1; 2]; [1; 2]; [1; 2]])
      None 0 draws112
    = Ok (1, [[0; 1; 2]], PermsMat [[[1; 2]; [1; 2]; [1; 2]]], draws112).
Proof.
  apply (unique_permutations_constant (RT := sampler_rt) 3 7 [1; 2] None 0
           draws112).
  - lia.
  - left. reflexivity.
Defined.


(** ** The scheduler: where the trains may start *)

Lemma length_normalise (p : list (option Q)) : length (normalise p) = length p.
Proof.
  unfold normalise. destruct (fsum p) as [s|]; [destruct (Qeq_bool s 0)|];
    by rewrite length_map.
Qed.

Lemma length_zero_slice (p : list (option Q)) (lo hi : nat) :
  length (zero_slice p lo hi) = length p.
Proof. unfold zero_slice. by rewrite length_imap. Qed.

Lemma length_linspace (a b : Q) (n : nat) : length (linspace a b n) = n.
Proof.
  unfold linspace. destruct n as [|[|n]]; [done..|].
  by rewrite length_map, length_seq.
Qed.

Lemma length_initial_p (d : distribution) (n : nat) (p : list (option Q)) :
  initial_p d n = Ok p → length p = n.
Proof.
  destruct d as [s|shape vals]; simpl.
  - destruct (String.eqb s "constant").
    { intros [= <-]. by rewrite length_normalise, length_map, length_replicate. }
    destruct (String.eqb s "decreasing").
    { intros [= <-]. by rewrite length_normalise, length_map, length_linspace. }
    destruct (String.eqb s "increasing"); [|done].
    intros [= <-]. by rewrite length_normalise, length_map, length_linspace.
  - by destruct (_ <? _)%nat.
Qed.

Lemma available_indices_le (p : list (option Q)) :
  available_indices p <= Z.of_nat (length p).
Proof.
  unfold available_indices. apply inj_le.
  induction p as [|x p IH]; simpl; [done|].
  destruct (match x with Some v => Qlt_bool 0 v | None => false end); simpl; lia.
Qed.

Lemma np_choice_p_nonneg `{RT : Runtime} (p : list (option Q)) g idx g' :
  np_choice_p p g = Ok (idx, g') → 0 <= idx < Z.of_nat (length p).
Proof.
  unfold np_choice_p. destruct p as [|x p0]; [done|].
  set (p := x :: p0). intros H.
  apply obind_Ok in H as (q & _ & H).
  destruct (existsb _ q); [done|]. destruct (Qlt_bool _ _); [done|].
  destruct (random_sample g) as [u g1].
  destruct (_ <? _)%nat eqn:Hlt; [|done]. injection H as <- <-.
  apply Nat.ltb_lt in Hlt. lia.
Qed.

(** Inside the loop: one start per iteration, each with room for its
    footprint, and never more events left than offsets. *)
Lemma schedule_loop_bounds `{RT : Runtime} iter n_events lag n_steps span p
    starts g starts' g' :
  schedule_loop iter n_events lag n_steps span p starts g = Ok (starts', g') →
  length starts' = (length starts + length iter)%nat
  ∧ (Forall (fun s => 0 <= s ∧ s + (lag * n_steps + span) < Z.of_nat (length p))
       starts →
     Forall (fun s => 0 <= s ∧ s + (lag * n_steps + span) < Z.of_nat (length p))
       starts')
  ∧ Forall (fun i => n_events - i <= Z.of_nat (length p)) iter.
Proof.
  revert p starts g. induction iter as [|i iter IH]; intros p starts g H;
    simpl in H.
  - injection H as <- _. rewrite Nat.add_0_r. done.
  - apply obind_Ok in H as ([? g1] & _ & H).
    destruct (Z.ltb_spec (available_indices p) (n_events - i)) as [|Hav];
      [done|].
    apply obind_Ok in H as ([start_idx g2] & Hchoice & H).
    apply np_choice_p_nonneg in Hchoice.
    apply obind_Ok in H as ([] & Hend & H).
    apply py_assert_Ok, Z.ltb_lt in Hend.
    apply IH in H as (Hlen & Hb & Hit).
    rewrite length_normalise, length_zero_slice in Hb, Hit.
    rewrite length_app in Hlen. simpl in *. split; [lia|]. split.
    + intros Hs. apply Hb. apply Forall_app. split; [done|].
      apply Forall_singleton. lia.
    + constructor; [|done]. pose proof (available_indices_le p). lia.
Qed.

(** The whole schedule. *)
Lemma schedule_bounds `{RT : Runtime} d span n_events lag n_steps p g
    starts g' :
  schedule d span n_events lag n_steps p g = Ok (starts, g') →
  length starts = Z.to_nat n_events
  ∧ n_events <= Z.of_nat (length p)
  ∧ Forall (fun s => 0 <= s ∧ s + (lag * n_steps + span) < Z.of_nat (length p))
      starts.
Proof.
  unfold schedule. intros Hs.
  apply schedule_loop_bounds in Hs as (Hlen & Hb & Hit).
  rewrite length_normalise, length_zero_slice in Hb, Hit.
  rewrite arange_length in Hlen. simpl in Hlen.
  split; [by rewrite Hlen, Z.sub_0_r|]. split; [|apply Hb; constructor].
  destruct (Z.leb_spec n_events 0) as [|Hpos]; [lia|].
  assert (Hin : 0 ∈ arange 0 n_events).
  { apply list_elem_of_lookup. exists 0%nat. unfold arange.
    rewrite list_lookup_fmap.
    destruct (Z.to_nat (n_events - 0)) as [|m] eqn:E; [lia|]. done. }
  rewrite Forall_forall in Hit. specialize (Hit 0 Hin). simpl in Hit. lia.
Qed.

(** What a plan went through before it was returned. *)
Lemma insert_events_plan_inv `{RT : Runtime} data insert_data insert_labels
    n_events lag n_steps dist (σ : state) pl g :
  insert_events_plan data insert_data insert_labels n_events lag n_steps
    dist σ = Ok (pl, g) →
  ∃ seed g0 p,
    heap σ !! data = Some (plan_data pl)
    ∧ ins_len insert_data = Z.of_nat (length insert_labels)
    ∧ a2_cols (plan_data pl) = ins_shape1 insert_data
    ∧ check_distribution dist (a2_len (plan_data pl)) = Ok ()
    ∧ py_int (seed_text (hash_array (plan_data pl))) = Ok seed
    ∧ np_random_seed seed = Ok g0
    ∧ class_means (to_3d insert_data) insert_labels
      = Ok (plan_class_mean pl)
    ∧ plan_span pl = a3_dim2 (to_3d insert_data)
    ∧ initial_p dist (length (a2_rows (plan_data pl))) = Ok p
    ∧ schedule (plan_data pl) (Z.of_nat (plan_span pl)) n_events lag n_steps
        p g0 = Ok (replay_start_idxs pl, g).
Proof.
  unfold insert_events_plan. intros H.
  apply obind_Ok in H as (d & Hd & H). apply from_option_Ok in Hd.
  apply obind_Ok in H as ([] & Hl & H). apply py_assert_Ok, Z.eqb_eq in Hl.
  apply obind_Ok in H as ([] & Hc & H). apply py_assert_Ok, Nat.eqb_eq in Hc.
  apply obind_Ok in H as ([] & Hdist & H).
  apply obind_Ok in H as (seed & Hseed & H).
  apply obind_Ok in H as (g0 & Hg0 & H).
  apply obind_Ok in H as (class_mean & Hcm & H).
  apply obind_Ok in H as (p & Hp & H).
  apply obind_Ok in H as ([starts g1] & Hs & H).
  injection H as <- <-. simpl. by exists seed, g0, p.
Qed.

(** X13. A successful call has scheduled exactly [n_events] trains, each
    with [0 <= start] and [start + footprint < len(data)]; there are at
    most [len(data)] of them. *)
Theorem insert_events_starts_in_bounds `{RT : Runtime} data insert_data
    insert_labels n_events lag n_steps dist (σ : state) pl g :
  insert_events_plan data insert_data insert_labels n_events lag n_steps
    dist σ = Ok (pl, g) →
  length (replay_start_idxs pl) = Z.to_nat n_events
  ∧ n_events <= a2_len (plan_data pl)
  ∧ Forall (fun s => 0 <= s
                     ∧ s + footprint n_steps lag (plan_span pl)
                       < a2_len (plan_data pl))
      (replay_start_idxs pl).
Proof.
  intros H.
  apply insert_events_plan_inv in H
    as (seed & g0 & p & _ & _ & _ & _ & _ & _ & _ & _ & Hp & Hs).
  apply length_initial_p in Hp.
  apply schedule_bounds in Hs as (Hlen & Hn & Hb). rewrite Hp in Hn, Hb.
  split; [done|]. split; [done|].
  unfold footprint, a2_len. eapply Forall_impl; [exact Hb|].
  intros s Hs. simpl in Hs. lia.
Qed.

Lemma insert_events_starts_in_bounds_witness :
  ∃ pl g,
    insert_events_plan (RT := rt6) 0 insert6 [0; 1] 2 1 1
      (DistStr "constant") state6 = Ok (pl, g)
    ∧ replay_start_idxs pl = [1; 0]
    ∧ length (replay_start_idxs pl) = Z.to_nat 2
    ∧ 2 <= a2_len (plan_data pl)
    ∧ Forall (fun s => 0 <= s
                       ∧ s + footprint 1 1 (plan_span pl)
                         < a2_len (plan_data pl))
        (replay_start_idxs pl).
Proof.
  assert (Hrun : ∃ pl g, insert_events_plan (RT := rt6) 0 insert6 [0; 1] 2 1 1
                           (DistStr "constant") state6 = Ok (pl, g)
                         ∧ replay_start_idxs pl = [1; 0]).
  { do 2 eexists. split; vm_compute; reflexivity. }
  destruct Hrun as (pl & g & Hrun & Hstarts). exists pl, g.
  split; [exact Hrun|]. split; [exact Hstarts|].
  exact (insert_events_starts_in_bounds (RT := rt6) 0 insert6 [0; 1] 2 1 1
           (DistStr "constant") state6 pl g Hrun).
Defined.

Lemma unit_sample_range (s : script) : (0 <= (unit_sample s).1 < 1)%Q.
Proof.
  unfold unit_sample. destruct (scripted_sample s) as [u s']. simpl.
  destruct (Qle_bool 0 u) eqn:E0; simpl; [|done].
  destruct (Qlt_bool u 1) eqn:E1; [|done].
  apply Qle_bool_iff in E0. unfold Qlt_bool in E1.
  apply negb_true_iff in E1. split; [done|].
  apply Qnot_le_lt. intros Hle. apply Qle_bool_iff in Hle. congruence.
Qed.

(** X14. With uniform samples in [[0, 1)], no train starts inside the
    interval of a train scheduled before it, and no two trains start at
    the same offset when the footprint is positive. *)
Theorem insert_events_starts_apart `{RT : Runtime} data insert_data
    insert_labels n_events lag n_steps dist (σ : state) pl g :
  (∀ g0, (0 <= (random_sample g0).1 < 1)%Q) →
  insert_events_plan data insert_data insert_labels n_events lag n_steps
    dist σ = Ok (pl, g) →
  later_outside (footprint n_steps lag (plan_span pl)) (replay_start_idxs pl)
  ∧ (1 <= footprint n_steps lag (plan_span pl) →
     NoDup (replay_start_idxs pl)).
Proof.
  intros Hu H.
  pose proof (insert_events_later_start_outside Hu _ _ _ _ _ _ _ _ _ _ H)
    as Hout.
  split; [done|]. intros Hfp. apply NoDup_alt. intros i j s Hi Hj.
  destruct (Nat.lt_trichotomy i j) as [Hlt|[->|Hlt]]; [|done|].
  - exfalso. apply (Hout i j s s Hlt Hi Hj). lia.
  - exfalso. apply (Hout j i s s Hlt Hj Hi). lia.
Qed.

Lemma insert_events_starts_apart_witness :
  (∀ g0, (0 <= (random_sample (Runtime := rt6u) g0).1 < 1)%Q)
  ∧ ∃ pl g,
      insert_events_plan (RT := rt6u) 0 insert6 [0; 1] 2 1 1
        (DistStr "constant") state6u = Ok (pl, g)
      ∧ replay_start_idxs pl = [1; 0]
      ∧ later_outside (footprint 1 1 (plan_span pl)) (replay_start_idxs pl)
      ∧ (1 <= footprint 1 1 (plan_span pl) → NoDup (replay_start_idxs pl)).
Proof.
  assert (Hu : ∀ g0, (0 <= (random_sample (Runtime := rt6u) g0).1 < 1)%Q)
    by exact unit_sample_range.
  assert (Hrun : ∃ pl g, insert_events_plan (RT := rt6u) 0 insert6 [0; 1] 2 1 1
                           (DistStr "constant") state6u = Ok (pl, g)
                         ∧ replay_start_idxs pl = [1; 0]).
  { do 2 eexists. split; vm_compute; reflexivity. }
  split; [exact Hu|].
  destruct Hrun as (pl & g & Hrun & Hstarts). exists pl, g.
  split; [exact Hrun|]. split; [exact Hstarts|].
  exact (insert_events_starts_apart (RT := rt6u) 0 insert6 [0; 1] 2 1 1
           (DistStr "constant") state6u pl g Hu Hrun).
Defined.


(** ** The onset table *)

Lemma Forall_head_tail {B : Type} (P : B → Prop) (l : list B) :
  (∀ b, head l = Some b → P b) → Forall P (tail l) → Forall P l.
Proof. destruct l as [|b l]; [done|]. intros Hh Ht. constructor; auto. Qed.

Section OnsetFacts.
Context `{RT : Runtime}.

Lemma inject_steps_rows steps data_sim idx sequence class_mean span lag
    jitter pos seq_i smp_jitter events σ events' σ' :
  0 <= seq_i →
  inject_steps steps data_sim idx sequence class_mean span lag jitter
    pos seq_i smp_jitter events σ = Ok (events', σ') →
  ∃ new, events' = events ++ new
    ∧ map ev_step new = steps
    ∧ Forall (fun e => ev_idx e = idx ∧ ev_span e = Z.of_nat span) new
    ∧ (∀ e, head new = Some e → ev_pos e = pos ∧ ev_jitter e = smp_jitter)
    ∧ (∀ i e e', new !! i = Some e → new !! S i = Some e' →
         ev_pos e' = ev_pos e + lag + ev_jitter e')
    ∧ (∀ i e, new !! i = Some e →
         sequence !! (Z.to_nat seq_i + i)%nat = Some (ev_class_idx e))
    ∧ (new ≠ [] → 0 <= jitter)
    ∧ (jitter = 0 → Forall (fun e => ev_jitter e = 0) (tail new))
    ∧ (randint_in_range →
       Forall (fun e => - jitter <= ev_jitter e <= jitter) (tail new)).
Proof.
  revert pos seq_i smp_jitter events σ.
  induction steps as [|step steps IH];
    intros pos seq_i smp_jitter events σ Hseq H; simpl in H.
  - injection H as <- <-. exists []. rewrite app_nil_r.
    repeat split; try done; try by constructor.
  - apply obind_Ok in H as (j & Hj & H). apply from_option_Ok in Hj.
    apply py_index_nonneg in Hj as [-> _]; [|done].
    apply obind_Ok in H as (class_idx & Hcls & H).
    apply from_option_Ok in Hcls.
    apply obind_Ok in H as (c & _ & H).
    apply obind_Ok in H as (tpl & _ & H).
    apply obind_Ok in H as (a0 & _ & H).
    apply obind_Ok in H as (a1 & _ & H).
    apply obind_Ok in H as ([j' g] & Hdraw & H).
    apply IH in H as (new & -> & Hst & Hrows & Hhd & Hchain & Hcl & _ & Hz & Hr);
      [|lia].
    assert (Hjit : 0 <= jitter
                   ∧ (jitter = 0 → j' = 0)
                   ∧ (randint_in_range → - jitter <= j' <= jitter)).
    { destruct (Z.eqb_spec jitter 0) as [->|Hne].
      - injection Hdraw as <- _. repeat split; intros; lia.
      - destruct (Z.ltb_spec (- jitter) (jitter + 1)); [|done].
        split; [lia|]. split; [done|]. intros Hrange.
        specialize (Hrange (- jitter) (jitter + 1) (gen σ)).
        destruct (randint _ _ _) as [r g0]. injection Hdraw as <- _.
        simpl in Hrange. lia. }
    destruct Hjit as (Hj0 & Hjz & Hjr).
    eexists (_ :: new). rewrite <- app_assoc. simpl.
    split; [reflexivity|]. split; [by rewrite Hst|].
    split; [by constructor|]. split; [by intros e [= <-]|].
    split; [|split; [|split; [|split]]].
    + intros [|i] e e' He He'; simpl in *.
      * injection He as <-. simpl.
        destruct (Hhd e') as [-> ->]; [by destruct new; simplify_eq|]. lia.
      * by eapply Hchain.
    + intros [|i] e He; simpl in *.
      * injection He as <-. simpl. by rewrite Nat.add_0_r.
      * apply Hcl in He. rewrite <- He. f_equal. lia.
    + done.
    + intros Hz0. apply Forall_head_tail; [|by apply Hz].
      intros e He. apply Hhd in He as [_ ->]. by apply Hjz.
    + intros Hrange. apply Forall_head_tail; [|by apply Hr].
      intros e He. apply Hhd in He as [_ ->]. by apply Hjr.
Qed.

Lemma inject_trains_rows starts idx data_sim sequence class_mean span lag
    jitter n_steps events σ events' σ' :
  inject_trains starts idx data_sim sequence class_mean span lag jitter
    n_steps events σ = Ok (events', σ') →
  ∃ trains, events' = events ++ concat trains
    ∧ length trains = length starts
    ∧ ∀ t start rows, starts !! t = Some start → trains !! t = Some rows →
        train_rows sequence span lag jitter n_steps (idx + Z.of_nat t)
          start rows
        ∧ (randint_in_range →
           Forall (fun e => - jitter <= ev_jitter e <= jitter) rows).
Proof.
  revert idx events σ.
  induction starts as [|start_idx starts IH]; intros idx events σ H;
    simpl in H.
  - injection H as <- <-. exists []. simpl. rewrite app_nil_r.
    split; [done|]. split; [done|]. intros t start rows Hs. by rewrite lookup_nil in Hs.
  - destruct (Z.leb_spec (Z.of_nat (length sequence) - n_steps) 0) as [|Hm];
      [discriminate|].
    destruct (randint _ _ _) as [r g].
    apply obind_Ok in H as (j & Hj & H). apply from_option_Ok in Hj.
    apply py_index_Some in Hj.
    apply obind_Ok in H as ([ev1 σ1] & Hsteps & H).
    apply inject_steps_rows in Hsteps
      as (new & -> & Hst & Hrows & Hhd & Hchain & Hcl & Hj0 & Hz & Hr);
      [|lia].
    apply IH in H as (trains & -> & Hlen & Htr).
    exists (new :: trains). simpl. rewrite app_assoc.
    split; [done|]. split; [by rewrite Hlen|].
    intros [|t] start rows Hs Ht; simpl in *.
    + injection Hs as <-. injection Ht as <-.
      replace (idx + Z.of_nat 0) with idx by lia. split.
      * split; [done|]. split; [done|]. split; [done|]. split; [done|].
        split; [|split; [done|]].
        -- exists j. split; [lia|]. intros i e He. apply Hcl in He.
           by rewrite Nat2Z.id in He.
        -- intros Hz0. apply Forall_head_tail; [|by apply Hz].
           intros e He. by apply Hhd in He as [_ ->].
      * intros Hrange. apply Forall_head_tail; [|by apply Hr].
        intros e He.
        assert (0 <= jitter) by (apply Hj0; by destruct new).
        apply Hhd in He as [_ ->]. lia.
    + replace (idx + Z.of_nat (S t)) with (idx + 1 + Z.of_nat t) by lia.
      by apply Htr.
Qed.

End OnsetFacts.

Lemma concat_uniform_lookup {B : Type} (m : nat) (ls : list (list B))
    (t i : nat) :
  Forall (fun l => length l = m) ls → (i < m)%nat →
  concat ls !! (t * m + i)%nat = ls !! t ≫= (.!! i).
Proof.
  intros Hls Hi. revert t. induction Hls as [|l ls Hl _ IH]; intros t.
  - simpl. by rewrite !lookup_nil.
  - destruct t as [|t]; simpl.
    + rewrite lookup_app_l by lia. done.
    + rewrite lookup_app_r by lia.
      replace (m + t * m + i - length l)%nat with (t * m + i)%nat by lia.
      apply IH.
Qed.

Lemma concat_uniform_length {B : Type} (m : nat) (ls : list (list B)) :
  Forall (fun l => length l = m) ls →
  length (concat ls) = (length ls * m)%nat.
Proof.
  induction 1 as [|l ls Hl _ IH]; simpl; [done|].
  rewrite length_app. lia.
Qed.

(** Row [r] of a table of blocks of [m] rows. *)
Lemma concat_uniform_row {B : Type} (m : nat) (ls : list (list B))
    (r : nat) (b : B) :
  Forall (fun l => length l = m) ls → concat ls !! r = Some b →
  (0 < m)%nat
  ∧ ∃ l, ls !! (r / m)%nat = Some l ∧ l !! (r mod m)%nat = Some b.
Proof.
  intros Hls Hr.
  assert (Hm : (0 < m)%nat).
  { apply lookup_lt_Some in Hr. rewrite (concat_uniform_length m) in Hr by done.
    destruct m; lia. }
  split; [done|].
  rewrite (Nat.div_mod r m) in Hr at 1 by lia.
  rewrite (Nat.mul_comm m) in Hr.
  rewrite concat_uniform_lookup in Hr; [|done|by apply Nat.mod_upper_bound; lia].
  destruct (ls !! (r / m)%nat) as [l|]; [|done]. by exists l.
Qed.

Section Onsets.
Context `{RT : Runtime}.

(** What a successful call went through. *)
Lemma insert_events_Ok_inv data insert_data insert_labels sequence n_events
    lag jitter n_steps dist return_onsets (σ : state) sim onsets σ' :
  insert_events data insert_data insert_labels sequence n_events lag jitter
    n_steps dist return_onsets σ = Ok (sim, onsets, σ') →
  ∃ pl g events,
    insert_events_plan data insert_data insert_labels n_events lag n_steps
      dist σ = Ok (pl, g)
    ∧ sim = fresh (dom (heap σ))
    ∧ inject_trains (replay_start_idxs pl) 0 sim sequence
        (plan_class_mean pl) (plan_span pl) lag jitter n_steps []
        {| heap := <[sim := plan_data pl]> (heap σ); gen := g |}
      = Ok (events, σ')
    ∧ onsets = (if return_onsets then Some events else None).
Proof.
  unfold insert_events. intros H.
  apply obind_Ok in H as ([pl g] & Hplan & H).
  apply obind_Ok in H as ([events σ1] & Hinj & H).
  injection H as <- <- <-. by exists pl, g, events.
Qed.

(** The onset table is made of one block per train, in the order of the
    schedule. *)
Lemma insert_events_blocks data insert_data insert_labels sequence n_events
    lag jitter n_steps dist return_onsets (σ : state) sim onsets σ' :
  insert_events data insert_data insert_labels sequence n_events lag jitter
    n_steps dist return_onsets σ = Ok (sim, onsets, σ') →
  ∃ pl g trains,
    insert_events_plan data insert_data insert_labels n_events lag n_steps
      dist σ = Ok (pl, g)
    ∧ onsets = (if return_onsets then Some (concat trains) else None)
    ∧ length trains = Z.to_nat n_events
    ∧ length (replay_start_idxs pl) = Z.to_nat n_events
    ∧ plan_span pl = a3_dim2 (to_3d insert_data)
    ∧ Forall (fun rows => length rows = Z.to_nat (n_steps + 1)) trains
    ∧ ∀ t start rows,
        replay_start_idxs pl !! t = Some start → trains !! t = Some rows →
        train_rows sequence (plan_span pl) lag jitter n_steps (Z.of_nat t)
          start rows
        ∧ (randint_in_range →
           Forall (fun e => - jitter <= ev_jitter e <= jitter) rows).
Proof.
  intros H.
  apply insert_events_Ok_inv in H as (pl & g & events & Hplan & _ & Hinj & ->).
  apply inject_trains_rows in Hinj as (trains & -> & Hlen & Htr).
  pose proof Hplan as Hinv.
  apply insert_events_plan_inv in Hinv
    as (seed & g0 & p & _ & _ & _ & _ & _ & _ & _ & Hspan & _ & Hs).
  apply schedule_bounds in Hs as (Hn & _ & _).
  exists pl, g, trains. split; [done|]. split; [done|].
  split; [by rewrite Hlen|]. split; [done|]. split; [done|]. split; [|done].
  apply Forall_lookup. intros t rows Ht.
  destruct (lookup_lt_is_Some_2 (replay_start_idxs pl) t) as [start Hst].
  { rewrite <- Hlen. by eapply lookup_lt_Some. }
  destruct (Htr t start rows Hst Ht) as [(Hsteps & _) _].
  rewrite <- (length_map ev_step), Hsteps, arange_length. f_equal. lia.
Qed.

End Onsets.

(** X15. The onset table of a successful call has [n_events * (n_steps+1)]
    rows; row [r] belongs to train [r // (n_steps+1)] and step
    [r % (n_steps+1)], and its span is the last dimension of
    [insert_data]. *)
Theorem insert_events_onsets_layout `{RT : Runtime} data insert_data
    insert_labels sequence n_events lag jitter n_steps dist (σ : state)
    sim onsets σ' :
  insert_events data insert_data insert_labels sequence n_events lag jitter
    n_steps dist true σ = Ok (sim, Some onsets, σ') →
  length onsets = (Z.to_nat n_events * Z.to_nat (n_steps + 1))%nat
  ∧ ∀ r e, onsets !! r = Some e →
      ev_idx e = Z.of_nat (r / Z.to_nat (n_steps + 1))
      ∧ ev_step e = Z.of_nat (r mod Z.to_nat (n_steps + 1))
      ∧ ev_span e = Z.of_nat (a3_dim2 (to_3d insert_data)).
Proof.
  intros H.
  apply insert_events_blocks in H
    as (pl & g & trains & _ & [= ->] & Hlen & Hls & Hspan & Hm & Htr).
  split; [by rewrite (concat_uniform_length _ _ Hm), Hlen|].
  intros r e Hr.
  apply (concat_uniform_row _ _ _ _ Hm) in Hr as (Hpos & rows & Ht & Hi).
  destruct (lookup_lt_is_Some_2 (replay_start_idxs pl)
              (r / Z.to_nat (n_steps + 1))) as [start Hst].
  { rewrite Hls, <- Hlen. by eapply lookup_lt_Some. }
  destruct (Htr _ start rows Hst Ht) as [(Hsteps & Hrows & _) _].
  pose proof (Forall_lookup_1 _ _ _ _ Hrows Hi) as [Hidx Hsp]. simpl in *.
  split; [done|]. split; [|by rewrite Hsp, Hspan].
  assert (Hs : arange 0 (n_steps + 1) !! (r mod Z.to_nat (n_steps + 1))%nat
               = Some (ev_step e)).
  { by rewrite <- Hsteps, list_lookup_fmap, Hi. }
  apply arange_lookup in Hs. lia.
Qed.

Lemma insert_events_onsets_layout_witness :
  ∃ onsets σ',
    insert_events (RT := rt6j) 0 insert6 [0; 1] [0; 1] 2 1 1 1
      (DistStr "constant") true state6j = Ok (1%nat, Some onsets, σ')
    ∧ map ev_idx onsets = [0; 0; 1; 1]
    ∧ (length onsets = (Z.to_nat 2 * Z.to_nat (1 + 1))%nat
       ∧ ∀ r e, onsets !! r = Some e →
           ev_idx e = Z.of_nat (r / Z.to_nat (1 + 1))
           ∧ ev_step e = Z.of_nat (r mod Z.to_nat (1 + 1))
           ∧ ev_span e = Z.of_nat (a3_dim2 (to_3d insert6))).
Proof.
  assert (Hrun : ∃ onsets σ',
    insert_events (RT := rt6j) 0 insert6 [0; 1] [0; 1] 2 1 1 1
      (DistStr "constant") true state6j = Ok (1%nat, Some onsets, σ')
    ∧ map ev_idx onsets = [0; 0; 1; 1]).
  { do 2 eexists. split; vm_compute; reflexivity. }
  destruct Hrun as (onsets & σ' & Hrun & Hobs). exists onsets, σ'.
  split; [exact Hrun|]. split; [exact Hobs|].
  exact (insert_events_onsets_layout (RT := rt6j) 0 insert6 [0; 1] [0; 1] 2 1 1 1
           (DistStr "constant") state6j 1%nat onsets σ' Hrun).
Defined.

(** X16. Within a train, every template is placed [lag] plus its own
    jitter after the template before it. *)
Theorem insert_events_onsets_positions `{RT : Runtime} data insert_data
    insert_labels sequence n_events lag jitter n_steps dist (σ : state)
    sim onsets σ' :
  insert_events data insert_data insert_labels sequence n_events lag jitter
    n_steps dist true σ = Ok (sim, Some onsets, σ') →
  ∀ r e e', onsets !! r = Some e → onsets !! S r = Some e' →
    ev_step e' ≠ 0 →
    ev_pos e' = ev_pos e + lag + ev_jitter e'.
Proof.
  intros H r e e' Hr Hr' Hstep.
  apply insert_events_blocks in H
    as (pl & g & trains & _ & [= ->] & Hlen & Hls & Hspan & Hm & Htr).
  set (m := Z.to_nat (n_steps + 1)) in *.
  apply (concat_uniform_row _ _ _ _ Hm) in Hr as (Hpos & rows & Ht & Hi).
  apply (concat_uniform_row _ _ _ _ Hm) in Hr' as (_ & rows' & Ht' & Hi').
  destruct (lookup_lt_is_Some_2 (replay_start_idxs pl) (S r / m))
    as [start' Hst'].
  { rewrite Hls, <- Hlen. by eapply lookup_lt_Some. }
  destruct (Htr _ start' rows' Hst' Ht') as [(Hsteps' & _ & _ & Hchain & _) _].
  assert (Hs : arange 0 (n_steps + 1) !! (S r mod m)%nat = Some (ev_step e')).
  { by rewrite <- Hsteps', list_lookup_fmap, Hi'. }
  apply arange_lookup in Hs.
  assert (Hne : (S r mod m ≠ 0)%nat) by lia.
  assert (Hdm : (S r / m = r / m ∧ S r mod m = S (r mod m))%nat).
  { pose proof (Nat.div_mod r m ltac:(lia)) as Er.
    pose proof (Nat.div_mod (S r) m ltac:(lia)) as Er'.
    pose proof (Nat.mod_upper_bound r m ltac:(lia)).
    pose proof (Nat.mod_upper_bound (S r) m ltac:(lia)).
    assert (S r / m = r / m)%nat by nia. split; [done|]. nia. }
  destruct Hdm as [Ed Em]. rewrite Ed in Ht'. rewrite Em in Hi'.
  assert (rows' = rows) as -> by congruence.
  by eapply Hchain.
Qed.

Lemma insert_events_onsets_positions_witness :
  ∃ onsets σ',
    insert_events (RT := rt6j) 0 insert6 [0; 1] [0; 1] 2 1 1 1
      (DistStr "constant") true state6j = Ok (1%nat, Some onsets, σ')
    ∧ map ev_pos onsets = [1; 3; 0; 0]
    ∧ (∀ r e e', onsets !! r = Some e → onsets !! S r = Some e' →
         ev_step e' ≠ 0 →
         ev_pos e' = ev_pos e + 1 + ev_jitter e').
Proof.
  assert (Hrun : ∃ onsets σ',
    insert_events (RT := rt6j) 0 insert6 [0; 1] [0; 1] 2 1 1 1
      (DistStr "constant") true state6j = Ok (1%nat, Some onsets, σ')
    ∧ map ev_pos onsets = [1; 3; 0; 0]).
  { do 2 eexists. split; vm_compute; reflexivity. }
  destruct Hrun as (onsets & σ' & Hrun & Hobs). exists onsets, σ'.
  split; [exact Hrun|]. split; [exact Hobs|].
  exact (insert_events_onsets_positions (RT := rt6j) 0 insert6 [0; 1] [0; 1] 2 1 1 1
           (DistStr "constant") state6j 1%nat onsets σ' Hrun).
Defined.

(** Without jitter the rows of a train are [lag] apart. *)
Lemma train_rows_unjittered sequence span lag n_steps idx start rows :
  train_rows sequence span lag 0 n_steps idx start rows →
  ∀ i e, rows !! i = Some e →
    ev_jitter e = 0 ∧ ev_step e = Z.of_nat i
    ∧ ev_pos e = start + Z.of_nat i * lag.
Proof.
  intros (Hsteps & _ & Hhd & Hchain & _ & _ & Hz) i.
  specialize (Hz eq_refl).
  induction i as [|i IH]; intros e He.
  - destruct (Hhd e) as [-> ->]; [by destruct rows; simplify_eq|].
    split; [done|]. split; [|lia].
    assert (Hs : arange 0 (n_steps + 1) !! 0%nat = Some (ev_step e))
      by by rewrite <- Hsteps, list_lookup_fmap, He.
    apply arange_lookup in Hs. lia.
  - destruct (lookup_lt_is_Some_2 rows i) as [e0 He0].
    { apply lookup_lt_Some in He. lia. }
    destruct (IH e0 He0) as (_ & _ & Hpos).
    pose proof (Forall_lookup_1 _ _ _ _ Hz He) as Hj. simpl in Hj.
    split; [done|]. split.
    + assert (Hs : arange 0 (n_steps + 1) !! S i = Some (ev_step e))
        by by rewrite <- Hsteps, list_lookup_fmap, He.
      apply arange_lookup in Hs. lia.
    + rewrite (Hchain i e0 e He0 He), Hpos, Hj. lia.
Qed.

(** X17. Called with [jitter = 0], every row of the onset table has jitter
    0 and sits at [start + step * lag], where [start] is the offset
    scheduled for its train. *)
Theorem insert_events_unjittered_positions `{RT : Runtime} data insert_data
    insert_labels sequence n_events lag n_steps dist (σ : state)
    sim onsets σ' :
  insert_events data insert_data insert_labels sequence n_events lag 0
    n_steps dist true σ = Ok (sim, Some onsets, σ') →
  ∃ pl g,
    insert_events_plan data insert_data insert_labels n_events lag n_steps
      dist σ = Ok (pl, g)
    ∧ ∀ e, e ∈ onsets →
        ev_jitter e = 0
        ∧ ∃ start, replay_start_idxs pl !! Z.to_nat (ev_idx e) = Some start
                   ∧ ev_pos e = start + ev_step e * lag.
Proof.
  intros H.
  apply insert_events_blocks in H
    as (pl & g & trains & Hplan & [= ->] & Hlen & Hls & Hspan & Hm & Htr).
  exists pl, g. split; [done|]. intros e He.
  apply list_elem_of_In, in_concat in He as (rows & Hrows & He).
  apply list_elem_of_In, list_elem_of_lookup_1 in Hrows as (t & Ht).
  apply list_elem_of_In, list_elem_of_lookup_1 in He as (i & Hi).
  destruct (lookup_lt_is_Some_2 (replay_start_idxs pl) t) as [start Hst].
  { rewrite Hls, <- Hlen. by eapply lookup_lt_Some. }
  destruct (Htr t start rows Hst Ht) as [Hrows _].
  destruct (train_rows_unjittered _ _ _ _ _ _ _ Hrows i e Hi)
    as (Hj & Hstep & Hpos).
  destruct Hrows as (_ & Hidx & _).
  pose proof (Forall_lookup_1 _ _ _ _ Hidx Hi) as [Hid _]. simpl in Hid.
  split; [done|]. exists start. rewrite Hid, Nat2Z.id, Hstep. done.
Qed.

Lemma insert_events_unjittered_positions_witness :
  ∃ onsets σ',
    insert_events (RT := rt6) 0 insert6 [0; 1] [0; 1] 2 1 0 1
      (DistStr "constant") true state6 = Ok (1%nat, Some onsets, σ')
    ∧ map ev_pos onsets = [1; 2; 0; 1]
    ∧ (∃ pl g,
         insert_events_plan (RT := rt6) 0 insert6 [0; 1] 2 1 1
           (DistStr "constant") state6 = Ok (pl, g)
         ∧ ∀ e, e ∈ onsets →
             ev_jitter e = 0
             ∧ ∃ start,
                 replay_start_idxs pl !! Z.to_nat (ev_idx e) = Some start
                 ∧ ev_pos e = start + ev_step e * 1).
Proof.
  assert (Hrun : ∃ onsets σ',
    insert_events (RT := rt6) 0 insert6 [0; 1] [0; 1] 2 1 0 1
      (DistStr "constant") true state6 = Ok (1%nat, Some onsets, σ')
    ∧ map ev_pos onsets = [1; 2; 0; 1]).
  { do 2 eexists. split; vm_compute; reflexivity. }
  destruct Hrun as (onsets & σ' & Hrun & Hobs). exists onsets, σ'.
  split; [exact Hrun|]. split; [exact Hobs|].
  exact (insert_events_unjittered_positions (RT := rt6) 0 insert6 [0; 1] [0; 1] 2 1 1
           (DistStr "constant") state6 1%nat onsets σ' Hrun).
Defined.

(** X18. Each train plays [n_steps + 1] consecutive entries of [sequence],
    from an index at which the sequence does not run out: the classes of
    its rows are [sequence[q], sequence[q+1], ...] with
    [q + n_steps < len(sequence)]. *)
Theorem insert_events_onsets_classes `{RT : Runtime} data insert_data
    insert_labels sequence n_events lag jitter n_steps dist (σ : state)
    sim onsets σ' :
  insert_events data insert_data insert_labels sequence n_events lag jitter
    n_steps dist true σ = Ok (sim, Some onsets, σ') →
  ∀ t, (t < Z.to_nat n_events)%nat →
    ∃ q : nat,
      Z.of_nat q + n_steps < Z.of_nat (length sequence)
      ∧ ∀ i e, (i < Z.to_nat (n_steps + 1))%nat →
          onsets !! (t * Z.to_nat (n_steps + 1) + i)%nat = Some e →
          sequence !! (q + i)%nat = Some (ev_class_idx e).
Proof.
  intros H t Ht.
  apply insert_events_blocks in H
    as (pl & g & trains & _ & [= ->] & Hlen & Hls & Hspan & Hm & Htr).
  destruct (lookup_lt_is_Some_2 trains t) as [rows Hrows]; [lia|].
  destruct (lookup_lt_is_Some_2 (replay_start_idxs pl) t) as [start Hst];
    [lia|].
  destruct (Htr t start rows Hst Hrows)
    as [(_ & _ & _ & _ & (q & Hq & Hcl) & _) _].
  exists q. split; [lia|]. intros i e Hi He.
  rewrite (concat_uniform_lookup _ _ _ _ Hm Hi), Hrows in He. simpl in He.
  by apply Hcl.
Qed.

Lemma insert_events_onsets_classes_witness :
  ∃ onsets σ',
    insert_events (RT := rt6) 0 insert6 [0; 1] [0; 1] 2 1 0 1
      (DistStr "constant") true state6 = Ok (1%nat, Some onsets, σ')
    ∧ map ev_class_idx onsets = [0; 1; 0; 1]
    ∧ (∀ t, (t < Z.to_nat 2)%nat →
         ∃ q : nat,
           Z.of_nat q + 1 < Z.of_nat (length [0; 1])
           ∧ ∀ i e, (i < Z.to_nat (1 + 1))%nat →
               onsets !! (t * Z.to_nat (1 + 1) + i)%nat = Some e →
               [0; 1] !! (q + i)%nat = Some (ev_class_idx e)).
Proof.
  assert (Hrun : ∃ onsets σ',
    insert_events (RT := rt6) 0 insert6 [0; 1] [0; 1] 2 1 0 1
      (DistStr "constant") true state6 = Ok (1%nat, Some onsets, σ')
    ∧ map ev_class_idx onsets = [0; 1; 0; 1]).
  { do 2 eexists. split; vm_compute; reflexivity. }
  destruct Hrun as (onsets & σ' & Hrun & Hobs). exists onsets, σ'.
  split; [exact Hrun|]. split; [exact Hobs|].
  exact (insert_events_onsets_classes (RT := rt6) 0 insert6 [0; 1] [0; 1] 2 1 0 1
           (DistStr "constant") state6 1%nat onsets σ' Hrun).
Defined.

Lemma scripted_randint_range (lo hi : Z) (s : script) :
  lo < hi → lo <= (scripted_randint lo hi s).1 < hi.
Proof.
  intros Hlt. unfold scripted_randint. destruct (ints s) as [|i rest]; simpl.
  - lia.
  - pose proof (Z.mod_pos_bound i (hi - lo) ltac:(lia)). lia.
Qed.

(** X19. With a generator whose [randint(lo, hi)] draws from [[lo, hi)],
    every jitter of the onset table lies between [-jitter] and [jitter]. *)
Theorem insert_events_jitter_range `{RT : Runtime} data insert_data
    insert_labels sequence n_events lag jitter n_steps dist (σ : state)
    sim onsets σ' :
  randint_in_range →
  insert_events data insert_data insert_labels sequence n_events lag jitter
    n_steps dist true σ = Ok (sim, Some onsets, σ') →
  Forall (fun e => - jitter <= ev_jitter e <= jitter) onsets.
Proof.
  intros Hrange H.
  apply insert_events_blocks in H
    as (pl & g & trains & _ & [= ->] & Hlen & Hls & Hspan & Hm & Htr).
  apply Forall_concat, Forall_lookup. intros t rows Ht.
  destruct (lookup_lt_is_Some_2 (replay_start_idxs pl) t) as [start Hst].
  { rewrite Hls, <- Hlen. by eapply lookup_lt_Some. }
  by apply (Htr t start rows Hst Ht).
Qed.

Lemma insert_events_jitter_range_witness :
  randint_in_range (RT := rt6j)
  ∧ ∃ onsets σ',
      insert_events (RT := rt6j) 0 insert6 [0; 1] [0; 1] 2 1 1 1
        (DistStr "constant") true state6j = Ok (1%nat, Some onsets, σ')
      ∧ map ev_jitter onsets = [0; 1; 0; -1]
      ∧ Forall (fun e => - 1 <= ev_jitter e <= 1) onsets.
Proof.
  assert (Hr : randint_in_range (RT := rt6j))
    by exact scripted_randint_range.
  assert (Hrun : ∃ onsets σ',
    insert_events (RT := rt6j) 0 insert6 [0; 1] [0; 1] 2 1 1 1
      (DistStr "constant") true state6j = Ok (1%nat, Some onsets, σ')
    ∧ map ev_jitter onsets = [0; 1; 0; -1]).
  { do 2 eexists. split; vm_compute; reflexivity. }
  split; [exact Hr|].
  destruct Hrun as (onsets & σ' & Hrun & Hobs). exists onsets, σ'.
  split; [exact Hrun|]. split; [exact Hobs|].
  exact (insert_events_jitter_range (RT := rt6j) 0 insert6 [0; 1] [0; 1]
           2 1 1 1 (DistStr "constant") state6j 1%nat onsets σ' Hr Hrun).
Defined.


(** ** The array a call returns *)

Lemma same_shape_len (a b : array2) : same_shape a b → a2_len a = a2_len b.
Proof.
  intros [_ H]. unfold a2_len. f_equal.
  by rewrite <- (length_map length (a2_rows a)), H, length_map.
Qed.

Lemma add_template_outside (a a' : array2) pos span tpl (r : nat) :
  add_template a pos span tpl = Ok a' →
  ¬ ((py_slice (a2_len a) pos (pos + Z.of_nat span)).1 <= r
     < (py_slice (a2_len a) pos (pos + Z.of_nat span)).2)%nat →
  a2_rows a' !! r = a2_rows a !! r.
Proof.
  unfold add_template. destruct (py_slice _ _ _) as [lo hi]. simpl.
  destruct (_ || _); [|discriminate]. intros [= <-] Hout. simpl.
  rewrite list_lookup_imap. destruct (a2_rows a !! r) as [row|]; [|done].
  simpl. destruct (Nat.leb_spec lo r), (Nat.ltb_spec r hi); simpl; try done.
  lia.
Qed.

Section Content.
Context `{RT : Runtime}.

Lemma inject_steps_outside steps data_sim idx sequence class_mean span lag
    jitter pos seq_i smp_jitter events σ events' σ' a :
  inject_steps steps data_sim idx sequence class_mean span lag jitter
    pos seq_i smp_jitter events σ = Ok (events', σ') →
  heap σ !! data_sim = Some a →
  ∃ a' new, heap σ' !! data_sim = Some a' ∧ events' = events ++ new
    ∧ same_shape a' a
    ∧ ∀ r, (∀ e, e ∈ new → ¬ touched (a2_len a) e r) →
           a2_rows a' !! r = a2_rows a !! r.
Proof.
  revert pos seq_i smp_jitter events σ a.
  induction steps as [|step steps IH];
    intros pos seq_i smp_jitter events σ a H Ha; simpl in H.
  - injection H as <- <-. exists a, []. rewrite app_nil_r.
    split; [done|]. split; [done|]. split; [apply same_shape_refl|done].
  - apply obind_Ok in H as (j & _ & H).
    apply obind_Ok in H as (class_idx & _ & H).
    apply obind_Ok in H as (c & _ & H).
    apply obind_Ok in H as (tpl & _ & H).
    apply obind_Ok in H as (a0 & Ha0 & H). apply from_option_Ok in Ha0.
    rewrite Ha in Ha0. injection Ha0 as <-.
    apply obind_Ok in H as (a1 & Ha1 & H).
    apply obind_Ok in H as ([j' g] & _ & H).
    eapply IH in H as (a' & new & Ha' & -> & Hsh & Hout);
      [|simpl; by rewrite lookup_insert_eq].
    pose proof (add_template_shape _ _ _ _ _ Ha1) as Hsh1.
    eexists a', (_ :: new). rewrite <- app_assoc. simpl.
    split; [done|]. split; [reflexivity|].
    split; [by eapply same_shape_trans|].
    intros r Hr. rewrite Hout.
    + eapply add_template_outside; [exact Ha1|].
      specialize (Hr _ (list_elem_of_here _ _)). exact Hr.
    + intros e He. rewrite (same_shape_len _ _ Hsh1).
      apply Hr. by apply list_elem_of_further.
Qed.

Lemma inject_trains_outside starts idx data_sim sequence class_mean span lag
    jitter n_steps events σ events' σ' a :
  inject_trains starts idx data_sim sequence class_mean span lag jitter
    n_steps events σ = Ok (events', σ') →
  heap σ !! data_sim = Some a →
  ∃ a' new, heap σ' !! data_sim = Some a' ∧ events' = events ++ new
    ∧ same_shape a' a
    ∧ ∀ r, (∀ e, e ∈ new → ¬ touched (a2_len a) e r) →
           a2_rows a' !! r = a2_rows a !! r.
Proof.
  revert idx events σ a.
  induction starts as [|start_idx starts IH]; intros idx events σ a H Ha;
    simpl in H.
  - injection H as <- <-. exists a, []. rewrite app_nil_r.
    split; [done|]. split; [done|]. split; [apply same_shape_refl|done].
  - destruct (_ <=? 0); [discriminate|].
    destruct (randint _ _ _) as [r0 g].
    apply obind_Ok in H as (j & _ & H).
    apply obind_Ok in H as ([ev1 σ1] & Hsteps & H).
    eapply inject_steps_outside in Hsteps
      as (a1 & new1 & Ha1 & -> & Hsh1 & Hout1); [|exact Ha].
    eapply IH in H as (a2 & new2 & Ha2 & -> & Hsh2 & Hout2); [|exact Ha1].
    exists a2, (new1 ++ new2). rewrite app_assoc.
    split; [done|]. split; [done|].
    split; [by eapply same_shape_trans|].
    intros r Hr. rewrite Hout2, Hout1; [done| |].
    + intros e He. apply Hr. apply elem_of_app. by left.
    + intros e He. rewrite (same_shape_len _ _ Hsh1).
      apply Hr. apply elem_of_app. by right.
Qed.

End Content.

(** X20. Rows of the returned array that lie in no window
    [[pos : pos + span]] of the onset table are the rows of [data],
    unchanged. *)
Theorem insert_events_rows_outside `{RT : Runtime} data insert_data
    insert_labels sequence n_events lag jitter n_steps dist (σ : state)
    sim onsets σ' :
  insert_events data insert_data insert_labels sequence n_events lag jitter
    n_steps dist true σ = Ok (sim, Some onsets, σ') →
  ∃ a a', heap σ !! data = Some a ∧ heap σ' !! sim = Some a'
    ∧ ∀ r, (∀ e, e ∈ onsets → ¬ touched (a2_len a) e r) →
           a2_rows a' !! r = a2_rows a !! r.
Proof.
  intros H.
  apply insert_events_Ok_inv in H
    as (pl & g & events & Hplan & _ & Hinj & [= ->]).
  apply insert_events_plan_Ok in Hplan.
  eapply inject_trains_outside in Hinj as (a' & new & Ha' & -> & _ & Hout);
    [|simpl; by rewrite lookup_insert_eq].
  by exists (plan_data pl), a'.
Qed.

Lemma insert_events_rows_outside_witness :
  ∃ onsets σ',
    insert_events (RT := rt6) 0 insert6 [0; 1] [0; 1] 2 1 0 1
      (DistStr "constant") true state6 = Ok (1%nat, Some onsets, σ')
    ∧ map ev_pos onsets = [1; 2; 0; 1]
    ∧ ∃ a a', heap state6 !! 0%nat = Some a ∧ heap σ' !! 1%nat = Some a'
        ∧ ∀ r, (∀ e, e ∈ onsets → ¬ touched (a2_len a) e r) →
               a2_rows a' !! r = a2_rows a !! r.
Proof.
  assert (Hrun : ∃ onsets σ',
    insert_events (RT := rt6) 0 insert6 [0; 1] [0; 1] 2 1 0 1
      (DistStr "constant") true state6 = Ok (1%nat, Some onsets, σ')
    ∧ map ev_pos onsets = [1; 2; 0; 1]).
  { do 2 eexists. split; vm_compute; reflexivity. }
  destruct Hrun as (onsets & σ' & Hrun & Hobs). exists onsets, σ'.
  split; [exact Hrun|]. split; [exact Hobs|].
  exact (insert_events_rows_outside (RT := rt6) 0 insert6 [0; 1] [0; 1] 2 1
           0 1 (DistStr "constant") state6 1%nat onsets σ' Hrun).
Defined.

(** X21. With [n_events <= 0] a successful call returns an exact copy of
    [data] at a fresh address and an empty onset table. *)
Theorem insert_events_no_events `{RT : Runtime} data insert_data
    insert_labels sequence n_events lag jitter n_steps dist return_onsets
    (σ : state) sim onsets σ' :
  n_events <= 0 →
  insert_events data insert_data insert_labels sequence n_events lag jitter
    n_steps dist return_onsets σ = Ok (sim, onsets, σ') →
  heap σ !! sim = None
  ∧ is_Some (heap σ !! data)
  ∧ heap σ' !! sim = heap σ !! data
  ∧ onsets = (if return_onsets then Some [] else None).
Proof.
  intros Hn H.
  apply insert_events_Ok_inv in H
    as (pl & g & events & Hplan & -> & Hinj & ->).
  pose proof (insert_events_plan_Ok _ _ _ _ _ _ _ _ _ _ Hplan) as Hd.
  apply insert_events_plan_inv in Hplan
    as (seed & g0 & p & _ & _ & _ & _ & _ & _ & _ & _ & _ & Hs).
  apply schedule_bounds in Hs as (Hlen & _ & _).
  destruct (replay_start_idxs pl) as [|s starts]; [|simpl in Hlen; lia].
  simpl in Hinj. injection Hinj as <- <-. simpl.
  split; [|split; [by rewrite Hd|split; [|done]]].
  - apply not_elem_of_dom. apply is_fresh.
  - by rewrite lookup_insert_eq.
Qed.

Lemma insert_events_no_events_witness :
  0 <= 0
  ∧ ∃ σ',
      insert_events (RT := rt6) 0 insert6 [0; 1] [0; 1] 0 1 0 1
        (DistStr "constant") true state6 = Ok (1%nat, Some [], σ')
      ∧ heap state6 !! 1%nat = None
      ∧ is_Some (heap state6 !! 0%nat)
      ∧ heap σ' !! 1%nat = heap state6 !! 0%nat
      ∧ Some [] = Some (@nil event).
Proof.
  assert (Hn : 0 <= 0) by lia.
  assert (Hrun : ∃ σ',
    insert_events (RT := rt6) 0 insert6 [0; 1] [0; 1] 0 1 0 1
      (DistStr "constant") true state6 = Ok (1%nat, Some [], σ')).
  { eexists. vm_compute; reflexivity. }
  split; [exact Hn|]. destruct Hrun as (σ' & Hrun). exists σ'.
  split; [exact Hrun|].
  exact (insert_events_no_events (RT := rt6) 0 insert6 [0; 1] [0; 1] 0 1 0 1
           (DistStr "constant") true state6 1%nat (Some []) σ' Hn Hrun).
Defined.

Lemma same_shape_sym (a b : array2) : same_shape a b → same_shape b a.
Proof. intros [H1 H2]. by split. Qed.

(** Whether the addition succeeds depends on the shape alone. *)
Lemma add_template_same_shape (a b : array2) pos span tpl :
  same_shape a b →
  match add_template a pos span tpl, add_template b pos span tpl with
  | Ok a', Ok b' => same_shape a' b'
  | Raise e1, Raise e2 => e1 = e2
  | _, _ => False
  end.
Proof.
  intros Hab.
  destruct (add_template a pos span tpl) as [a'| |] eqn:Ha,
           (add_template b pos span tpl) as [b'| |] eqn:Hb.
  - apply add_template_shape in Ha, Hb.
    eapply same_shape_trans; [exact Ha|].
    eapply same_shape_trans; [exact Hab|]. by apply same_shape_sym.
  - exfalso. unfold add_template in Ha, Hb.
    rewrite (same_shape_len _ _ Hab) in Ha.
    destruct (py_slice _ _ _) as [lo hi]. by destruct (_ || _).
  - exfalso. unfold add_template in Hb.
    destruct (py_slice _ _ _) as [lo hi]. by destruct (_ || _).
  - exfalso. unfold add_template in Ha, Hb.
    rewrite (same_shape_len _ _ Hab) in Ha.
    destruct (py_slice _ _ _) as [lo hi]. by destruct (_ || _).
  - unfold add_template in Ha, Hb.
    rewrite (same_shape_len _ _ Hab) in Ha.
    destruct (py_slice _ _ _) as [lo hi].
    destruct (_ || _); [done|]. congruence.
  - exfalso. unfold add_template in Hb.
    destruct (py_slice _ _ _) as [lo hi]. by destruct (_ || _).
  - exfalso. unfold add_template in Ha.
    destruct (py_slice _ _ _) as [lo hi]. by destruct (_ || _).
  - exfalso. unfold add_template in Ha.
    destruct (py_slice _ _ _) as [lo hi]. by destruct (_ || _).
  - exfalso. unfold add_template in Ha.
    destruct (py_slice _ _ _) as [lo hi]. by destruct (_ || _).
Qed.

Section Shapes.
Context `{RT : Runtime}.

Lemma inject_steps_same_shape steps s1 s2 idx sequence class_mean span lag
    jitter pos seq_i smp_jitter events (σ1 σ2 : state) b1 b2 :
  heap σ1 !! s1 = Some b1 → heap σ2 !! s2 = Some b2 → same_shape b1 b2 →
  gen σ1 = gen σ2 →
  same_events s1 s2
    (inject_steps steps s1 idx sequence class_mean span lag jitter
       pos seq_i smp_jitter events σ1)
    (inject_steps steps s2 idx sequence class_mean span lag jitter
       pos seq_i smp_jitter events σ2).
Proof.
  revert pos seq_i smp_jitter events σ1 σ2 b1 b2.
  induction steps as [|step steps IH];
    intros pos seq_i smp_jitter events σ1 σ2 b1 b2 H1 H2 Hsh Hg; simpl.
  - split; [done|]. split; [done|]. by exists b1, b2.
  - destruct (from_option _ (py_index _ seq_i)) as [j| |]; simpl; [|done..].
    destruct (from_option _ (sequence !! j)) as [class_idx| |];
      simpl; [|done..].
    destruct (from_option _ (py_index _ class_idx)) as [c| |];
      simpl; [|done..].
    destruct (from_option _ (class_mean !! c)) as [tpl| |]; simpl; [|done..].
    rewrite H1, H2. simpl.
    pose proof (add_template_same_shape b1 b2 pos span tpl Hsh) as Hadd.
    destruct (add_template b1 pos span tpl) as [a1| |],
             (add_template b2 pos span tpl) as [a2| |]; simpl; try done.
    rewrite Hg.
    destruct (jitter =? 0); simpl.
    + eapply IH; simpl; [by rewrite lookup_insert_eq..|done|done].
    + destruct (- jitter <? jitter + 1); simpl; [|done].
      destruct (randint _ _ _) as [j' g]. simpl.
      eapply IH; simpl; [by rewrite lookup_insert_eq..|done|done].
Qed.

Lemma inject_trains_same_shape starts idx s1 s2 sequence class_mean span lag
    jitter n_steps events (σ1 σ2 : state) b1 b2 :
  heap σ1 !! s1 = Some b1 → heap σ2 !! s2 = Some b2 → same_shape b1 b2 →
  gen σ1 = gen σ2 →
  same_events s1 s2
    (inject_trains starts idx s1 sequence class_mean span lag jitter
       n_steps events σ1)
    (inject_trains starts idx s2 sequence class_mean span lag jitter
       n_steps events σ2).
Proof.
  revert idx events σ1 σ2 b1 b2.
  induction starts as [|start_idx starts IH];
    intros idx events σ1 σ2 b1 b2 H1 H2 Hsh Hg; simpl.
  - split; [done|]. split; [done|]. by exists b1, b2.
  - destruct (_ <=? 0); [done|]. rewrite Hg.
    destruct (randint _ _ _) as [r g].
    destruct (from_option _ (py_index _ r)) as [j| |]; simpl; [|done..].
    set (τ1 := {| heap := heap σ1; gen := g |}).
    set (τ2 := {| heap := heap σ2; gen := g |}).
    pose proof (inject_steps_same_shape (arange 0 (n_steps + 1)) s1 s2 idx
                  sequence class_mean span lag jitter start_idx
                  (Z.of_nat j) 0 events τ1 τ2 b1 b2 H1 H2 Hsh eq_refl) as Hst.
    destruct (inject_steps _ s1 _ _ _ _ _ _ _ _ _ _ τ1) as [[ev1 ρ1]| |],
             (inject_steps _ s2 _ _ _ _ _ _ _ _ _ _ τ2) as [[ev2 ρ2]| |];
      simpl in *; try done.
    destruct Hst as (-> & Hρ & c1 & c2 & Hc1 & Hc2 & Hc).
    by eapply IH.
Qed.

End Shapes.

(** The plan reads [data] through its shape and its hash only, and the
    hash through the integer parts of the samples. *)
Lemma insert_events_plan_integer_part `{RT : Runtime} d1 d2 a1 a2 insert_data
    insert_labels n_events lag n_steps dist (σ1 σ2 : state) :
  heap σ1 !! d1 = Some a1 → heap σ2 !! d2 = Some a2 → same_shape a1 a2 →
  astype_int64 a1 = astype_int64 a2 →
  same_plan a1 a2
    (insert_events_plan d1 insert_data insert_labels n_events lag n_steps
       dist σ1)
    (insert_events_plan d2 insert_data insert_labels n_events lag n_steps
       dist σ2).
Proof.
  intros H1 H2 Hsh Hint. pose proof (same_shape_len _ _ Hsh) as Hlen.
  assert (Hrows : length (a2_rows a1) = length (a2_rows a2)).
  { unfold a2_len in Hlen. lia. }
  destruct Hsh as [Hcols _].
  unfold insert_events_plan, hash_array, schedule.
  rewrite H1, H2. simpl. rewrite Hint, Hlen, Hcols, Hrows.
  destruct (py_assert (ins_len _ =? _)) as [[]| |]; simpl; [|done..].
  destruct (py_assert (_ =? _)%nat) as [[]| |]; simpl; [|done..].
  destruct (check_distribution _ _) as [[]| |]; simpl; [|done..].
  destruct (py_int _) as [seed| |]; simpl; [|done..].
  destruct (np_random_seed seed) as [g0| |]; simpl; [|done..].
  destruct (class_means _ _) as [cm| |]; simpl; [|done..].
  destruct (initial_p _ _) as [p| |]; simpl; [|done..].
  destruct (schedule_loop _ _ _ _ _ _ _ _) as [[starts g]| |]; simpl; done.
Qed.

(** X22. The schedule and the onset table depend on [data] only through
    its shape and the integer parts of its samples: two arrays of one
    shape whose samples truncate to the same integers get the same
    exception, or the same onset table and final generator state. *)
Theorem insert_events_integer_part `{RT : Runtime} d1 d2 a1 a2 insert_data
    insert_labels sequence n_events lag jitter n_steps dist return_onsets
    (σ1 σ2 : state) :
  heap σ1 !! d1 = Some a1 → heap σ2 !! d2 = Some a2 → same_shape a1 a2 →
  astype_int64 a1 = astype_int64 a2 →
  same_onsets
    (insert_events d1 insert_data insert_labels sequence n_events lag jitter
       n_steps dist return_onsets σ1)
    (insert_events d2 insert_data insert_labels sequence n_events lag jitter
       n_steps dist return_onsets σ2).
Proof.
  intros H1 H2 Hsh Hint.
  pose proof (insert_events_plan_integer_part d1 d2 a1 a2 insert_data
                insert_labels n_events lag n_steps dist σ1 σ2 H1 H2 Hsh Hint)
    as Hplan.
  unfold insert_events.
  destruct (insert_events_plan d1 _ _ _ _ _ _ σ1) as [[pl1 g1]| |],
           (insert_events_plan d2 _ _ _ _ _ _ σ2) as [[pl2 g2]| |];
    simpl in *; try done.
  destruct Hplan as (Hp1 & Hp2 & <- & <- & <- & <-).
  set (s1 := fresh (dom (heap σ1))). set (s2 := fresh (dom (heap σ2))).
  set (τ1 := {| heap := <[s1 := plan_data pl1]> (heap σ1); gen := g1 |}).
  set (τ2 := {| heap := <[s2 := plan_data pl2]> (heap σ2); gen := g1 |}).
  pose proof (inject_trains_same_shape (replay_start_idxs pl1) 0 s1 s2
                sequence (plan_class_mean pl1) (plan_span pl1) lag jitter
                n_steps [] τ1 τ2 (plan_data pl1) (plan_data pl2)) as Hinj.
  destruct (inject_trains _ _ s1 _ _ _ _ _ _ _ τ1) as [[ev1 ρ1]| |],
           (inject_trains _ _ s2 _ _ _ _ _ _ _ τ2) as [[ev2 ρ2]| |];
    simpl in *.
  all: try (destruct Hinj as (-> & Hg & _);
            [subst τ1; simpl; by rewrite lookup_insert_eq
            |subst τ2; simpl; by rewrite lookup_insert_eq
            |by rewrite Hp1, Hp2|done|done]).
  all: apply Hinj;
       [subst τ1; simpl; by rewrite lookup_insert_eq
       |subst τ2; simpl; by rewrite lookup_insert_eq
       |by rewrite Hp1, Hp2|done].
Qed.

Lemma insert_events_integer_part_witness :
  same_shape data6 data6h
  ∧ astype_int64 data6 = astype_int64 data6h
  ∧ same_onsets
      (insert_events (RT := rt6) 0 insert6 [0; 1] [0; 1] 2 1 0 1
         (DistStr "constant") true state6)
      (insert_events (RT := rt6) 3 insert6 [0; 1] [0; 1] 2 1 0 1
         (DistStr "constant") true state6h).
Proof.
  assert (Hsh : same_shape data6 data6h) by (split; reflexivity).
  assert (Hint : astype_int64 data6 = astype_int64 data6h)
    by (vm_compute; reflexivity).
  split; [exact Hsh|]. split; [exact Hint|].
  apply (insert_events_integer_part (RT := rt6) 0 3 data6 data6h insert6
           [0; 1] [0; 1] 2 1 0 1 (DistStr "constant") true state6 state6h).
  - reflexivity.
  - reflexivity.
  - exact Hsh.
  - exact Hint.
Defined.

(** ** The seed *)

Lemma int_of_digits_lower (acc : Z) (s : string) (v : Z) :
  0 <= acc → int_of_digits acc s = Some v →
  acc * 10 ^ Z.of_nat (String.length s) <= v.
Proof.
  revert acc. induction s as [|c s IH]; intros acc Hacc H; simpl in H.
  - injection H as <-. simpl. lia.
  - destruct (is_digit c) eqn:Hc; [|done].
    unfold is_digit in Hc. apply andb_true_iff in Hc as [H1 H2].
    apply Nat.leb_le in H1, H2.
    apply IH in H; [|lia].
    change (String.length (String c s)) with (S (String.length s)).
    rewrite Nat2Z.inj_succ, Z.pow_succ_r by lia.
    assert (0 <= 10 ^ Z.of_nat (String.length s)) by (apply Z.pow_nonneg; lia).
    nia.
Qed.

(** A text of eleven or more digits that does not start with [0] is no
    seed. *)
Lemma seed_too_large `{RT : Runtime} (c0 : Ascii.ascii) (rest : string) :
  Ascii.nat_of_ascii c0 ≠ 48%nat → (10 <= String.length rest)%nat →
  (do seed <- py_int (String c0 rest); np_random_seed seed)
  = Raise ValueError.
Proof.
  intros Hc0 Hlen. unfold py_int. cbn [int_of_digits].
  destruct (is_digit c0) eqn:Hd; [|done].
  destruct (int_of_digits _ rest) as [v|] eqn:Hv; [|done]. simpl.
  assert (Hlead : 1 <= 10 * 0 + (Z.of_nat (Ascii.nat_of_ascii c0) - 48)).
  { unfold is_digit in Hd. apply andb_true_iff in Hd as [H1 H2].
    apply Nat.leb_le in H1, H2.
    lia. }
  apply int_of_digits_lower in Hv; [|lia].
  assert (10 ^ 10 <= 10 ^ Z.of_nat (String.length rest))
    by (apply Z.pow_le_mono_r; lia).
  unfold np_random_seed.
  assert (Hbig : 2 ^ 32 - 1 < v) by (change (2 ^ 32) with 4294967296; change (10 ^ 10) with 10000000000 in *; nia).
  destruct (Z.leb_spec 0 v), (Z.leb_spec v (2 ^ 32 - 1)); simpl; try done.
  lia.
Qed.

(** X23. When the decimal text derived from the hash of [data] has eleven
    or more digits and does not start with [0], the derived seed exceeds
    [2**32 - 1] and the call ends in [ValueError], whatever the other
    arguments are. *)
Theorem insert_events_seed_too_large `{RT : Runtime} data d insert_data
    insert_labels sequence n_events lag jitter n_steps dist return_onsets
    (σ : state) c0 rest :
  heap σ !! data = Some d →
  ins_len insert_data = Z.of_nat (length insert_labels) →
  a2_cols d = ins_shape1 insert_data →
  check_distribution dist (a2_len d) = Ok () →
  seed_text (hash_array d) = String c0 rest →
  Ascii.nat_of_ascii c0 ≠ 48%nat → (10 <= String.length rest)%nat →
  insert_events data insert_data insert_labels sequence n_events lag jitter
    n_steps dist return_onsets σ = Raise ValueError.
Proof.
  intros Hd Hl Hc Hdist Htext Hc0 Hlen.
  pose proof (seed_too_large c0 rest Hc0 Hlen) as Hseed.
  unfold insert_events, insert_events_plan.
  rewrite Hd. simpl. rewrite Hl, Z.eqb_refl. simpl.
  rewrite Hc, Nat.eqb_refl. simpl. rewrite Hdist. simpl.
  rewrite Htext.
  destruct (py_int (String c0 rest)) as [seed| |]; simpl in *.
  - by rewrite Hseed.
  - by injection Hseed as ->.
  - discriminate.
Qed.

Lemma insert_events_seed_too_large_witness :
  seed_text (hash_array (RT := rt0) (zeros 6 1)) = "9917102100926"
  ∧ insert_events (RT := rt0) 0 insert6 [0; 1] [0; 1] 2 1 0 1
      (DistStr "constant") true state0 = Raise ValueError.
Proof.
  assert (Ht : seed_text (hash_array (RT := rt0) (zeros 6 1))
               = "9917102100926") by (vm_compute; reflexivity).
  split; [exact Ht|].
  apply (insert_events_seed_too_large (RT := rt0) 0 (zeros 6 1) insert6
           [0; 1] [0; 1] 2 1 0 1 (DistStr "constant") true state0
           (Ascii.ascii_of_nat 57) "917102100926").
  - reflexivity.
  - reflexivity.
  - reflexivity.
  - reflexivity.
  - exact Ht.
  - vm_compute. lia.
  - simpl. lia.
Defined.


(** ** The two-step transition table: what the frame holds *)

Lemma set_cell_rect (rows cols : nat) (TF TF' : list (list Z)) (p1 p2 : Z) :
  rect rows cols TF → 0 <= p1 → 0 <= p2 →
  set_cell TF p1 p2 = Ok TF' →
  p1 < Z.of_nat rows ∧ p2 < Z.of_nat cols ∧ rect rows cols TF'
  ∧ ∀ a b, 0 <= a → 0 <= b →
      mcell TF' a b = if decide (a = p1 ∧ b = p2) then Some 1 else mcell TF a b.
Proof.
  intros [Hlen Hrows] H1 H2 H. unfold set_cell in H.
  apply obind_Ok in H as (r & Hr & H). apply from_option_Ok in Hr.
  apply py_index_nonneg in Hr as [-> Hp1]; [|done].
  apply obind_Ok in H as (row & Hrow & H). apply from_option_Ok in Hrow.
  apply obind_Ok in H as (c & Hc & [= <-]). apply from_option_Ok in Hc.
  apply py_index_nonneg in Hc as [-> Hp2]; [|done].
  pose proof (Forall_lookup_1 _ _ _ _ Hrows Hrow) as Hrl. simpl in Hrl.
  split; [lia|]. split; [lia|]. split.
  - split; [by rewrite length_insert|].
    apply Forall_insert; [done|]. by rewrite length_insert.
  - intros a b Ha Hb. unfold mcell.
    destruct (decide (Z.to_nat a = Z.to_nat p1)) as [Ea|Ea].
    + assert (a = p1) as -> by lia.
      rewrite list_lookup_insert_eq by lia. simpl.
      destruct (decide (Z.to_nat b = Z.to_nat p2)) as [Eb|Eb].
      * assert (b = p2) as -> by lia.
        rewrite list_lookup_insert_eq by lia. by rewrite decide_True.
      * rewrite list_lookup_insert_ne by done.
        rewrite decide_False by (intros [_ ->]; done). by rewrite Hrow.
    + rewrite list_lookup_insert_ne by done.
      rewrite decide_False by (intros [-> _]; done). done.
Qed.

Lemma set_cell_rect_total (rows cols : nat) (TF : list (list Z)) (p1 p2 : Z) :
  rect rows cols TF → 0 <= p1 < Z.of_nat rows → 0 <= p2 < Z.of_nat cols →
  ∃ TF', set_cell TF p1 p2 = Ok TF'.
Proof.
  intros [Hlen Hrows] H1 H2. unfold set_cell, py_index. rewrite Hlen.
  rewrite (proj2 (Z.leb_le _ _)), (proj2 (Z.ltb_lt _ _)) by lia. simpl.
  destruct (lookup_lt_is_Some_2 TF (Z.to_nat p1)) as [row Hrow]; [lia|].
  rewrite Hrow. simpl.
  rewrite (Forall_lookup_1 _ _ _ _ Hrows Hrow).
  rewrite (proj2 (Z.leb_le _ _)), (proj2 (Z.ltb_lt _ _)) by lia. simpl. eauto.
Qed.

Lemma set_cells_single (TF : list (list Z)) (i c : Z) :
  set_cells TF i [c] = set_cell TF i c.
Proof.
  unfold set_cells, set_cell. simpl.
  by destruct (py_index (Z.of_nat (length TF)) i).
Qed.

Lemma triple_upto_all (seq : list Z) (k : nat) (a b c : Z) :
  (length seq <= k + 2)%nat → triple_upto k seq a b c ↔ triple seq a b c.
Proof.
  intros Hk. split.
  - intros (i & _ & H). by exists i.
  - intros (i & Ha & Hb & Hc). exists i.
    pose proof (lookup_lt_Some _ _ _ Hc). split; [lia|done].
Qed.

Lemma marks2_change n k k' seq TF :
  (length seq <= k + 2)%nat → (length seq <= k' + 2)%nat →
  marks2 n k seq TF → marks2 n k' seq TF.
Proof.
  intros Hk Hk' (Hsq & Hcells). split; [done|].
  intros a b c Ha Hb Hc.
  destruct (Hcells a b c Ha Hb Hc) as [[H1 H2]|[H1 H2]]; [left|right];
    (split; [done|]);
    rewrite triple_upto_all in H2 |- * by done; done.
Qed.

Lemma triple_upto_S k seq a b c p0 p1 p2 :
  seq !! k = Some p0 → seq !! S k = Some p1 → seq !! S (S k) = Some p2 →
  triple_upto (S k) seq a b c
  ↔ triple_upto k seq a b c ∨ (a = p0 ∧ b = p1 ∧ c = p2).
Proof.
  intros H0 H1 H2. split.
  - intros (i & Hi & Ha & Hb & Hc). destruct (decide (i = k)) as [->|Hne].
    + right. repeat split; congruence.
    + left. exists i. split; [lia|done].
  - intros [(i & Hi & H)|(-> & -> & ->)].
    + exists i. split; [lia|done].
    + exists k. split; [lia|done].
Qed.

Lemma marks2_zeros (n : nat) (seq : list Z) :
  marks2 n 0 seq (replicate (n * n) (replicate n 0)).
Proof.
  split.
  - split; [by rewrite length_replicate|].
    apply Forall_replicate. by rewrite length_replicate.
  - intros a b c Ha Hb Hc. right. split; [|intros (i & Hi & _); lia].
    unfold mcell. rewrite lookup_replicate_2 by nia. simpl.
    by rewrite lookup_replicate_2 by lia.
Qed.

Section TwoStep.
Context `{UC : Unicode}.

(** Symbol by symbol, [char2num] of a string. *)
Lemma char2num_items (s : list Z) (codes : list Z) :
  char2num (SeqStr s) = Ok codes →
  Forall2 (fun c n => char2num (SeqStr [c]) = Ok [n]) s codes.
Proof.
  intros H. pose proof (char2num_range _ _ H) as [_ Hrange].
  unfold char2num in H.
  apply obind_Ok in H as (ns & Hns & H).
  apply obind_Ok in H as ([] & _ & [= <-]).
  apply omapM_Ok in Hns. simpl in Hns. apply Forall2_fmap_l in Hns.
  apply Forall2_same_length_lookup. split; [by eapply Forall2_length|].
  intros i c n Hc Hn.
  pose proof (Forall2_lookup_lr _ _ _ _ _ _ Hns Hc Hn) as Hf. simpl in Hf.
  pose proof (Forall_lookup_1 _ _ _ _ Hrange Hn) as Hr. simpl in Hr.
  unfold char2num. cbn [seq_items map omapM].
  apply obind_Ok in Hf as (o & Ho & [= <-]). rewrite Ho. cbn [obind].
  cbn [forallb].
  rewrite (proj2 (Z.leb_le 0 (o - 65))), (proj2 (Z.leb_le (o - 65) 90)) by lia.
  done.
Qed.

Lemma triplet_code_Ok (triplet : list Z) (k : nat) (c n : Z) :
  triplet !! k = Some c → char2num (SeqStr [c]) = Ok [n] →
  triplet_code triplet k = Ok n.
Proof. intros Hk Hc. unfold triplet_code. rewrite Hk. simpl. by rewrite Hc. Qed.

Lemma seq2TF_2step_loop_Ok n s codes i rest TF :
  char2num (SeqStr s) = Ok codes →
  Forall (fun c => c < Z.of_nat n) codes →
  rest = drop i (map (fun c => [c]) s) →
  marks2 n i codes TF →
  ∃ TF', seq2TF_2step_loop (map (fun c => [c]) s) (Z.of_nat n) i rest TF
         = Ok TF'
         ∧ marks2 n (length codes) codes TF'.
Proof.
  intros Hcodes Hlt.
  pose proof (char2num_range _ _ Hcodes) as [Hlen Hrange].
  pose proof (char2num_items _ _ Hcodes) as Hitems.
  simpl in Hlen. rewrite length_map in Hlen.
  revert i TF. induction rest as [|p rest IH]; intros i TF Hrest Hm.
  - symmetry in Hrest. apply drop_nil_inv in Hrest.
    rewrite length_map in Hrest.
    exists TF. split; [done|]. apply (marks2_change n i); [lia|lia|done].
  - apply drop_cons_inv in Hrest as [Hp Hrest].
    pose proof (lookup_lt_Some _ _ _ Hp) as Hi. rewrite length_map in Hi.
    cbn [seq2TF_2step_loop]. rewrite length_map.
    destruct (Z.leb_spec (Z.of_nat (length s)) (Z.of_nat i + 2)).
    + apply IH; [done|]. apply (marks2_change n i); [lia|lia|done].
    + destruct (lookup_lt_is_Some_2 s i) as [c0 Hc0]; [lia|].
      destruct (lookup_lt_is_Some_2 s (S i)) as [c1 Hc1]; [lia|].
      destruct (lookup_lt_is_Some_2 s (S (S i))) as [c2 Hc2]; [lia|].
      destruct (lookup_lt_is_Some_2 codes i) as [n0 Hn0]; [lia|].
      destruct (lookup_lt_is_Some_2 codes (S i)) as [n1 Hn1]; [lia|].
      destruct (lookup_lt_is_Some_2 codes (S (S i))) as [n2 Hn2]; [lia|].
      pose proof (Forall2_lookup_lr _ _ _ _ _ _ Hitems Hc0 Hn0) as Hk0.
      pose proof (Forall2_lookup_lr _ _ _ _ _ _ Hitems Hc1 Hn1) as Hk1.
      pose proof (Forall2_lookup_lr _ _ _ _ _ _ Hitems Hc2 Hn2) as Hk2.
      simpl in Hk0, Hk1, Hk2.
      rewrite !Z.mod_small by lia.
      replace (Z.to_nat (Z.of_nat i + 1)) with (S i) by lia.
      replace (Z.to_nat (Z.of_nat i + 2)) with (S (S i)) by lia.
      rewrite !list_lookup_fmap, Hc0, Hc1, Hc2.
      cbn [fmap option_fmap option_map from_option obind app].
      rewrite (triplet_code_Ok [c0; c1; c2] 0 c0 n0 eq_refl Hk0).
      rewrite (triplet_code_Ok [c0; c1; c2] 1 c1 n1 eq_refl Hk1).
      cbn [obind].
      change ([c0; c1; c2] !! 2%nat) with (Some c2). cbn [from_option obind].
      rewrite Hk2. cbn [obind]. rewrite set_cells_single.
      pose proof (Forall_lookup_1 _ _ _ _ Hrange Hn0) as R0.
      pose proof (Forall_lookup_1 _ _ _ _ Hrange Hn1) as R1.
      pose proof (Forall_lookup_1 _ _ _ _ Hrange Hn2) as R2.
      pose proof (Forall_lookup_1 _ _ _ _ Hlt Hn0) as L0.
      pose proof (Forall_lookup_1 _ _ _ _ Hlt Hn1) as L1.
      pose proof (Forall_lookup_1 _ _ _ _ Hlt Hn2) as L2.
      simpl in R0, R1, R2, L0, L1, L2.
      destruct Hm as (Hsq & Hcells).
      destruct (set_cell_rect_total (n * n) n TF (n0 * Z.of_nat n + n1) n2)
        as [TF1 Hset]; [done|nia|lia|].
      rewrite Hset. cbn [obind].
      apply (set_cell_rect (n * n) n) in Hset as (_ & _ & Hsq1 & Hset);
        [|done|nia|lia].
      apply IH; [done|]. split; [done|].
      intros a b c Ha Hb Hc. rewrite Hset by nia.
      rewrite (triple_upto_S _ _ _ _ _ n0 n1 n2) by done.
      destruct (decide (a * Z.of_nat n + b = n0 * Z.of_nat n + n1 ∧ c = n2))
        as [[E1 E2]|E].
      * left. split; [done|]. right.
        assert (a = n0) by nia. split; [done|]. split; [nia|done].
      * destruct (Hcells a b c Ha Hb Hc) as [[Hv Ht]|[Hv Ht]].
        -- left. split; [done|]. by left.
        -- right. split; [done|]. intros [Ht'|(-> & -> & ->)]; [done|].
           by apply E.
Qed.

End TwoStep.

Lemma py_max_elem (l : list Z) (m : Z) : py_max l = Ok m → m ∈ l.
Proof.
  destruct l as [|v l]; simpl; [done|]. intros [= <-].
  revert v. induction l as [|w l IH]; intros v; simpl.
  - apply list_elem_of_here.
  - specialize (IH (Z.max v w)). apply elem_of_cons in IH as [IH|IH].
    + rewrite IH. destruct (Z.max_spec v w) as [[_ ->]|[_ ->]].
      * apply list_elem_of_further, list_elem_of_here.
      * apply list_elem_of_here.
    + by do 2 apply list_elem_of_further.
Qed.

Lemma arange_range (n : Z) : Forall (fun x => 0 <= x < n) (arange 0 n).
Proof.
  apply Forall_lookup. intros i x Hx.
  pose proof (lookup_lt_Some _ _ _ Hx) as Hi. rewrite arange_length in Hi.
  apply arange_lookup in Hx. lia.
Qed.

Lemma arange_lookup_Some (n : Z) (i : nat) :
  Z.of_nat i < n → arange 0 n !! i = Some (Z.of_nat i).
Proof.
  intros Hi. destruct (lookup_lt_is_Some_2 (arange 0 n) i) as [x Hx].
  { rewrite arange_length. lia. }
  rewrite Hx. apply arange_lookup in Hx. f_equal. lia.
Qed.

Lemma pair_labels_lookup (n : Z) (r : nat) (label : list Z) :
  pair_labels (state_letters n) !! r = Some label →
  ∃ a b, 0 <= a < n ∧ 0 <= b < n ∧ Z.of_nat r = a * n + b
         ∧ label = [a + 65; b + 65].
Proof.
  intros Hr. unfold pair_labels in Hr.
  assert (Hlen : length (state_letters n) = Z.to_nat n).
  { unfold state_letters. by rewrite length_map, arange_length, Z.sub_0_r. }
  apply (concat_uniform_row (Z.to_nat n)) in Hr as (Hpos & l & Hl & Hb).
  2:{ apply Forall_fmap, Forall_forall. intros y _. simpl.
      by rewrite length_map. }
  rewrite list_lookup_fmap in Hl.
  destruct (state_letters n !! (r / Z.to_nat n)%nat) as [y|] eqn:Hy; [|done].
  injection Hl as <-. rewrite list_lookup_fmap in Hb.
  destruct (state_letters n !! (r mod Z.to_nat n)%nat) as [x|] eqn:Hx; [|done].
  injection Hb as <-.
  unfold state_letters in Hy, Hx. rewrite list_lookup_fmap in Hy, Hx.
  destruct (arange 0 n !! (r / Z.to_nat n)%nat) as [a|] eqn:Ha; [|done].
  destruct (arange 0 n !! (r mod Z.to_nat n)%nat) as [b|] eqn:Hb; [|done].
  injection Hy as <-. injection Hx as <-.
  pose proof (lookup_lt_Some _ _ _ Ha) as Hla.
  pose proof (lookup_lt_Some _ _ _ Hb) as Hlb.
  rewrite arange_length in Hla, Hlb.
  apply arange_lookup in Ha, Hb.
  exists a, b. split; [lia|]. split; [lia|]. split; [|done].
  pose proof (Nat.div_mod r (Z.to_nat n) ltac:(lia)) as E. nia.
Qed.

Lemma pair_labels_at (n : Z) (a b : Z) :
  0 <= a < n → 0 <= b < n →
  pair_labels (state_letters n) !! Z.to_nat (a * n + b)
  = Some [a + 65; b + 65].
Proof.
  intros Ha Hb. unfold pair_labels.
  replace (Z.to_nat (a * n + b))
    with (Z.to_nat a * Z.to_nat n + Z.to_nat b)%nat by nia.
  rewrite (concat_uniform_lookup (Z.to_nat n)).
  2:{ apply Forall_fmap, Forall_forall. intros y _. simpl.
      unfold state_letters. by rewrite !length_map, arange_length, Z.sub_0_r. }
  2:{ lia. }
  unfold state_letters. rewrite !list_lookup_fmap.
  rewrite arange_lookup_Some by lia. simpl.
  rewrite !list_lookup_fmap, arange_lookup_Some by lia. simpl.
  by rewrite !Z2Nat.id by lia.
Qed.

Lemma existsb_nonzero (cells : list Z) :
  existsb (fun v => negb (v =? 0)) cells = true
  ↔ ∃ j v, cells !! j = Some v ∧ v ≠ 0.
Proof.
  rewrite existsb_exists. split.
  - intros (v & Hin & Hv). apply list_elem_of_In, list_elem_of_lookup_1 in Hin
      as (j & Hj). exists j, v. split; [done|].
    apply negb_true_iff, Z.eqb_neq in Hv. done.
  - intros (j & v & Hj & Hv). exists v. split.
    + apply list_elem_of_In. by eapply list_elem_of_lookup_2.
    + by apply negb_true_iff, Z.eqb_neq.
Qed.

(** X24. For a string whose symbols all lie below [n_states] (as they
    do when [n_states] is omitted), [seq2TF_2step] returns a frame with
    one column per state, in which the row labelled [ab] holds 1 in
    column [c] exactly when [c] follows [a], [b] somewhere in the string;
    a pair that no symbol follows has no row. *)
Theorem seq2TF_2step_marks_triples `{UC : Unicode} (s codes : list Z)
    (n_states : option Z) (n : Z) :
  char2num (SeqStr s) = Ok codes →
  match n_states with
  | None => py_max codes = Ok (n - 1)
  | Some m => m = n ∧ 0 <= n < 1114047 ∧ Forall (fun c => c < n) codes
  end →
  ∃ df, seq2TF_2step (SeqStr s) n_states = Ok df
    ∧ df_columns df = state_letters n
    ∧ (∀ a b c, 0 <= a < n → 0 <= b < n → 0 <= c < n →
         triple codes a b c
         ↔ ∃ cells, ([a + 65; b + 65], cells) ∈ df_rows df
                    ∧ cells !! Z.to_nat c = Some 1)
    ∧ ∀ label cells, (label, cells) ∈ df_rows df →
        ∃ a b c, label = [a + 65; b + 65] ∧ triple codes a b c.
Proof.
  intros Hcodes Hn.
  pose proof (char2num_range _ _ Hcodes) as [_ Hrange].
  assert (Hnn : 0 <= n < 1114047 ∧ Forall (fun c => c < n) codes
                ∧ (do n_states <- match n_states with
                                  | None => do nums <- char2num (SeqStr s);
                                            do m <- py_max nums; Ok (m + 1)
                                  | Some n => Ok n
                                  end;
                   Ok n_states) = Ok n).
  { destruct n_states as [m|].
    - destruct Hn as (-> & Hn0 & Hlt). done.
    - rewrite Hcodes. cbn [obind]. rewrite Hn. cbn [obind].
      pose proof (py_max_bound _ _ Hn) as Hmax.
      assert (Hne : codes ≠ []) by (by intros ->).
      destruct codes as [|c0 codes']; [done|].
      pose proof (Forall_inv Hrange) as R0. pose proof (Forall_inv Hmax) as M0.
      simpl in R0, M0.
      assert (n - 1 <= 90).
      { pose proof (py_max_elem (c0 :: codes') (n - 1) Hn) as Hin.
        rewrite Forall_forall in Hrange. specialize (Hrange _ Hin).
        simpl in Hrange. lia. }
      split; [lia|]. split.
      + eapply Forall_impl; [exact Hmax|]. intros c Hc. simpl in Hc. lia.
      + f_equal. lia. }
  destruct Hnn as (Hn0 & Hlt & Hres).
  set (N := Z.to_nat n).
  assert (HN : Z.of_nat N = n) by (subst N; lia).
  destruct (seq2TF_2step_loop_Ok N s codes 0 (map (fun c => [c]) s)
              (replicate (N * N) (replicate N 0)))
    as (TF & Hloop & (Hrect & Hcells)).
  { done. }
  { by rewrite HN. }
  { by rewrite drop_0. }
  { apply marks2_zeros. }
  rewrite HN in Hloop, Hcells.
  assert (Hrun : seq2TF_2step (SeqStr s) n_states
                 = Ok {| df_columns := state_letters n;
                         df_rows := List.filter
                           (fun r => existsb (fun v => negb (v =? 0)) r.2)
                           (zip (pair_labels (state_letters n)) TF) |}).
  { unfold seq2TF_2step.
    apply obind_Ok in Hres as (n' & Hn' & [= ->]). rewrite Hn'. cbn [obind].
    destruct (Z.ltb_spec n 0); [lia|].
    replace (Z.to_nat (n * n)) with (N * N)%nat by (subst N; nia).
    cbn [seq_items]. fold N. rewrite Hloop. cbn [obind].
    rewrite num2char_nonneg.
    2:{ eapply Forall_impl; [apply arange_range|]. intros x Hx. simpl in *. lia. }
    done. }
  eexists. split; [exact Hrun|]. cbn [df_columns df_rows].
  split; [done|].
  assert (Hkey : ∀ label cells,
    (label, cells) ∈ List.filter
       (fun r => existsb (fun v => negb (v =? 0)) r.2)
       (zip (pair_labels (state_letters n)) TF)
    ↔ ∃ a b, 0 <= a < n ∧ 0 <= b < n ∧ label = [a + 65; b + 65]
             ∧ TF !! Z.to_nat (a * n + b) = Some cells
             ∧ ∃ j v, cells !! j = Some v ∧ v ≠ 0).
  { intros label cells. rewrite list_elem_of_In, filter_In.
    rewrite <- list_elem_of_In. cbn [snd]. rewrite existsb_nonzero.
    rewrite list_elem_of_lookup. split.
    - intros [(r & Hr) Hnz].
      apply lookup_zip_with_Some in Hr as (y & z & [= -> ->] & Hy & Hz).
      apply pair_labels_lookup in Hy as (a & b & Ha & Hb & Er & ->).
      exists a, b. split; [done|]. split; [done|]. split; [done|].
      split; [|done]. rewrite <- Er, Nat2Z.id. done.
    - intros (a & b & Ha & Hb & -> & Hrow & Hnz). split; [|done].
      exists (Z.to_nat (a * n + b)). apply lookup_zip_with_Some.
      exists [a + 65; b + 65], cells. split; [done|].
      split; [by apply pair_labels_at|done]. }
  split.
  - intros a b c Ha Hb Hc. split.
    + intros Ht.
      destruct (Hcells a b c Ha Hb Hc) as [[Hv _]|[_ Hno]].
      2:{ exfalso. apply Hno. apply triple_upto_all; [lia|done]. }
      unfold mcell in Hv.
      destruct (TF !! Z.to_nat (a * n + b)) as [cells|] eqn:Hrow; [|done].
      simpl in Hv. exists cells. split; [|done].
      apply Hkey. exists a, b. do 4 (split; [done|]).
      exists (Z.to_nat c), 1. split; [done|lia].
    + intros (cells & Hin & Hv).
      apply Hkey in Hin as (a' & b' & Ha' & Hb' & [= E1 E2] & Hrow & _).
      assert (a' = a) as -> by lia. assert (b' = b) as -> by lia.
      destruct (Hcells a b c Ha Hb Hc) as [[_ Ht]|[Hz _]].
      * apply triple_upto_all in Ht; [done|lia].
      * unfold mcell in Hz. rewrite Hrow in Hz. simpl in Hz. congruence.
  - intros label cells Hin.
    apply Hkey in Hin as (a & b & Ha & Hb & -> & Hrow & j & v & Hj & Hv).
    exists a, b, (Z.of_nat j). split; [done|].
    assert (Hjn : Z.of_nat j < n).
    { destruct Hrect as [_ Hrows].
      pose proof (Forall_lookup_1 _ _ _ _ Hrows Hrow) as Hl. simpl in Hl.
      apply lookup_lt_Some in Hj. lia. }
    destruct (Hcells a b (Z.of_nat j) Ha Hb ltac:(lia)) as [[_ Ht]|[Hz _]].
    + apply triple_upto_all in Ht; [done|lia].
    + unfold mcell in Hz. rewrite Hrow in Hz. simpl in Hz.
      rewrite Nat2Z.id in Hz. congruence.
Qed.

Lemma seq2TF_2step_marks_triples_witness :
  char2num (UC := plain_unicode) (SeqStr (str "ABCAB")) = Ok [0; 1; 2; 0; 1]
  ∧ py_max [0; 1; 2; 0; 1] = Ok (3 - 1)
  ∧ ∃ df,
      seq2TF_2step (UC := plain_unicode) (SeqStr (str "ABCAB")) None = Ok df
      ∧ df_columns df = state_letters 3
      ∧ (∀ a b c, 0 <= a < 3 → 0 <= b < 3 → 0 <= c < 3 →
           triple [0; 1; 2; 0; 1] a b c
           ↔ ∃ cells, ([a + 65; b + 65], cells) ∈ df_rows df
                      ∧ cells !! Z.to_nat c = Some 1)
      ∧ ∀ label cells, (label, cells) ∈ df_rows df →
          ∃ a b c, label = [a + 65; b + 65] ∧ triple [0; 1; 2; 0; 1] a b c.
Proof.
  assert (Hc : char2num (UC := plain_unicode) (SeqStr (str "ABCAB"))
               = Ok [0; 1; 2; 0; 1]) by (vm_compute; reflexivity).
  assert (Hm : py_max [0; 1; 2; 0; 1] = Ok (3 - 1))
    by (vm_compute; reflexivity).
  split; [exact Hc|]. split; [exact Hm|].
  exact (seq2TF_2step_marks_triples (UC := plain_unicode) (str "ABCAB")
           [0; 1; 2; 0; 1] None 3 Hc Hm).
Defined.

